(** * The contribution-analysis pipeline of the GitHub contribution analyzer

    A shallow embedding of the report pipeline of the Slack bot's GitHub
    controller (the third module of [src/models/Review.js], the one that
    starts at [const { Octokit } = require('@octokit/rest')] and holds
    [apiCache], [chunkArray], [initializeUserStats], [parseRepositories],
    [generateAndPostReport], [fetchCommitsForRepo], [fetchCommitsForBranch],
    [generateDetailedAIAnalysis], [generateAIAnalysis],
    [generateContributionReport], [getPullRequests], [getIssues],
    [calculateEffortGrade] and [convertScoreToGrade]; also [sanitizeToken]
    and the report on one user, [generateUserContributionReport],
    [formatUserReport] and [generateAndSendUserReport]).

    Conventions.
    - JavaScript numbers that count things (array lengths, line deltas,
      scores built from them) are [Z]; a quality score read from a JSON
      document is a rational [Q].
    - A JavaScript object used as a dictionary ([contributions.users],
      [contributions.repositories], [process.env]) is a [gmap string _]
      of the properties the object has of its own.  Where the code looks
      up a name that comes from outside (the login of an author, a user
      name of the analysis) the members every object inherits from
      [Object.prototype] count as well ([inherited]); the keys of
      repositories hold a slash and name no such member.
    - A [try]/[catch] is written with [Completion]: a computation either
      completes normally or throws.
    - Remote calls are scripted: a function that talks to the GitHub API
      consumes a list of outcomes, one per request, and the text-generation
      service is a function from the kind of prompt to what came back.
    - A string is the sequence of the bytes of its UTF-8 text, as a string
      literal of this file is.
    - Where a function works on the characters of a string
      ([sanitizeToken]), the string is the list of its UTF-16 code units. *)

From Stdlib Require Import ZArith QArith String Ascii List Lia Sorted.
From stdpp Require Import gmap strings list pretty.

Local Open Scope string_scope.
Local Open Scope list_scope.
Local Open Scope Z_scope.

(** * Part I: the embedding *)

(** ** JavaScript completions *)

Inductive JsError :=
| TypeError
| ReferenceError (identifier : string)
| SyntaxError
| OtherError (message : string).

Inductive Completion (A : Type) :=
| Normal (a : A)
| Throw (e : JsError).
Arguments Normal {A} a.
Arguments Throw {A} e.

Definition bindC {A B} (c : Completion A) (k : A -> Completion B) : Completion B :=
  match c with
  | Normal a => k a
  | Throw e => Throw e
  end.

(** [try { body } catch (e) { handler }] *)
Definition tryCatch {A} (body : Completion A) (handler : JsError -> Completion A)
  : Completion A :=
  match body with
  | Normal a => Normal a
  | Throw e => handler e
  end.

(** ** chunkArray

    [for (let i = 0; i < array.length; i += chunkSize)
       chunks.push(array.slice(i, i + chunkSize))].
    The code passes the chunk sizes 2 and 5 only.  With a chunk size of
    zero the loop of the source never ends; the model then yields one empty
    chunk per element. *)

Fixpoint chunkArray_fuel {A} (fuel : nat) (array : list A) (chunkSize : nat)
  : list (list A) :=
  match fuel, array with
  | _, [] => []
  | O, _ => []
  | S fuel', _ =>
      take chunkSize array :: chunkArray_fuel fuel' (drop chunkSize array) chunkSize
  end.

Definition chunkArray {A} (array : list A) (chunkSize : nat) : list (list A) :=
  chunkArray_fuel (length array) array chunkSize.

(** ** Scoring engine *)

(** [calculateEffortGrade(linesModified, activityScore)] *)
Definition calculateEffortGrade (linesModified activityScore : Z) : string :=
  if (linesModified >? 1000) || (activityScore >? 50) then "A+"
  else if (linesModified >? 750) || (activityScore >? 40) then "A"
  else if (linesModified >? 500) || (activityScore >? 30) then "A-"
  else if (linesModified >? 300) || (activityScore >? 20) then "B+"
  else if (linesModified >? 200) || (activityScore >? 15) then "B"
  else if (linesModified >? 100) || (activityScore >? 10) then "B-"
  else if (linesModified >? 50) || (activityScore >? 5) then "C+"
  else if (linesModified >? 25) || (activityScore >? 3) then "C"
  else if (linesModified >? 10) || (activityScore >? 1) then "C-"
  else "D".

(** [convertScoreToGrade(score)] on a numeric score. *)
Definition convertScoreToGrade (score : Q) : string :=
  if Qle_bool (95 # 10) score then "A+"
  else if Qle_bool (90 # 10) score then "A"
  else if Qle_bool (85 # 10) score then "A-"
  else if Qle_bool (80 # 10) score then "B+"
  else if Qle_bool (75 # 10) score then "B"
  else if Qle_bool (70 # 10) score then "B-"
  else if Qle_bool (65 # 10) score then "C+"
  else if Qle_bool (60 # 10) score then "C"
  else if Qle_bool (55 # 10) score then "C-"
  else if Qle_bool (50 # 10) score then "D+"
  else if Qle_bool (40 # 10) score then "D"
  else "F".

(** The band table as the specification words it: one row per band, the
    lines-modified threshold, the activity-score threshold and the grade,
    highest band first; the first row one of whose thresholds is exceeded
    wins, and [D] is what is left. *)
Definition effortBands : list (Z * Z * string) :=
  [ (1000, 50, "A+"); (750, 40, "A"); (500, 30, "A-");
    (300, 20, "B+"); (200, 15, "B"); (100, 10, "B-");
    (50, 5, "C+"); (25, 3, "C"); (10, 1, "C-") ].

Fixpoint firstMatchingBand (bands : list (Z * Z * string))
    (linesModified activityScore : Z) (lowest : string) : string :=
  match bands with
  | [] => lowest
  | (linesAbove, scoreAbove, grade) :: rest =>
      if (linesModified >? linesAbove) || (activityScore >? scoreAbove)
      then grade
      else firstMatchingBand rest linesModified activityScore lowest
  end.

(** The grades [calculateEffortGrade] can return, best first. *)
Definition effortGrades : list string :=
  (snd <$> effortBands) ++ ["D"].

(** Position of a grade in [effortGrades]: 0 for the best grade. *)
Fixpoint gradePosition_in (grades : list string) (grade : string) : nat :=
  match grades with
  | [] => O
  | g :: rest => if String.eqb g grade then O else S (gradePosition_in rest grade)
  end.

Definition gradePosition (grade : string) : nat :=
  gradePosition_in effortGrades grade.

(** ** JSON values and the JavaScript operations the pipeline applies to them *)

#[local] Set Warnings "-register-all".
Inductive json :=
| JNull
| JBool (b : bool)
| JNum (q : Q)
| JStr (s : string)
| JArr (items : list json)
| JObj (fields : list (string * json)).

(** A string is truthy unless it is empty. *)
Definition truthyString (s : string) : bool := negb (String.eqb s "").

(** [ToBoolean] on a JSON value (a parsed document holds no [NaN] and no
    [undefined]). *)
Definition truthy (v : json) : bool :=
  match v with
  | JNull => false
  | JBool b => b
  | JNum q => negb (Qeq_bool q 0)
  | JStr s => truthyString s
  | JArr _ | JObj _ => true
  end.

Fixpoint lookupField (fields : list (string * json)) (name : string) : option json :=
  match fields with
  | [] => None
  | (k, v) :: rest => if String.eqb k name then Some v else lookupField rest name
  end.

(** [v.name] for a [name] that no prototype defines ([owner], [repo],
    [contributors], [codeQualityScore]): a [TypeError] on [null],
    [undefined] ([None]) on a primitive, an array or an object without the
    field. *)
Definition getProp (v : json) (name : string) : Completion (option json) :=
  match v with
  | JNull => Throw TypeError
  | JObj fields => Normal (lookupField fields name)
  | _ => Normal None
  end.

Definition truthyOpt (v : option json) : bool :=
  match v with
  | Some v => truthy v
  | None => false
  end.

(** [array.every(callback)]: stops at the first falsy answer; what the
    callback throws propagates. *)
Fixpoint every (callback : json -> Completion bool) (array : list json)
  : Completion bool :=
  match array with
  | [] => Normal true
  | x :: rest =>
      bindC (callback x) (fun ok => if ok then every callback rest else Normal false)
  end.

(** [process.env] *)
Abbreviation Env := (gmap string string).

(** ** parseRepositories *)

Definition jsonRepo (owner repo : string) : json :=
  JObj [("owner", JStr owner); ("repo", JStr repo)].

Definition defaultRepositories : list json :=
  [ jsonRepo "arch-network" "arch-network";
    jsonRepo "arch-network" "book";
    jsonRepo "arch-network" "arch-infrastructure";
    jsonRepo "arch-network" "arch-k8s" ].

(** [repo => repo.owner && repo.repo], read as a boolean by [every]. *)
Definition ownerAndRepo (repo : json) : Completion bool :=
  bindC (getProp repo "owner") (fun owner =>
    if truthyOpt owner
    then bindC (getProp repo "repo") (fun name => Normal (truthyOpt name))
    else Normal false).

Section ParseRepositories.
(** The host's [JSON.parse]: [None] when it throws a [SyntaxError]. *)
Variable JSON_parse : string -> option json.

(** The inner [try]: [Some repos] is [return repos], [None] falls through
    to the defaults. *)
Definition parseRepositories_inner (reposEnv : string)
  : Completion (option (list json)) :=
  tryCatch
    (match JSON_parse reposEnv with
     | None => Throw SyntaxError
     | Some repos =>
         match repos with
         | JArr items =>
             bindC (every ownerAndRepo items) (fun valid =>
               if valid then Normal (Some items) else Normal None)
         | _ => Normal None
         end
     end)
    (fun parseError => Normal None).

Definition parseRepositories (env : Env) : Completion (list json) :=
  tryCatch
    (bindC
       (match env !! "GITHUB_REPOS" with
        | Some reposEnv =>
            if truthyString reposEnv
            then parseRepositories_inner reposEnv
            else Normal None
        | None => Normal None
        end)
       (fun returned =>
          match returned with
          | Some repos => Normal repos
          | None => Normal defaultRepositories
          end))
    (fun error => Normal defaultRepositories).
End ParseRepositories.

(** An entry that has both fields, each with a truthy value. *)
Definition hasOwnerAndRepo (entry : json) : Prop :=
  exists fields owner repo,
    entry = JObj fields
    /\ lookupField fields "owner" = Some owner /\ truthy owner = true
    /\ lookupField fields "repo" = Some repo /\ truthy repo = true.

(** ** generateAndPostReport: the run-scoped skip flags

    The function saves the two flags in [const] bindings declared inside
    its [try] block, sets both flags, runs the pipeline, and restores the
    flags in its [finally] block.  Identifiers are resolved through the
    chain of scopes that encloses the place of use. *)

Inductive JsValue :=
| VUndefined
| VString (s : string)
| VObject (printed : string).  (* an object or function, with its [String(..)] *)

Definition Scope := list (string * JsValue).

Fixpoint scopeLookup (scope : Scope) (identifier : string) : option JsValue :=
  match scope with
  | [] => None
  | (name, v) :: rest =>
      if String.eqb name identifier then Some v else scopeLookup rest identifier
  end.

(** Innermost scope first; an identifier bound nowhere is a
    [ReferenceError]. *)
Fixpoint resolve (chain : list Scope) (identifier : string) : Completion JsValue :=
  match chain with
  | [] => Throw (ReferenceError identifier)
  | scope :: outer =>
      match scopeLookup scope identifier with
      | Some v => Normal v
      | None => resolve outer identifier
      end
  end.

Definition truthyValue (v : JsValue) : bool :=
  match v with
  | VUndefined => false
  | VString s => truthyString s
  | VObject _ => true
  end.

(** [process.env.NAME = v] stores [String(v)]. *)
Definition envString (v : JsValue) : string :=
  match v with
  | VUndefined => "undefined"
  | VString s => s
  | VObject printed => printed
  end.

Definition declared (names : list string) : Scope :=
  (fun name => (name, VObject name)) <$> names.

(** The bindings of the module: its [require]s, constants and functions. *)
Definition moduleScope : Scope :=
  declared
    [ "Octokit"; "ContributionReport"; "formatTimestamp"; "axios";
      "sanitizeToken"; "githubToken"; "octokit"; "apiCache"; "chunkArray";
      "initializeUserStats"; "parseRepositories"; "REPOS";
      "handleReviewCommand"; "handleGenerateReport"; "generateAndPostReport";
      "handleUserReport"; "generateAndSendUserReport"; "handleLastWeekReport";
      "retrieveAndPostLastReport"; "generateAIAnalysis"; "fetchDetailedContent";
      "fetchCommitsForRepo"; "fetchCommitsForBranch"; "getCommitsByAuthor";
      "getPullRequestsByUser"; "getIssuesByUser"; "generateDetailedAIAnalysis";
      "generateContributionReport"; "formatTeamStatsTable";
      "formatIndividualStatsTable"; "showHelp"; "handleTokenInfo";
      "fetchPullRequestsForUser"; "fetchIssuesForUser"; "formatUserReport";
      "sendWeeklyReport"; "getCommits"; "getPullRequests"; "getIssues";
      "generateUserContributionReport"; "calculateEffortGrade";
      "convertScoreToGrade"; "saveReport"; "postReportToChannel" ].

(** What Node gives every module. *)
Definition globalScope : Scope :=
  declared
    [ "process"; "console"; "global"; "require"; "module"; "exports";
      "Date"; "Math"; "JSON"; "Object"; "Array"; "Map"; "Set"; "Promise";
      "Error"; "parseInt"; "setTimeout" ].

(** [generateAndPostReport(client, channelId, respond)] *)
Definition generateAndPostReport_params : Scope :=
  declared ["client"; "channelId"; "respond"].

(** The scopes around the [finally] block, which declares nothing itself.
    The bindings of the [try] block ([originalSkipDetailedContent],
    [originalSkipAIAnalysis], [report], [savedReport]) belong to that block
    and are not among them. *)
Definition finallyScopes : list Scope :=
  [ []; generateAndPostReport_params; moduleScope; globalScope ].

Section GenerateAndPostReport.
(** What the three awaited calls of the [try] block do
    ([generateContributionReport], [saveReport], [postReportToChannel]),
    and what the two [respond] calls do. *)
Variable pipeline : Completion unit.
Variable respondDone respondFailed : Completion unit.

Definition generateAndPostReport_try (env : Env) : Env * Completion unit :=
  let originalSkipDetailedContent := env !! "SKIP_DETAILED_CONTENT" in
  let originalSkipAIAnalysis := env !! "SKIP_AI_ANALYSIS" in
  let env := <["SKIP_DETAILED_CONTENT" := "true"]> env in
  let env := <["SKIP_AI_ANALYSIS" := "true"]> env in
  (env,
   bindC pipeline (fun _ =>
     tryCatch respondDone (fun respondError => Normal ()))).

Definition generateAndPostReport_catch (error : JsError) : Completion unit :=
  tryCatch respondFailed (fun respondError => Normal ()).

(** [if (x) process.env.NAME = x; else delete process.env.NAME;] with
    [x] resolved where the statement stands. *)
Definition restoreFlag (chain : list Scope) (identifier name : string)
    (env : Env) : Env * Completion unit :=
  match resolve chain identifier with
  | Throw e => (env, Throw e)
  | Normal v =>
      if truthyValue v
      then (<[name := envString v]> env, Normal ())
      else (delete name env, Normal ())
  end.

Definition generateAndPostReport_finally (env : Env) : Env * Completion unit :=
  match restoreFlag finallyScopes "originalSkipDetailedContent"
          "SKIP_DETAILED_CONTENT" env with
  | (env, Throw e) => (env, Throw e)
  | (env, Normal _) =>
      restoreFlag finallyScopes "originalSkipAIAnalysis" "SKIP_AI_ANALYSIS" env
  end.

(** [try { .. } catch (error) { .. } finally { .. }]: the [finally] block
    runs last, and what it throws replaces the completion so far. *)
Definition generateAndPostReport (env : Env) : Env * Completion unit :=
  let '(env, attempted) := generateAndPostReport_try env in
  let handled := tryCatch attempted generateAndPostReport_catch in
  let '(env, restored) := generateAndPostReport_finally env in
  (env,
   match restored with
   | Throw e => Throw e
   | Normal _ => handled
   end).
End GenerateAndPostReport.

(** ** Raw events *)

(** A commit as the commit-list endpoint returns it: [sha],
    [author?.login] and [commit?.author?.name]. *)
Record Commit := {
  sha : string;
  author_login : option string;
  commit_author_name : option string
}.

(** A pull request: [user.login] ([None] when [user] is [null]),
    [created_at] as a time value, and whether [merged_at] is not [null]. *)
Record PullRequest := {
  pr_user_login : option string;
  pr_created_at : Z;
  pr_merged : bool
}.

(** An item of the issue list: [user.login], [created_at], whether it has
    a [pull_request] member, and its [state]. *)
Record Issue := {
  issue_user_login : option string;
  issue_created_at : Z;
  issue_pull_request : bool;
  issue_state : string
}.

(** ** The rate-aware fetch layer *)

(** What a rejected request carries: [error.status], [error.message] and
    the two rate-limit headers of [error.response] (the reset header as the
    number of seconds it spells). *)
Record ApiError := {
  status : Z;
  message : string;
  ratelimit_remaining : option string;
  ratelimit_reset : option Z
}.

Inductive Outcome (A : Type) :=
| Responded (data : list A)
| Failed (error : ApiError).
Arguments Responded {A} data.
Arguments Failed {A} error.

(** One request of the script: how long it took and how it ended. *)
Record Exchange (A : Type) := {
  latency : N;
  outcome : Outcome A
}.
Arguments latency {A} _.
Arguments outcome {A} _.

(** What a fetch did, in order; times are [Date.now()] in milliseconds. *)
Inductive FetchEvent :=
| Probed (at_ms : Z)
| Requested (at_ms : Z) (page : Z)
| Slept (from_ms : Z) (ms : Z).

Record Fetch (A : Type) := {
  returned : list A;
  trace : list FetchEvent;
  finishedAt : Z
}.
Arguments returned {A} _.
Arguments trace {A} _.
Arguments finishedAt {A} _.

(** [hay.includes(needle)] *)
Fixpoint includes (hay needle : string) : bool :=
  String.prefix needle hay
  || match hay with
     | EmptyString => false
     | String _ rest => includes rest needle
     end.

Definition lengthZ {A} (l : list A) : Z := Z.of_nat (length l).

(** *** getPullRequests

    A function of the script of its requests: [None] when the script ends
    before the function returns. *)

Definition prCreatedWithin (since until : Z) (pr : PullRequest) : bool :=
  (since <=? pr_created_at pr) && (pr_created_at pr <=? until).

Fixpoint getPullRequests_pages (script : list (Exchange PullRequest))
    (since until : Z) (now : Z) (allPRs : list PullRequest) (page : Z)
    (events : list FetchEvent) : option (Fetch PullRequest) :=
  match script with
  | [] => None
  | exchange :: script =>
      let events := events ++ [Requested now page] in
      let now := now + Z.of_N (latency exchange) in
      let stop allPRs :=
        Some {| returned := allPRs; trace := events; finishedAt := now |} in
      match outcome exchange with
      | Responded data =>
          if lengthZ data =? 0 then stop allPRs
          else
            let allPRs := allPRs ++ List.filter (prCreatedWithin since until) data in
            let page := page + 1 in
            if lengthZ data <? 100 then stop allPRs
            else getPullRequests_pages script since until now allPRs page events
      | Failed apiError =>
          (* every branch of the handler sets [hasMorePages = false] *)
          if (status apiError =? 403) && includes (message apiError) "rate limit"
          then stop allPRs
          else if status apiError =? 404 then stop allPRs
          else if status apiError =? 401 then stop allPRs
          else stop allPRs
      end
  end.

Definition getPullRequests (script : list (Exchange PullRequest))
    (since until : Z) (now : Z) : option (Fetch PullRequest) :=
  getPullRequests_pages script since until now [] 1 [].

(** *** The two nested [while] loops of getIssues and fetchCommitsForBranch

    After one pass through the body of the inner loop: the inner loop goes
    round again while the page has not succeeded and attempts are left;
    otherwise the outer loop goes round (with the attempt counter back at
    zero) while its own condition holds; otherwise both are over. *)
Inductive LoopControl := InnerAgain | OuterAgain | LoopsOver.

Definition loopControl (success : bool) (attempts maxAttempts : Z)
    (outerCondition : bool) : LoopControl :=
  if negb success && (attempts <? maxAttempts) then InnerAgain
  else if outerCondition then OuterAgain
  else LoopsOver.

(** [Math.max(resetTime * 1000 - Date.now(), 0) + 1000] *)
Definition rateLimitWait (resetTime now : Z) : Z :=
  Z.max (resetTime * 1000 - now) 0 + 1000.

(** [Math.pow(2, attempts) * 1000] *)
Definition backoffWait (attempts : Z) : Z := 2 ^ attempts * 1000.

(** *** getIssues *)

Definition issueCreatedUpTo (until : Z) (issue : Issue) : bool :=
  issue_created_at issue <=? until.

Definition getIssues_maxAttempts : Z := 3.

Fixpoint getIssues_pages (script : list (Exchange Issue)) (until : Z)
    (now : Z) (allIssues : list Issue) (page : Z) (attempts : Z)
    (events : list FetchEvent) : option (Fetch Issue) :=
  match script with
  | [] => None
  | exchange :: script =>
      let attempts := attempts + 1 in
      let events := events ++ [Requested now page] in
      let now := now + Z.of_N (latency exchange) in
      let next success hasMorePages attempts now allIssues page events :=
        match loopControl success attempts getIssues_maxAttempts hasMorePages with
        | InnerAgain =>
            getIssues_pages script until now allIssues page attempts events
        | OuterAgain =>
            getIssues_pages script until now allIssues page 0 events
        | LoopsOver =>
            Some {| returned := allIssues; trace := events; finishedAt := now |}
        end in
      match outcome exchange with
      | Responded data =>
          if lengthZ data =? 0
          then next true false attempts now allIssues page events
          else
            let allIssues := allIssues ++ List.filter (issueCreatedUpTo until) data in
            let page := page + 1 in
            next true (negb (lengthZ data <? 100)) attempts now allIssues page events
      | Failed apiError =>
          if includes (message apiError) "socket hang up"
             || includes (message apiError) "ECONNRESET"
          then
            let waitTime := backoffWait attempts in
            next false true attempts (now + waitTime) allIssues page
              (events ++ [Slept now waitTime])
          else
            match
              (if (status apiError =? 403)
                  && includes (message apiError) "rate limit"
               then ratelimit_reset apiError else None)
            with
            | Some resetTime =>
                let waitTime := rateLimitWait resetTime now in
                (* Don't increment attempts for rate limit errors *)
                next false true (attempts - 1) (now + waitTime) allIssues page
                  (events ++ [Slept now waitTime])
            | None =>
                if attempts <? getIssues_maxAttempts
                then
                  let waitTime := backoffWait attempts in
                  next false true attempts (now + waitTime) allIssues page
                    (events ++ [Slept now waitTime])
                else next false false attempts now allIssues page events
            end
      end
  end.

Definition getIssues (script : list (Exchange Issue)) (until : Z) (now : Z)
  : option (Fetch Issue) :=
  getIssues_pages script until now [] 1 0 [].

(** *** apiCache, the [commits] map

    [get] drops an entry whose time is up; [set] stamps an entry with
    [Date.now() + CACHE_TTL]. *)

Record CacheItem := {
  item_data : list Commit;
  expiresAt : Z
}.

Abbreviation ApiCache := (gmap string CacheItem).

Definition CACHE_TTL : Z := 30 * 60 * 1000.

Definition apiCache_get (cache : ApiCache) (key : string) (now : Z)
  : option (list Commit) * ApiCache :=
  match cache !! key with
  | None => (None, cache)
  | Some item =>
      if now >? expiresAt item then (None, delete key cache)
      else (Some (item_data item), cache)
  end.

Definition apiCache_set (cache : ApiCache) (key : string) (data : list Commit)
    (now : Z) : ApiCache :=
  <[key := {| item_data := data; expiresAt := now + CACHE_TTL |}]> cache.

(** *** fetchCommitsForBranch *)

(** The repository argument of the commit collector: [{ owner, name }]. *)
Record RepoRef := {
  ref_owner : string;
  ref_name : string
}.

Definition isMemoryOptimized (env : Env) : bool :=
  bool_decide (env !! "MEMORY_OPTIMIZED" = Some "true").

Fixpoint fetchCommitsForBranch_pages (script : list (Exchange Commit))
    (pageSize : Z) (maxPages : option Z) (maxRetries : Z)
    (now : Z) (allBranchCommits : list Commit) (page : Z) (retries : Z)
    (events : list FetchEvent) : option (Fetch Commit) :=
  match script with
  | [] => None
  | exchange :: script =>
      let events := events ++ [Requested now page] in
      let now := now + Z.of_N (latency exchange) in
      let next success hasMoreCommits retries now allBranchCommits page events :=
        let pagesLeft :=
          match maxPages with
          | Some maxPages => page <=? maxPages
          | None => false        (* [page <= NaN] *)
          end in
        match loopControl success retries maxRetries (hasMoreCommits && pagesLeft) with
        | InnerAgain =>
            fetchCommitsForBranch_pages script pageSize maxPages maxRetries
              now allBranchCommits page retries events
        | OuterAgain =>
            if 0 <? maxRetries
            then fetchCommitsForBranch_pages script pageSize maxPages maxRetries
                   now allBranchCommits page 0 events
            else None            (* the outer loop spins without a request *)
        | LoopsOver =>
            Some {| returned := allBranchCommits; trace := events;
                    finishedAt := now |}
        end in
      match outcome exchange with
      | Responded data =>
          if lengthZ data =? 0
          then next true false retries now allBranchCommits page events
          else
            let allBranchCommits := allBranchCommits ++ data in
            let hasMoreCommits := negb (lengthZ data <? pageSize) in
            let page := page + 1 in
            next true hasMoreCommits retries now allBranchCommits page events
      | Failed error =>
          let retries := retries + 1 in
          if (status error =? 403)
             && bool_decide (ratelimit_remaining error = Some "0")
          then
            let waitTime :=
              match ratelimit_reset error with
              | Some resetTime => rateLimitWait resetTime now
              | None => 1        (* a [NaN] delay: the timer fires at once *)
              end in
            next false true retries (now + waitTime) allBranchCommits page
              (events ++ [Slept now waitTime])
          else if retries <? maxRetries
          then
            let waitTime := backoffWait retries in
            next false true retries (now + waitTime) allBranchCommits page
              (events ++ [Slept now waitTime])
          else next false false retries now allBranchCommits page events
      end
  end.

Section FetchCommitsForBranch.
(** The host's [parseInt(text)]: [None] for [NaN]. *)
Variable parseInt : string -> option Z.

Definition branchPageSize (env : Env) : Z :=
  if isMemoryOptimized env then 100 else 250.

Definition branchMaxPages (env : Env) : option Z :=
  if isMemoryOptimized env then Some 2
  else
    match env !! "MAX_BRANCH_PAGES" with
    | Some text => if truthyString text then parseInt text else Some 10
    | None => Some 10
    end.

Definition branchCacheKey (repo : RepoRef) (branch sinceIso untilIso : string)
  : string :=
  ref_owner repo +:+ "/" +:+ ref_name repo +:+ ":" +:+ branch +:+ ":"
  +:+ sinceIso +:+ ":" +:+ untilIso.

(** [None] when the script ends before the function returns or when the
    function cannot return. *)
Definition fetchCommitsForBranch (env : Env) (cache : ApiCache) (now : Z)
    (repo : RepoRef) (branch sinceIso untilIso : string) (maxRetries : Z)
    (script : list (Exchange Commit)) : option (Fetch Commit * ApiCache) :=
  let cacheKey := branchCacheKey repo branch sinceIso untilIso in
  match apiCache_get cache cacheKey now with
  | (Some cachedCommits, cache) =>
      Some ({| returned := cachedCommits; trace := []; finishedAt := now |}, cache)
  | (None, cache) =>
      let pageSize := branchPageSize env in
      let maxPages := branchMaxPages env in
      match script with
      | [] => None
      | probe :: script =>
          let events := [Probed now] in
          let now := now + Z.of_N (latency probe) in
          let skip :=
            Some ({| returned := []; trace := events; finishedAt := now |},
                  apiCache_set cache cacheKey [] now) in
          match outcome probe with
          | Failed error => skip
          | Responded data =>
              if lengthZ data =? 0 then skip
              else
                let started :=
                  match maxPages with
                  | Some maxPages => 1 <=? maxPages
                  | None => false
                  end in
                let fetched :=
                  if started
                  then
                    if 0 <? maxRetries
                    then fetchCommitsForBranch_pages script pageSize maxPages
                           maxRetries now [] 1 0 events
                    else None
                  else Some {| returned := []; trace := events;
                               finishedAt := now |} in
                match fetched with
                | None => None
                | Some fetch =>
                    Some (fetch,
                          apiCache_set cache cacheKey (returned fetch)
                            (finishedAt fetch))
                end
          end
      end
  end.
End FetchCommitsForBranch.

(** *** parseInt(text, 10)

    Leading white space, an optional sign, then the longest run of decimal
    digits; [None] ([NaN]) when there is no digit.

    The white space [parseInt] skips is [WhiteSpace] and [LineTerminator]:
    U+0009 to U+000D and U+0020, which are one byte each, and U+00A0,
    U+1680, U+2000 to U+200A, U+2028, U+2029, U+202F, U+205F, U+3000 and
    U+FEFF, which take two or three bytes in a text. *)

Definition isWhiteSpace (c : ascii) : bool :=
  let n := N_of_ascii c in
  (n =? 32)%N || ((9 <=? n)%N && (n <=? 13)%N).

(** U+00A0 is [C2 A0]. *)
Definition isWhiteSpace2 (c1 c2 : ascii) : bool :=
  (N_of_ascii c1 =? 0xC2)%N && (N_of_ascii c2 =? 0xA0)%N.

(** U+1680 is [E1 9A 80]; U+2000 to U+200A are [E2 80 80] to [E2 80 8A];
    U+2028, U+2029 and U+202F are [E2 80 A8], [E2 80 A9] and [E2 80 AF];
    U+205F is [E2 81 9F]; U+3000 is [E3 80 80]; U+FEFF is [EF BB BF]. *)
Definition isWhiteSpace3 (c1 c2 c3 : ascii) : bool :=
  let n1 := N_of_ascii c1 in
  let n2 := N_of_ascii c2 in
  let n3 := N_of_ascii c3 in
  ((n1 =? 0xE1) && (n2 =? 0x9A) && (n3 =? 0x80))%N
  || ((n1 =? 0xE2) && (n2 =? 0x80)
      && (((0x80 <=? n3) && (n3 <=? 0x8A))
          || (n3 =? 0xA8) || (n3 =? 0xA9) || (n3 =? 0xAF)))%N
  || ((n1 =? 0xE2) && (n2 =? 0x81) && (n3 =? 0x9F))%N
  || ((n1 =? 0xE3) && (n2 =? 0x80) && (n3 =? 0x80))%N
  || ((n1 =? 0xEF) && (n2 =? 0xBB) && (n3 =? 0xBF))%N.

Fixpoint skipWhiteSpace (text : string) : string :=
  match text with
  | String c1 rest1 =>
      if isWhiteSpace c1 then skipWhiteSpace rest1
      else
        match rest1 with
        | String c2 rest2 =>
            if isWhiteSpace2 c1 c2 then skipWhiteSpace rest2
            else
              match rest2 with
              | String c3 rest3 =>
                  if isWhiteSpace3 c1 c2 c3 then skipWhiteSpace rest3 else text
              | EmptyString => text
              end
        | EmptyString => text
        end
  | EmptyString => EmptyString
  end.

Definition digitValue (c : ascii) : option Z :=
  let n := Z.of_N (N_of_ascii c) in
  if (48 <=? n) && (n <=? 57) then Some (n - 48) else None.

Fixpoint readDigits (text : string) (sofar : option Z) : option Z :=
  match text with
  | String c rest =>
      match digitValue c with
      | Some d => readDigits rest (Some (10 * default 0 sofar + d))
      | None => sofar
      end
  | EmptyString => sofar
  end.

Definition parseIntDecimal (text : string) : option Z :=
  match skipWhiteSpace text with
  | String c rest =>
      if Ascii.eqb c "-" then Z.opp <$> readDigits rest None
      else if Ascii.eqb c "+" then readDigits rest None
      else readDigits (String c rest) None
  | EmptyString => None
  end.

(** *** The fetch layer at work *)

Definition rateLimited (resetTime : Z) : ApiError :=
  {| status := 403; message := "API rate limit exceeded";
     ratelimit_remaining := Some "0"; ratelimit_reset := Some resetTime |}.

Definition serverError : ApiError :=
  {| status := 500; message := "Internal Server Error";
     ratelimit_remaining := None; ratelimit_reset := None |}.

Definition notFound : ApiError :=
  {| status := 404; message := "Not Found";
     ratelimit_remaining := None; ratelimit_reset := None |}.

Definition unauthorized : ApiError :=
  {| status := 401; message := "Bad credentials";
     ratelimit_remaining := None; ratelimit_reset := None |}.

Definition answered {A} (data : list A) : Exchange A :=
  {| latency := 0; outcome := Responded data |}.

Definition rejected {A} (error : ApiError) : Exchange A :=
  {| latency := 0; outcome := Failed error |}.

Definition commit_c1 : Commit :=
  {| sha := "c1"; author_login := Some "alice"; commit_author_name := Some "Alice" |}.

Definition issue_i1 : Issue :=
  {| issue_user_login := Some "alice"; issue_created_at := 5;
     issue_pull_request := false; issue_state := "open" |}.

Definition pr_p1 : PullRequest :=
  {| pr_user_login := Some "alice"; pr_created_at := 5; pr_merged := false |}.

Definition repo_o_r : RepoRef := {| ref_owner := "o"; ref_name := "r" |}.

(** The commits a branch fetch returns on a script, from an empty cache at
    time 0 with the collector's [maxRetries = 3]. *)
Definition branchCommitsOn (script : list (Exchange Commit)) : option (list Commit) :=
  (fun result => returned (fst result))
    <$> fetchCommitsForBranch parseIntDecimal ∅ ∅ 0 repo_o_r "main" "s" "u" 3 script.

Definition branchTraceOn (script : list (Exchange Commit)) : option (list FetchEvent) :=
  (fun result => trace (fst result))
    <$> fetchCommitsForBranch parseIntDecimal ∅ ∅ 0 repo_o_r "main" "s" "u" 3 script.

(** ** The branch-aware commit collector: fetchCommitsForRepo *)

(** [array.sort(comparator)] for a comparator that orders by a key: the
    stable rearrangement, built by inserting from the right. *)
Fixpoint insertBefore {A} (comparator : A -> A -> Z) (x : A) (sorted : list A)
  : list A :=
  match sorted with
  | [] => [x]
  | y :: rest =>
      if comparator x y <=? 0 then x :: y :: rest
      else y :: insertBefore comparator x rest
  end.

Definition sortStable {A} (comparator : A -> A -> Z) (array : list A) : list A :=
  foldr (insertBefore comparator) [] array.

Definition priorityBranches : list string :=
  ["main"; "master"; "develop"; "dev"; "staging"; "production"].

(** [priorityBranches.findIndex(name => branch.includes(name))], [None]
    for [-1]. *)
Fixpoint findIndexFrom (names : list string) (branch : string) (index : Z)
  : option Z :=
  match names with
  | [] => None
  | name :: rest =>
      if includes branch name then Some index
      else findIndexFrom rest branch (index + 1)
  end.

Definition priorityIndex (branch : string) : option Z :=
  findIndexFrom priorityBranches branch 0.

Definition compareBranches (a b : string) : Z :=
  match priorityIndex a, priorityIndex b with
  | Some aIndex, Some bIndex => aIndex - bIndex
  | Some _, None => -1
  | None, Some _ => 1
  | None, None => 0
  end.

(** One round of the merge: [uniqueIds] is the set of shas collected so
    far, [newCommits] the commits of the branch whose sha is not in it. *)
Definition addNewCommits (allCommits branchCommits : list Commit) : list Commit :=
  let uniqueIds : gset string := list_to_set (sha <$> allCommits) in
  let newCommits :=
    List.filter (fun commit => negb (bool_decide (sha commit ∈ uniqueIds)))
      branchCommits in
  allCommits ++ newCommits.

Section FetchCommitsForRepo.
(** What [fetchCommitsForBranch(repo, branch, since, until, maxRetries)]
    resolves to, branch by branch. *)
Variable branchCommits : string -> list Commit.

(** A chunk of branches is fetched with [Promise.all], whose results
    come in the order of the chunk, and merged result by result. *)
Definition collectChunk (allCommits : list Commit) (branchChunk : list string)
  : list Commit :=
  let branchCommitsResults := branchCommits <$> branchChunk in
  foldl addNewCommits allCommits branchCommitsResults.

(** The branches to visit: the cached or listed names, or the default
    branch alone ([""]) when listing failed ([None]); put in priority
    order when there are more than three. *)
Definition branchesToVisit (listed : option (list string)) : list string :=
  let allBranches := default [""] listed in
  if 3 <? lengthZ allBranches
  then sortStable compareBranches allBranches
  else allBranches.

(** [cachedCommits] is what [apiCache.get('commits', cacheKey)] gave. *)
Definition fetchCommitsForRepo_with (concurrencyLimit : nat)
    (cachedCommits : option (list Commit)) (listed : option (list string))
  : list Commit :=
  match cachedCommits with
  | Some cached => cached
  | None =>
      let branchChunks := chunkArray (branchesToVisit listed) concurrencyLimit in
      foldl collectChunk [] branchChunks
  end.

Definition fetchCommitsForRepo := fetchCommitsForRepo_with 5.
End FetchCommitsForRepo.

(** How many commits of a list carry a sha. *)
Definition countSha (wanted : string) (commits : list Commit) : nat :=
  length (List.filter (fun commit => String.eqb (sha commit) wanted) commits).

Definition commit_c2 : Commit :=
  {| sha := "c2"; author_login := Some "alice"; commit_author_name := Some "Alice" |}.

Definition commit_c3 : Commit :=
  {| sha := "c3"; author_login := None; commit_author_name := Some "Bob" |}.

(** Two branches that share the commit [c2]. *)
Definition mainAndDev (branch : string) : list Commit :=
  if String.eqb branch "main" then [commit_c1; commit_c2]
  else if String.eqb branch "dev" then [commit_c2; commit_c3]
  else [].

(** ** Statistics

    The records of the report, each with the updates the aggregator
    performs on it. *)

Module RepositoryStats.
Record t := {
  commits : Z;
  pullRequests : Z;
  issues : Z;
  prsMerged : Z;
  issuesClosed : Z;
  linesAdded : Z;
  linesDeleted : Z;
  linesModified : Z;
  contributors : list string
}.

Definition zero : t :=
  {| commits := 0; pullRequests := 0; issues := 0; prsMerged := 0;
     issuesClosed := 0; linesAdded := 0; linesDeleted := 0;
     linesModified := 0; contributors := [] |}.

Definition setCommits (n : Z) (r : t) : t :=
  {| commits := n; pullRequests := pullRequests r; issues := issues r;
     prsMerged := prsMerged r; issuesClosed := issuesClosed r;
     linesAdded := linesAdded r; linesDeleted := linesDeleted r;
     linesModified := linesModified r; contributors := contributors r |}.

Definition setPullRequests (n merged : Z) (r : t) : t :=
  {| commits := commits r; pullRequests := n; issues := issues r;
     prsMerged := merged; issuesClosed := issuesClosed r;
     linesAdded := linesAdded r; linesDeleted := linesDeleted r;
     linesModified := linesModified r; contributors := contributors r |}.

Definition setIssues (n closed : Z) (r : t) : t :=
  {| commits := commits r; pullRequests := pullRequests r; issues := n;
     prsMerged := prsMerged r; issuesClosed := closed;
     linesAdded := linesAdded r; linesDeleted := linesDeleted r;
     linesModified := linesModified r; contributors := contributors r |}.

(** [linesAdded += a; linesDeleted += d; linesModified += a + d] *)
Definition addLines (added deleted : Z) (r : t) : t :=
  {| commits := commits r; pullRequests := pullRequests r; issues := issues r;
     prsMerged := prsMerged r; issuesClosed := issuesClosed r;
     linesAdded := linesAdded r + added; linesDeleted := linesDeleted r + deleted;
     linesModified := linesModified r + (added + deleted);
     contributors := contributors r |}.

(** [if (!contributors.includes(author)) contributors.push(author)] *)
Definition addContributor (author : string) (r : t) : t :=
  {| commits := commits r; pullRequests := pullRequests r; issues := issues r;
     prsMerged := prsMerged r; issuesClosed := issuesClosed r;
     linesAdded := linesAdded r; linesDeleted := linesDeleted r;
     linesModified := linesModified r;
     contributors :=
       if bool_decide (author ∈ contributors r) then contributors r
       else contributors r ++ [author] |}.
End RepositoryStats.

Module UserRepoStats.
Record t := {
  commits : Z;
  pullRequests : Z;
  issues : Z;
  linesAdded : Z;
  linesDeleted : Z;
  linesModified : Z
}.

Definition zero : t :=
  {| commits := 0; pullRequests := 0; issues := 0;
     linesAdded := 0; linesDeleted := 0; linesModified := 0 |}.

Definition addCommits (n : Z) (r : t) : t :=
  {| commits := commits r + n; pullRequests := pullRequests r;
     issues := issues r; linesAdded := linesAdded r;
     linesDeleted := linesDeleted r; linesModified := linesModified r |}.

Definition addPullRequests (n : Z) (r : t) : t :=
  {| commits := commits r; pullRequests := pullRequests r + n;
     issues := issues r; linesAdded := linesAdded r;
     linesDeleted := linesDeleted r; linesModified := linesModified r |}.

Definition addIssues (n : Z) (r : t) : t :=
  {| commits := commits r; pullRequests := pullRequests r;
     issues := issues r + n; linesAdded := linesAdded r;
     linesDeleted := linesDeleted r; linesModified := linesModified r |}.

Definition addLines (added deleted : Z) (r : t) : t :=
  {| commits := commits r; pullRequests := pullRequests r; issues := issues r;
     linesAdded := linesAdded r + added; linesDeleted := linesDeleted r + deleted;
     linesModified := linesModified r + (added + deleted) |}.
End UserRepoStats.

Module UserStats.
Record t := {
  totalCommits : Z;
  totalPRs : Z;
  totalIssues : Z;
  linesAdded : Z;
  linesDeleted : Z;
  linesModified : Z;
  activityScore : Z;
  codeQualityGrade : string;
  effortGrade : string;
  repositories : gmap string UserRepoStats.t
}.

Definition zero : t :=
  {| totalCommits := 0; totalPRs := 0; totalIssues := 0;
     linesAdded := 0; linesDeleted := 0; linesModified := 0;
     activityScore := 0; codeQualityGrade := "N/A"; effortGrade := "N/A";
     repositories := ∅ |}.

Definition addCommits (n : Z) (u : t) : t :=
  {| totalCommits := totalCommits u + n; totalPRs := totalPRs u;
     totalIssues := totalIssues u; linesAdded := linesAdded u;
     linesDeleted := linesDeleted u; linesModified := linesModified u;
     activityScore := activityScore u; codeQualityGrade := codeQualityGrade u;
     effortGrade := effortGrade u; repositories := repositories u |}.

Definition addPRs (n : Z) (u : t) : t :=
  {| totalCommits := totalCommits u; totalPRs := totalPRs u + n;
     totalIssues := totalIssues u; linesAdded := linesAdded u;
     linesDeleted := linesDeleted u; linesModified := linesModified u;
     activityScore := activityScore u; codeQualityGrade := codeQualityGrade u;
     effortGrade := effortGrade u; repositories := repositories u |}.

Definition addIssues (n : Z) (u : t) : t :=
  {| totalCommits := totalCommits u; totalPRs := totalPRs u;
     totalIssues := totalIssues u + n; linesAdded := linesAdded u;
     linesDeleted := linesDeleted u; linesModified := linesModified u;
     activityScore := activityScore u; codeQualityGrade := codeQualityGrade u;
     effortGrade := effortGrade u; repositories := repositories u |}.

Definition addLines (added deleted : Z) (u : t) : t :=
  {| totalCommits := totalCommits u; totalPRs := totalPRs u;
     totalIssues := totalIssues u; linesAdded := linesAdded u + added;
     linesDeleted := linesDeleted u + deleted;
     linesModified := linesModified u + (added + deleted);
     activityScore := activityScore u; codeQualityGrade := codeQualityGrade u;
     effortGrade := effortGrade u; repositories := repositories u |}.

Definition withRepositories
    (f : gmap string UserRepoStats.t -> gmap string UserRepoStats.t) (u : t) : t :=
  {| totalCommits := totalCommits u; totalPRs := totalPRs u;
     totalIssues := totalIssues u; linesAdded := linesAdded u;
     linesDeleted := linesDeleted u; linesModified := linesModified u;
     activityScore := activityScore u; codeQualityGrade := codeQualityGrade u;
     effortGrade := effortGrade u; repositories := f (repositories u) |}.

Definition setScores (score : Z) (effort : string) (u : t) : t :=
  {| totalCommits := totalCommits u; totalPRs := totalPRs u;
     totalIssues := totalIssues u; linesAdded := linesAdded u;
     linesDeleted := linesDeleted u; linesModified := linesModified u;
     activityScore := score; codeQualityGrade := codeQualityGrade u;
     effortGrade := effort; repositories := repositories u |}.

Definition setCodeQualityGrade (grade : string) (u : t) : t :=
  {| totalCommits := totalCommits u; totalPRs := totalPRs u;
     totalIssues := totalIssues u; linesAdded := linesAdded u;
     linesDeleted := linesDeleted u; linesModified := linesModified u;
     activityScore := activityScore u; codeQualityGrade := grade;
     effortGrade := effortGrade u; repositories := repositories u |}.
End UserStats.

Module Summary.
Record t := {
  totalCommits : Z;
  totalPRs : Z;
  totalIssues : Z;
  totalLinesAdded : Z;
  totalLinesDeleted : Z;
  totalLinesModified : Z;
  prsMerged : Z;
  issuesClosed : Z;
  repositories : list string;
  startDate : string;
  endDate : string
}.

Definition initial (repositoryKeys : list string) (since until : string) : t :=
  {| totalCommits := 0; totalPRs := 0; totalIssues := 0;
     totalLinesAdded := 0; totalLinesDeleted := 0; totalLinesModified := 0;
     prsMerged := 0; issuesClosed := 0; repositories := repositoryKeys;
     startDate := since; endDate := until |}.

Definition addCommits (n : Z) (s : t) : t :=
  {| totalCommits := totalCommits s + n; totalPRs := totalPRs s;
     totalIssues := totalIssues s; totalLinesAdded := totalLinesAdded s;
     totalLinesDeleted := totalLinesDeleted s;
     totalLinesModified := totalLinesModified s; prsMerged := prsMerged s;
     issuesClosed := issuesClosed s; repositories := repositories s;
     startDate := startDate s; endDate := endDate s |}.

Definition addPRs (n merged : Z) (s : t) : t :=
  {| totalCommits := totalCommits s; totalPRs := totalPRs s + n;
     totalIssues := totalIssues s; totalLinesAdded := totalLinesAdded s;
     totalLinesDeleted := totalLinesDeleted s;
     totalLinesModified := totalLinesModified s;
     prsMerged := prsMerged s + merged;
     issuesClosed := issuesClosed s; repositories := repositories s;
     startDate := startDate s; endDate := endDate s |}.

Definition addIssues (n closed : Z) (s : t) : t :=
  {| totalCommits := totalCommits s; totalPRs := totalPRs s;
     totalIssues := totalIssues s + n; totalLinesAdded := totalLinesAdded s;
     totalLinesDeleted := totalLinesDeleted s;
     totalLinesModified := totalLinesModified s; prsMerged := prsMerged s;
     issuesClosed := issuesClosed s + closed; repositories := repositories s;
     startDate := startDate s; endDate := endDate s |}.

Definition addLines (added deleted : Z) (s : t) : t :=
  {| totalCommits := totalCommits s; totalPRs := totalPRs s;
     totalIssues := totalIssues s; totalLinesAdded := totalLinesAdded s + added;
     totalLinesDeleted := totalLinesDeleted s + deleted;
     totalLinesModified := totalLinesModified s + (added + deleted);
     prsMerged := prsMerged s; issuesClosed := issuesClosed s;
     repositories := repositories s;
     startDate := startDate s; endDate := endDate s |}.
End Summary.

(** The report under construction: [contributions]. *)
Record Contributions := {
  summary : Summary.t;
  users : gmap string UserStats.t;
  repositories : gmap string RepositoryStats.t;
  aiAnalysis : option json
}.

Definition updSummary (f : Summary.t -> Summary.t) (c : Contributions)
  : Contributions :=
  {| summary := f (summary c); users := users c;
     repositories := repositories c; aiAnalysis := aiAnalysis c |}.

Definition withUsers
    (f : gmap string UserStats.t -> gmap string UserStats.t)
    (c : Contributions) : Contributions :=
  {| summary := summary c; users := f (users c);
     repositories := repositories c; aiAnalysis := aiAnalysis c |}.

Definition withRepositories
    (f : gmap string RepositoryStats.t -> gmap string RepositoryStats.t)
    (c : Contributions) : Contributions :=
  {| summary := summary c; users := users c;
     repositories := f (repositories c); aiAnalysis := aiAnalysis c |}.

Definition setAiAnalysis (analysis : json) (c : Contributions) : Contributions :=
  {| summary := summary c; users := users c;
     repositories := repositories c; aiAnalysis := Some analysis |}.

(** [contributions.users[author].field ...] *)
Definition updUser (author : string) (f : UserStats.t -> UserStats.t)
    (c : Contributions) : Contributions :=
  withUsers (alter f author) c.

(** [contributions.users[author].repositories[repoKey].field ...] *)
Definition updUserRepo (author repoKey : string)
    (f : UserRepoStats.t -> UserRepoStats.t) (c : Contributions) : Contributions :=
  updUser author (UserStats.withRepositories (alter f repoKey)) c.

(** [contributions.repositories[repoKey].field ...] *)
Definition updRepo (repoKey : string) (f : RepositoryStats.t -> RepositoryStats.t)
    (c : Contributions) : Contributions :=
  withRepositories (alter f repoKey) c.

(** ** The aggregator *)

(** [contributions.users] and the [repositories] of a user are plain
    objects.  Under the name of a member of [Object.prototype] a lookup in
    such an object finds that member, a function (the prototype itself
    under [__proto__]), unless the object has a property of its own under
    the name: the value is truthy and has none of the members the pipeline
    reads.  The maps of the model hold the properties an object has of its
    own. *)
Definition objectPrototypeMembers : list string :=
  [ "constructor"; "__defineGetter__"; "__defineSetter__"; "hasOwnProperty";
    "__lookupGetter__"; "__lookupSetter__"; "isPrototypeOf";
    "propertyIsEnumerable"; "toString"; "valueOf"; "__proto__";
    "toLocaleString" ].

Definition inherited (name : string) : bool :=
  bool_decide (name ∈ objectPrototypeMembers).

Definition hasUser (usersObj : gmap string UserStats.t) (username : string) : bool :=
  match usersObj !! username with
  | Some _ => true
  | None => false
  end.

Definition hasUserRepo (usersObj : gmap string UserStats.t)
    (username repoKey : string) : bool :=
  match usersObj !! username with
  | Some user =>
      match UserStats.repositories user !! repoKey with
      | Some _ => true
      | None => false
      end
  | None => false
  end.

(** [initializeUserStats(usersObj, username)] with its optional third
    argument [repoKey] ([arguments[2]]).  Under an inherited name that is
    no user, [usersObj[username]] is truthy and nothing is created; with a
    [repoKey], [usersObj[username].repositories] is then [undefined] and
    reading [repoKey] in it throws. *)
Definition initializeUserStats (usersObj : gmap string UserStats.t)
    (username : string) (repoKey : option string)
  : Completion (gmap string UserStats.t) :=
  let usersObj :=
    if hasUser usersObj username || inherited username then usersObj
    else <[username := UserStats.zero]> usersObj in
  match repoKey with
  | Some repoKey =>
      if truthyString repoKey
      then
        if hasUser usersObj username
        then
          if hasUserRepo usersObj username repoKey || inherited repoKey
          then Normal usersObj
          else Normal
                 (alter (UserStats.withRepositories <[repoKey := UserRepoStats.zero]>)
                    username usersObj)
        else Throw TypeError
      else Normal usersObj
  | None => Normal usersObj
  end.

(** A configured repository, [{ owner, repo }], both strings. *)
Record RepoConfig := {
  owner : string;
  repo : string
}.

(** [`${owner}/${repo}`] *)
Definition repoKeyOf (config : RepoConfig) : string :=
  owner config +:+ "/" +:+ repo config.

(** What the three fetches of a repository resolve to (none of them
    rejects: each catches its own errors). *)
Record RepoEvents := {
  commitsFetched : list Commit;
  prsFetched : list PullRequest;
  issuesFetched : list Issue
}.

(** A file of a commit's detail: [file.additions] and [file.deletions]. *)
Record FileChange := {
  additions : option Z;
  deletions : option Z
}.

(** [value || fallback] on strings that may be missing. *)
Definition orElse (value : option string) (fallback : string) : string :=
  match value with
  | Some s => if truthyString s then s else fallback
  | None => fallback
  end.

(** [commit.author?.login || commit.commit?.author?.name || 'Unknown'] *)
Definition commitAuthor (commit : Commit) : string :=
  orElse (author_login commit) (orElse (commit_author_name commit) "Unknown").

(** The [Map] from author to events, in order of first appearance. *)
Fixpoint groupInsert {A} (author : string) (x : A)
    (groups : list (string * list A)) : list (string * list A) :=
  match groups with
  | [] => [(author, [x])]
  | (name, xs) :: rest =>
      if String.eqb name author then (name, xs ++ [x]) :: rest
      else (name, xs) :: groupInsert author x rest
  end.

Definition groupByAuthor {A} (authorOf : A -> string) (events : list A)
  : list (string * list A) :=
  foldl (fun groups x => groupInsert (authorOf x) x groups) [] events.

(** [initializeUserStats(contributions.users, author, repoKey)] *)
Definition initializeUsers (author : string) (repoKey : option string)
    (c : Contributions) : Completion Contributions :=
  bindC (initializeUserStats (users c) author repoKey)
    (fun usersObj => Normal (withUsers (fun _ => usersObj) c)).

(** The two guarded calls of [initializeUserStats] that open the
    processing of an author:
    [if (!contributions.users[author]) ..] and
    [if (!contributions.users[author].repositories[repoKey]) ..].
    For an author named like a member of [Object.prototype] the first
    guard finds the member and creates nothing, and the second throws a
    [TypeError], as the member has no [repositories]. *)
Definition ensureUserStats (author repoKey : string) (c : Contributions)
  : Completion Contributions :=
  bindC
    (if hasUser (users c) author || inherited author then Normal c
     else initializeUsers author None c)
    (fun c =>
       if hasUser (users c) author
       then
         if hasUserRepo (users c) author repoKey || inherited repoKey
         then Normal c
         else initializeUsers author (Some repoKey) c
       else Throw TypeError).

(** What [ensureUserStats] leaves under a user's name: the entry that was
    there, or a fresh one, with an entry for the repository. *)
Definition ensured (repoKey : string) (known : option UserStats.t) : UserStats.t :=
  let user := default UserStats.zero known in
  match UserStats.repositories user !! repoKey with
  | Some _ => user
  | None => UserStats.withRepositories <[repoKey := UserRepoStats.zero]> user
  end.

(** The contributions once [ensureUserStats] has completed. *)
Definition ensuredUserStats (author repoKey : string) (c : Contributions)
  : Contributions :=
  withUsers
    (fun usersObj => <[author := ensured repoKey (usersObj !! author)]> usersObj) c.

(** Whether a character occurs in a text. *)
Fixpoint occurs (c : ascii) (text : string) : bool :=
  match text with
  | EmptyString => false
  | String first rest => Ascii.eqb first c || occurs c rest
  end.

Definition sumZ (numbers : list Z) : Z := foldr Z.add 0 numbers.

Section Aggregator.
(** What [fetchCommitsForRepo], [getPullRequests] and [getIssues] resolve
    to for a repository, and what [octokit.repos.getCommit] gives for a
    commit of it ([None] when the call fails; the files of the commit
    otherwise).  The additions of line counts commute, so the model
    performs them with the rest of the repository's processing; the
    [commitDetails] cache only saves calls and is left out.

    That is when the code performs them as long as nothing of the
    repository's processing throws.  When something does (a pull request or
    an issue without a user, an author named like a member of
    [Object.prototype]), the callback of the repository ends at its [catch]
    while calls of [getCommit] may be pending, and their line counts are
    added when they resolve, which may be after the users are scored.  What
    is proved below about line figures either holds at every moment of a
    run, each commit adding the same amounts everywhere at once, or is
    proved for runs in which nothing is abandoned ([NothingAbandoned]). *)
Variable fetched : RepoConfig -> RepoEvents.
Variable getCommit : RepoConfig -> string -> option (list FileChange).

Definition addCommitLines (config : RepoConfig) (author : string)
    (commit : Commit) (c : Contributions) : Contributions :=
  let repoKey := repoKeyOf config in
  match getCommit config (sha commit) with
  | None => c
  | Some files =>
      let commitLinesAdded :=
        sumZ ((fun file => default 0 (additions file)) <$> files) in
      let commitLinesDeleted :=
        sumZ ((fun file => default 0 (deletions file)) <$> files) in
      let c := updUser author
                 (UserStats.addLines commitLinesAdded commitLinesDeleted) c in
      let c := updUserRepo author repoKey
                 (UserRepoStats.addLines commitLinesAdded commitLinesDeleted) c in
      let c := updRepo repoKey
                 (RepositoryStats.addLines commitLinesAdded commitLinesDeleted) c in
      updSummary (Summary.addLines commitLinesAdded commitLinesDeleted) c
  end.

(** The closure of one author of the commits.  When it throws, which it
    does before it has written anything, its promise is rejected and the
    closures of the other authors run all the same. *)
Definition processAuthorCommits (config : RepoConfig) (c : Contributions)
    (entry : string * list Commit) : Contributions :=
  let '(author, authorCommits) := entry in
  let repoKey := repoKeyOf config in
  match ensureUserStats author repoKey c with
  | Throw _ => c
  | Normal c =>
      let c := updUser author (UserStats.addCommits (lengthZ authorCommits)) c in
      let c := updUserRepo author repoKey
                 (UserRepoStats.addCommits (lengthZ authorCommits)) c in
      let c := updRepo repoKey (RepositoryStats.addContributor author) c in
      let commitsToAnalyze :=
        if 20 <? lengthZ authorCommits then take 20 authorCommits
        else authorCommits in
      let commitBatches := chunkArray commitsToAnalyze 5 in
      foldl
        (fun c batch =>
           foldl (fun c commit => addCommitLines config author commit c) c batch)
        c commitBatches
  end.

Definition processCommits (config : RepoConfig) (commits : list Commit)
    (c : Contributions) : Contributions :=
  let repoKey := repoKeyOf config in
  let c := updSummary (Summary.addCommits (lengthZ commits)) c in
  let c := updRepo repoKey (RepositoryStats.setCommits (lengthZ commits)) c in
  if lengthZ commits =? 0 then c
  else foldl (processAuthorCommits config) c (groupByAuthor commitAuthor commits).

Definition processAuthorPRs (config : RepoConfig) (c : Contributions)
    (entry : string * list PullRequest) : Contributions :=
  let '(author, authorPRs) := entry in
  let repoKey := repoKeyOf config in
  match ensureUserStats author repoKey c with
  | Throw _ => c
  | Normal c =>
      let c := updUser author (UserStats.addPRs (lengthZ authorPRs)) c in
      let c := updUserRepo author repoKey
                 (UserRepoStats.addPullRequests (lengthZ authorPRs)) c in
      updRepo repoKey (RepositoryStats.addContributor author) c
  end.

(** [pr.user.login] throws when [user] is [null]; the grouping loop then
    ends the block before any author is processed. *)
Definition processPRs (config : RepoConfig) (prs : list PullRequest)
    (c : Contributions) : Contributions :=
  let repoKey := repoKeyOf config in
  let mergedPRs := List.filter pr_merged prs in
  let c := updSummary (Summary.addPRs (lengthZ prs) (lengthZ mergedPRs)) c in
  let c := updRepo repoKey
             (RepositoryStats.setPullRequests (lengthZ prs) (lengthZ mergedPRs)) c in
  if lengthZ prs =? 0 then c
  else
    match mapM pr_user_login prs with
    | None => c
    | Some _ =>
        foldl (processAuthorPRs config) c
          (groupByAuthor (fun pr => default "" (pr_user_login pr)) prs)
    end.

Definition processAuthorIssues (config : RepoConfig) (c : Contributions)
    (entry : string * list Issue) : Contributions :=
  let '(author, authorIssues) := entry in
  let repoKey := repoKeyOf config in
  match ensureUserStats author repoKey c with
  | Throw _ => c
  | Normal c =>
      let c := updUser author (UserStats.addIssues (lengthZ authorIssues)) c in
      let c := updUserRepo author repoKey
                 (UserRepoStats.addIssues (lengthZ authorIssues)) c in
      updRepo repoKey (RepositoryStats.addContributor author) c
  end.

Definition processIssues (config : RepoConfig) (issues : list Issue)
    (c : Contributions) : Contributions :=
  let repoKey := repoKeyOf config in
  if lengthZ issues =? 0 then c
  else
    let actualIssues :=
      List.filter (fun issue => negb (issue_pull_request issue)) issues in
    let closedIssues :=
      List.filter (fun issue => String.eqb (issue_state issue) "closed")
        actualIssues in
    let c := updSummary
               (Summary.addIssues (lengthZ actualIssues) (lengthZ closedIssues)) c in
    let c := updRepo repoKey
               (RepositoryStats.setIssues (lengthZ actualIssues)
                  (lengthZ closedIssues)) c in
    match mapM issue_user_login actualIssues with
    | None => c
    | Some _ =>
        foldl (processAuthorIssues config) c
          (groupByAuthor (fun issue => default "" (issue_user_login issue))
             actualIssues)
    end.

(** The start of a repository's callback, before its first [await]. *)
Definition initRepository (c : Contributions) (config : RepoConfig)
  : Contributions :=
  withRepositories <[repoKeyOf config := RepositoryStats.zero]> c.

(** The rest of the callback, once the three fetches have resolved. *)
Definition processRepository (c : Contributions) (config : RepoConfig)
  : Contributions :=
  let events := fetched config in
  let c := processCommits config (commitsFetched events) c in
  let c := processPRs config (prsFetched events) c in
  processIssues config (issuesFetched events) c.
End Aggregator.

(** ** The narrative stage *)

(** The two prompts; what is posted with them is a projection of the top
    contributors that the model does not carry. *)
Inductive PromptKind := DetailedPrompt | BasicPrompt.

(** [content.match(/\{[\s\S]*\}/)]: from the first opening brace to the
    last closing brace after it. *)
Fixpoint fromFirstOpen (text : string) : option string :=
  match text with
  | EmptyString => None
  | String c rest =>
      if Ascii.eqb c "{" then Some text else fromFirstOpen rest
  end.

Fixpoint upToLastClose (text : string) : option string :=
  match text with
  | EmptyString => None
  | String c rest =>
      match upToLastClose rest with
      | Some kept => Some (String c kept)
      | None => if Ascii.eqb c "}" then Some (String c EmptyString) else None
      end
  end.

Definition extractJson (content : string) : option string :=
  match fromFirstOpen content with
  | Some (String open rest) => String open <$> upToLastClose rest
  | _ => None
  end.

Definition noContributionsAnalysis : json :=
  JObj
    [ ("summary",
       JStr "No significant contributions found in the analyzed repositories during this period.");
      ("contributors", JObj []) ].

(** [Object.entries(users) .. .sort((a, b) => b.activityScore -
    a.activityScore).slice(0, 5)]; the order among equal scores is that of
    the map's listing. *)
Definition topContributors (usersObj : gmap string UserStats.t)
  : list (string * UserStats.t) :=
  take 5
    (sortStable
       (fun a b => UserStats.activityScore (snd b) - UserStats.activityScore (snd a))
       (map_to_list usersObj)).

(** The keys a [for .. in] visits, each with the value read under it.  On
    a string the values are its characters, which have no
    [codeQualityScore]; they are left out. *)
Definition forInEntries (v : json) : list (string * json) :=
  match v with
  | JObj fields =>
      (fun name => (name, default JNull (lookupField fields name)))
        <$> (fst <$> fields)
  | JArr items => imap (fun index item => (pretty index, item)) items
  | _ => []
  end.

Fixpoint foldC {A B} (step : A -> B -> Completion A) (start : A) (items : list B)
  : Completion A :=
  match items with
  | [] => Normal start
  | item :: rest => bindC (step start item) (fun next => foldC step next rest)
  end.

Section NarrativeStage.
(** The text-generation service: the text of the first content block of
    the response, [None] when the request fails or the response has no
    such text.  The host's [JSON.parse] ([None] when it throws) and the
    host's conversion of a score to a number ([None] for [NaN]). *)
Variable anthropic : PromptKind -> option string.
Variable JSON_parse : string -> option json.
Variable toNumber : json -> option Q.

(** The inner [try] of both analysis functions. *)
Definition requestAnalysis (kind : PromptKind) : option json :=
  match anthropic kind with
  | None => None
  | Some content =>
      match extractJson content with
      | Some text => JSON_parse text
      | None => None
      end
  end.

(** Both analysis functions: the result ([None] for [null]) and the
    requests posted to the service. *)
Definition analysisWith (kind : PromptKind) (env : Env)
    (contributionData : Contributions) : option json * list PromptKind :=
  let contributors := topContributors (users contributionData) in
  if lengthZ contributors =? 0 then (Some noContributionsAnalysis, [])
  else if truthyString (default "" (env !! "ANTHROPIC_API_KEY"))
       then (requestAnalysis kind, [kind])
       else (None, []).

Definition generateDetailedAIAnalysis := analysisWith DetailedPrompt.
Definition generateAIAnalysis := analysisWith BasicPrompt.

(** [convertScoreToGrade(codeQualityScore)] on whatever the document
    holds: every comparison with [NaN] is false. *)
Definition gradeOfScore (score : json) : string :=
  match toNumber score with
  | Some q => convertScoreToGrade q
  | None => "F"
  end.

(** One turn of the loop over [aiAnalysis.contributors].  Under an
    inherited name that is no user, [contributions.users[username]] is a
    member of [Object.prototype]: the entry of the analysis is read all the
    same, and the grade is written to that member, not to the report. *)
Definition gradeFromAnalysis (c : Contributions) (entry : string * json)
  : Completion Contributions :=
  let '(username, analysis) := entry in
  if hasUser (users c) username || inherited username
  then
    bindC (getProp analysis "codeQualityScore") (fun score =>
      match score with
      | Some score =>
          if truthy score
          then Normal (updUser username
                         (UserStats.setCodeQualityGrade (gradeOfScore score)) c)
          else Normal c
      | None => Normal c
      end)
  else Normal c.

(** The last stage of [generateContributionReport]. *)
Definition narrativeStage (env : Env) (c : Contributions)
  : Completion Contributions * list PromptKind :=
  if bool_decide (env !! "SKIP_AI_ANALYSIS" = Some "true") then (Normal c, [])
  else
    let '(aiAnalysis, requests) := generateDetailedAIAnalysis env c in
    match (if truthyOpt aiAnalysis then aiAnalysis else None) with
    | Some analysis =>
        let c := setAiAnalysis analysis c in
        (bindC (getProp analysis "contributors") (fun contributors =>
           match contributors with
           | Some contributors =>
               if truthy contributors
               then foldC gradeFromAnalysis c (forInEntries contributors)
               else Normal c
           | None => Normal c
           end),
         requests)
    | None =>
        (* Fall back to basic analysis if detailed analysis fails *)
        let '(basicAnalysis, more) := generateAIAnalysis env c in
        (Normal
           match (if truthyOpt basicAnalysis then basicAnalysis else None) with
           | Some analysis => setAiAnalysis analysis c
           | None => c
           end,
         requests ++ more)
    end.
End NarrativeStage.

(** ** generateContributionReport *)

Definition primaryRepos : list string := ["arch-network"].

(** [names.indexOf(wanted)], [None] for [-1]. *)
Fixpoint indexOfFrom (names : list string) (wanted : string) (index : Z)
  : option Z :=
  match names with
  | [] => None
  | name :: rest =>
      if String.eqb name wanted then Some index
      else indexOfFrom rest wanted (index + 1)
  end.

Definition compareRepos (a b : RepoConfig) : Z :=
  match indexOfFrom primaryRepos (repo a) 0, indexOfFrom primaryRepos (repo b) 0 with
  | Some aIndex, Some bIndex => aIndex - bIndex
  | Some _, None => -1
  | None, Some _ => 1
  | None, None => 0
  end.

(** [array.slice(0, end)], [None] for an [end] that is [NaN]. *)
Definition sliceTo {A} (array : list A) (end_ : option Z) : list A :=
  match end_ with
  | None => []
  | Some e =>
      if e <? 0 then take (Z.to_nat (lengthZ array + e)) array
      else take (Z.to_nat e) array
  end.

(** The repositories a run processes: all of them in priority order, or
    the first [MAX_REPOS] (3 when unset) in memory-optimized mode. *)
Definition reposToProcess (env : Env) (REPOS : list RepoConfig) : list RepoConfig :=
  let priorityRepos := sortStable compareRepos REPOS in
  if isMemoryOptimized env
  then
    let maxRepos := parseIntDecimal (orElse (env !! "MAX_REPOS") "3") in
    sliceTo priorityRepos maxRepos
  else priorityRepos.

Definition initialContributions (REPOS : list RepoConfig) (since until : string)
  : Contributions :=
  {| summary := Summary.initial (repoKeyOf <$> REPOS) since until;
     users := ∅; repositories := ∅; aiAnalysis := None |}.

(** [activityScore = totalCommits * 3 + totalPRs * 5 + totalIssues * 1]
    and the effort grade that goes with it. *)
Definition scoreUser (user : UserStats.t) : UserStats.t :=
  let activityScore :=
    UserStats.totalCommits user * 3 + UserStats.totalPRs user * 5
    + UserStats.totalIssues user * 1 in
  UserStats.setScores activityScore
    (calculateEffortGrade (UserStats.linesModified user) activityScore) user.

Section Pipeline.
Variable fetched : RepoConfig -> RepoEvents.
Variable getCommit : RepoConfig -> string -> option (list FileChange).
(** The order in which the fetches of a chunk of repositories resolve. *)
Variable completionOrder : list RepoConfig -> list RepoConfig.
Variable anthropic : PromptKind -> option string.
Variable JSON_parse : string -> option json.
Variable toNumber : json -> option Q.

(** One chunk: every callback of the chunk runs up to its first [await],
    then each goes on when its fetches have resolved. *)
Definition processChunk (c : Contributions) (repoChunk : list RepoConfig)
  : Contributions :=
  foldl (processRepository fetched getCommit)
    (foldl initRepository c repoChunk)
    (completionOrder repoChunk).

(** The report before scores are computed. *)
Definition aggregate (env : Env) (REPOS : list RepoConfig) (since until : string)
  : Contributions :=
  let concurrencyLimit := if isMemoryOptimized env then 2%nat else 5%nat in
  let repoChunks := chunkArray (reposToProcess env REPOS) concurrencyLimit in
  foldl processChunk (initialContributions REPOS since until) repoChunks.

(** The report before the narrative stage.  [fetchDetailedContent], run
    unless [SKIP_DETAILED_CONTENT] is ['true'], only attaches [codeContent]
    samples to users, which the model does not carry. *)
Definition scored (env : Env) (REPOS : list RepoConfig) (since until : string)
  : Contributions :=
  withUsers (fmap scoreUser) (aggregate env REPOS since until).

Definition generateContributionReport_run (env : Env) (REPOS : list RepoConfig)
    (since until : string) : Completion Contributions * list PromptKind :=
  narrativeStage anthropic JSON_parse toNumber env (scored env REPOS since until).

Definition generateContributionReport (env : Env) (REPOS : list RepoConfig)
    (since until : string) : Completion Contributions :=
  fst (generateContributionReport_run env REPOS since until).
End Pipeline.

(** The sums of invariant (c). *)
Definition sumOfCommits (repos : gmap string RepositoryStats.t) : Z :=
  map_fold (fun _ stats total => total + RepositoryStats.commits stats) 0 repos.

Definition sumOfPullRequests (repos : gmap string RepositoryStats.t) : Z :=
  map_fold (fun _ stats total => total + RepositoryStats.pullRequests stats) 0 repos.

(** *** The counts the completeness invariant speaks of

    The view of a report that invariant (c) reads: the two totals of the
    summary and, per repository key, the commit and pull-request counts. *)

Definition repoCounts (stats : RepositoryStats.t) : Z * Z :=
  (RepositoryStats.commits stats, RepositoryStats.pullRequests stats).

Definition countsOf (c : Contributions) : Z * Z * gmap string (Z * Z) :=
  (Summary.totalCommits (summary c), Summary.totalPRs (summary c),
   repoCounts <$> repositories c).

Definition sumFst (counts : gmap string (Z * Z)) : Z :=
  map_fold (fun _ pair total => total + pair.1) 0 counts.

Definition sumSnd (counts : gmap string (Z * Z)) : Z :=
  map_fold (fun _ pair total => total + pair.2) 0 counts.

(** The invariant while repositories are processed: the totals are the
    sums; a repository whose callback has started but whose fetches have
    not resolved ([pending]) still has zero counts; no key is in the map
    that is neither done nor pending. *)
Definition CountsInv (done pending : gset string)
    (counts : Z * Z * gmap string (Z * Z)) : Prop :=
  counts.1.1 = sumFst counts.2
  /\ counts.1.2 = sumSnd counts.2
  /\ (forall key, key ∈ pending -> counts.2 !! key = Some (0, 0))
  /\ dom counts.2 ⊆ done ∪ pending.

(** The ways a request for an analysis comes to nothing: the call fails,
    the answer holds no brace-delimited text, or that text is not JSON. *)
Inductive RequestFails (anthropic : PromptKind -> option string)
    (JSON_parse : string -> option json) (kind : PromptKind) : Prop :=
| NetworkError :
    anthropic kind = None -> RequestFails anthropic JSON_parse kind
| NoJsonObject content :
    anthropic kind = Some content -> extractJson content = None ->
    RequestFails anthropic JSON_parse kind
| MalformedJson content text :
    anthropic kind = Some content -> extractJson content = Some text ->
    JSON_parse text = None ->
    RequestFails anthropic JSON_parse kind.

(** The narrative stage is unavailable: no API key, or every request comes
    to nothing. *)
Definition AnalysisUnavailable (anthropic : PromptKind -> option string)
    (JSON_parse : string -> option json) (env : Env) : Prop :=
  env !! "ANTHROPIC_API_KEY" = None
  \/ env !! "ANTHROPIC_API_KEY" = Some ""
  \/ forall kind, RequestFails anthropic JSON_parse kind.

(** ** A small world to run the pipeline in

    Repository [o/a] has three commits (two by [alice], one by an author
    without a login), one pull request and one issue; repository [o/b] has
    nothing.  Every commit touches one file, ten lines added and two
    deleted.  The text-generation service is unreachable. *)

Definition repo_o_a : RepoConfig := {| owner := "o"; repo := "a" |}.
Definition repo_o_b : RepoConfig := {| owner := "o"; repo := "b" |}.

Definition demoFetched (config : RepoConfig) : RepoEvents :=
  if String.eqb (repo config) "a"
  then {| commitsFetched := [commit_c1; commit_c2; commit_c3];
          prsFetched := [pr_p1]; issuesFetched := [issue_i1] |}
  else {| commitsFetched := []; prsFetched := []; issuesFetched := [] |}.

Definition demoGetCommit (config : RepoConfig) (commitSha : string)
  : option (list FileChange) :=
  Some [ {| additions := Some 10; deletions := Some 2 |} ].

Definition inOrder (chunk : list RepoConfig) : list RepoConfig := chunk.

Definition unreachable (kind : PromptKind) : option string := None.

Definition refuseAll (text : string) : option json := None.

Definition numberOf (v : json) : option Q :=
  match v with
  | JNum q => Some q
  | _ => None
  end.

Definition demoReport (env : Env) (REPOS : list RepoConfig) : Completion Contributions :=
  generateContributionReport demoFetched demoGetCommit inOrder unreachable
    refuseAll numberOf env REPOS "since" "until".

Definition demoScored (env : Env) (REPOS : list RepoConfig) : Contributions :=
  scored demoFetched demoGetCommit inOrder env REPOS "since" "until".

(** The JSON text of an object whose [contributors] member lists [alice]
    with [null] where her analysis should be; a service that answers with
    that text in prose; and [JSON.parse] on it. *)
Definition quotationMark : string := String (ascii_of_N 34) EmptyString.

Definition nullEntryText : string :=
  "{" +:+ quotationMark +:+ "contributors" +:+ quotationMark +:+ ": {"
  +:+ quotationMark +:+ "alice" +:+ quotationMark +:+ ": null}}".

Definition answersInProse (kind : PromptKind) : option string :=
  Some ("Here is the analysis you asked for: " +:+ nullEntryText
        +:+ " I hope it helps.").

Definition parseNullEntry (text : string) : option json :=
  if String.eqb text nullEntryText
  then Some (JObj [ ("contributors", JObj [ ("alice", JNull) ]) ])
  else None.

Definition withKey : Env := {[ "ANTHROPIC_API_KEY" := "key" ]}.

(** A week in which one of the two commits of [o/a] is by an author named
    [constructor]. *)
Definition commit_k1 : Commit :=
  {| sha := "k1"; author_login := Some "constructor";
     commit_author_name := None |}.

Definition prototypeFetched (config : RepoConfig) : RepoEvents :=
  if String.eqb (repo config) "a"
  then {| commitsFetched := [commit_c1; commit_k1];
          prsFetched := []; issuesFetched := [] |}
  else {| commitsFetched := []; prsFetched := []; issuesFetched := [] |}.

(** ** Definitions for the further properties *)

Definition smallPages (pageSize : Z) (script : list (Exchange Commit)) : Prop :=
  Forall
    (fun exchange =>
       match outcome exchange with
       | Responded data => lengthZ data <= pageSize
       | Failed _ => True
       end)
    script.

(** What the branch fetch keeps of [MAX_BRANCH_PAGES]: the number of pages
    it may ask for, none when the setting is not a number. *)
Definition pageBudget (maxPages : option Z) : Z :=
  match maxPages with
  | Some maxPages => Z.max 0 maxPages
  | None => 0
  end.

(** The pages a fetch asked for, in order. *)
Definition requestedPages (events : list FetchEvent) : list Z :=
  omap (fun event =>
          match event with
          | Requested _ page => Some page
          | _ => None
          end) events.

Definition isRequest (event : FetchEvent) : bool :=
  match event with
  | Requested _ _ => true
  | _ => false
  end.

(** A failure that [getIssues] answers with exponential backoff: neither
    a dropped connection nor a rate-limit signal with a reset time. *)
Definition backedOffByGetIssues (error : ApiError) : Prop :=
  includes (message error) "socket hang up" = false
  /\ includes (message error) "ECONNRESET" = false
  /\ ((status error =? 403) && includes (message error) "rate limit" = false
      \/ ratelimit_reset error = None).

(** A failure that [fetchCommitsForBranch] answers with exponential
    backoff: anything but a 403 with no quota left. *)
Definition backedOffByBranchFetch (error : ApiError) : Prop :=
  (status error =? 403) && bool_decide (ratelimit_remaining error = Some "0") = false.

Definition pr_early : PullRequest :=
  {| pr_user_login := Some "bob"; pr_created_at := -1; pr_merged := true |}.

Definition issue_late : Issue :=
  {| issue_user_login := Some "bob"; issue_created_at := 11;
     issue_pull_request := false; issue_state := "open" |}.

(** The grades [convertScoreToGrade] can return, best first. *)
Definition qualityGrades : list string :=
  ["A+"; "A"; "A-"; "B+"; "B"; "B-"; "C+"; "C"; "C-"; "D+"; "D"; "F"].

(** The sum of a field over the entries of a dictionary. *)
Definition sumOver {V} (field : V -> Z) (entries : gmap string V) : Z :=
  map_fold (fun _ entry total => total + field entry) 0 entries.

(** ** The updates of the aggregator, one at a time

    Every step of [processRepository] is one of these updates.  An update
    carries what it adds to the gap between the commit, pull-request and
    issue counters of the summary and the sums of the like counters of the
    users.  The updates of a user's figures come after [ensureUserStats]
    has made the user's entry for the repository. *)
Inductive Update : Z -> Z -> Z -> Contributions -> Contributions -> Prop :=
| RepositoryStarted c config :
    Update 0 0 0 c (initRepository c config)
| CommitsCounted c repoKey n :
    0 <= n ->
    Update n 0 0 c
      (updRepo repoKey (RepositoryStats.setCommits n)
         (updSummary (Summary.addCommits n) c))
| PullRequestsCounted c repoKey n merged :
    0 <= merged <= n ->
    Update 0 n 0 c
      (updRepo repoKey (RepositoryStats.setPullRequests n merged)
         (updSummary (Summary.addPRs n merged) c))
| IssuesCounted c repoKey n closed :
    0 <= closed <= n ->
    Update 0 0 n c
      (updRepo repoKey (RepositoryStats.setIssues n closed)
         (updSummary (Summary.addIssues n closed) c))
| UserEnsured c author repoKey :
    truthyString repoKey = true ->
    Update 0 0 0 c (ensuredUserStats author repoKey c)
| UserCommitsCounted c author repoKey n :
    hasUserRepo (users c) author repoKey = true ->
    0 <= n ->
    Update (- n) 0 0 c
      (updRepo repoKey (RepositoryStats.addContributor author)
         (updUserRepo author repoKey (UserRepoStats.addCommits n)
            (updUser author (UserStats.addCommits n) c)))
| UserPullRequestsCounted c author repoKey n :
    hasUserRepo (users c) author repoKey = true ->
    0 <= n ->
    Update 0 (- n) 0 c
      (updRepo repoKey (RepositoryStats.addContributor author)
         (updUserRepo author repoKey (UserRepoStats.addPullRequests n)
            (updUser author (UserStats.addPRs n) c)))
| UserIssuesCounted c author repoKey n :
    hasUserRepo (users c) author repoKey = true ->
    0 <= n ->
    Update 0 0 (- n) c
      (updRepo repoKey (RepositoryStats.addContributor author)
         (updUserRepo author repoKey (UserRepoStats.addIssues n)
            (updUser author (UserStats.addIssues n) c)))
| CommitLinesCounted c getCommit config author commit :
    hasUserRepo (users c) author (repoKeyOf config) = true ->
    Update 0 0 0 c (addCommitLines getCommit config author commit c).

Inductive Updates : Z -> Z -> Z -> Contributions -> Contributions -> Prop :=
| Updates_none c : Updates 0 0 0 c c
| Updates_more dc dp di dc' dp' di' c1 c2 c3 :
    Update dc dp di c1 c2 ->
    Updates dc' dp' di' c2 c3 ->
    Updates (dc + dc') (dp + dp') (di + di') c1 c3.

(** The events of a list that cannot be booked to a user: all of them
    when one has no user, since the grouping loop then throws. *)
Definition unattributed {A} (login : A -> option string) (events : list A) : Z :=
  match mapM login events with
  | Some _ => 0
  | None => lengthZ events
  end.

(** Every pull request and every issue fetched has a user. *)
Definition AuthorsKnown (fetched : RepoConfig -> RepoEvents) : Prop :=
  forall config,
    Forall (fun pr => is_Some (pr_user_login pr)) (prsFetched (fetched config))
    /\ Forall (fun issue => is_Some (issue_user_login issue))
         (issuesFetched (fetched config)).

(** No author of a commit fetched is named like a member of
    [Object.prototype]. *)
Definition OrdinaryCommitAuthors (fetched : RepoConfig -> RepoEvents) : Prop :=
  forall config,
    Forall (fun commit => inherited (commitAuthor commit) = false)
      (commitsFetched (fetched config)).

(** Nor is the user of a pull request or of an issue fetched. *)
Definition OrdinaryReporters (fetched : RepoConfig -> RepoEvents) : Prop :=
  forall config,
    Forall (fun pr => inherited (default "" (pr_user_login pr)) = false)
      (prsFetched (fetched config))
    /\ Forall (fun issue => inherited (default "" (issue_user_login issue)) = false)
         (issuesFetched (fetched config)).

(** Nothing of the processing of a repository throws: every pull request
    and every issue has a user, and no author is named like a member of
    [Object.prototype].  The callback of each repository then ends only
    when all the commit details it asked for have been added, so the line
    figures are complete when the users are scored. *)
Definition NothingAbandoned (fetched : RepoConfig -> RepoEvents) : Prop :=
  AuthorsKnown fetched
  /\ OrdinaryCommitAuthors fetched
  /\ OrdinaryReporters fetched.

(** A run of updates that leaves the commit gap as it was when the authors
    of the commits have ordinary names and, when every pull request and
    issue has a user with an ordinary name, the other two gaps as well; no
    gap gets smaller. *)
Definition Processed (fetched : RepoConfig -> RepoEvents)
    (c c' : Contributions) : Prop :=
  exists dc dp di,
    Updates dc dp di c c'
    /\ (OrdinaryCommitAuthors fetched -> dc = 0)
    /\ (AuthorsKnown fetched -> OrdinaryReporters fetched -> dp = 0 /\ di = 0).

(** The sizes of the groups add up to the number of events grouped. *)
Definition groupedEvents {A} (groups : list (string * list A)) : Z :=
  sumZ ((fun group => lengthZ group.2) <$> groups).

(** The gap between a counter of the summary and the sum of the like
    counter over the users. *)
Definition commitGap (c : Contributions) : Z :=
  Summary.totalCommits (summary c) - sumOver UserStats.totalCommits (users c).

Definition pullRequestGap (c : Contributions) : Z :=
  Summary.totalPRs (summary c) - sumOver UserStats.totalPRs (users c).

Definition issueGap (c : Contributions) : Z :=
  Summary.totalIssues (summary c) - sumOver UserStats.totalIssues (users c).

Definition linesGap (c : Contributions) : Z * Z * Z :=
  (Summary.totalLinesAdded (summary c) - sumOver UserStats.linesAdded (users c),
   Summary.totalLinesDeleted (summary c) - sumOver UserStats.linesDeleted (users c),
   Summary.totalLinesModified (summary c) - sumOver UserStats.linesModified (users c)).

(** A user's six totals, each with the field of the per-repository
    breakdown it is the sum of. *)
Definition balanceFields : list ((UserStats.t -> Z) * (UserRepoStats.t -> Z)) :=
  [ (UserStats.totalCommits, UserRepoStats.commits);
    (UserStats.totalPRs, UserRepoStats.pullRequests);
    (UserStats.totalIssues, UserRepoStats.issues);
    (UserStats.linesAdded, UserRepoStats.linesAdded);
    (UserStats.linesDeleted, UserRepoStats.linesDeleted);
    (UserStats.linesModified, UserRepoStats.linesModified) ].

Definition UserBalanced (user : UserStats.t) : Prop :=
  Forall
    (fun fields : (UserStats.t -> Z) * (UserRepoStats.t -> Z) =>
       fields.1 user = sumOver fields.2 (UserStats.repositories user))
    balanceFields.

Definition AllBalanced (c : Contributions) : Prop :=
  forall username user, users c !! username = Some user -> UserBalanced user.

(** The figures of a user that the aggregator writes. *)
Definition figures (user : UserStats.t)
  : Z * Z * Z * Z * Z * Z * gmap string UserRepoStats.t :=
  (UserStats.totalCommits user, UserStats.totalPRs user,
   UserStats.totalIssues user, UserStats.linesAdded user,
   UserStats.linesDeleted user, UserStats.linesModified user,
   UserStats.repositories user).

(** A report without what the narrative stage writes: [aiAnalysis] and
    the users' [codeQualityGrade]. *)
Definition withoutNarrative (c : Contributions)
  : Summary.t * gmap string UserStats.t * gmap string RepositoryStats.t :=
  (summary c, UserStats.setCodeQualityGrade "N/A" <$> users c, repositories c).

(** A user's three counters are the sums of the per-repository counts. *)
Definition CountsBalanced (user : UserStats.t) : Prop :=
  UserStats.totalCommits user
  = sumOver UserRepoStats.commits (UserStats.repositories user)
  /\ UserStats.totalPRs user
     = sumOver UserRepoStats.pullRequests (UserStats.repositories user)
  /\ UserStats.totalIssues user
     = sumOver UserRepoStats.issues (UserStats.repositories user).

(** A user's three line totals are the sums of the per-repository ones. *)
Definition LinesBalanced (user : UserStats.t) : Prop :=
  UserStats.linesAdded user
  = sumOver UserRepoStats.linesAdded (UserStats.repositories user)
  /\ UserStats.linesDeleted user
     = sumOver UserRepoStats.linesDeleted (UserStats.repositories user)
  /\ UserStats.linesModified user
     = sumOver UserRepoStats.linesModified (UserStats.repositories user).

(** ** What is sound in a report: counters that cannot be negative, parts
    that cannot exceed their wholes, and lines modified that are lines
    added plus lines deleted. *)

Definition SummarySound (s : Summary.t) : Prop :=
  0 <= Summary.totalCommits s
  /\ 0 <= Summary.prsMerged s <= Summary.totalPRs s
  /\ 0 <= Summary.issuesClosed s <= Summary.totalIssues s
  /\ Summary.totalLinesModified s
     = Summary.totalLinesAdded s + Summary.totalLinesDeleted s.

Definition RepositorySound (stats : RepositoryStats.t) : Prop :=
  0 <= RepositoryStats.commits stats
  /\ 0 <= RepositoryStats.prsMerged stats <= RepositoryStats.pullRequests stats
  /\ 0 <= RepositoryStats.issuesClosed stats <= RepositoryStats.issues stats
  /\ RepositoryStats.linesModified stats
     = RepositoryStats.linesAdded stats + RepositoryStats.linesDeleted stats.

Definition EntrySound (entry : UserRepoStats.t) : Prop :=
  0 <= UserRepoStats.commits entry
  /\ 0 <= UserRepoStats.pullRequests entry
  /\ 0 <= UserRepoStats.issues entry
  /\ UserRepoStats.linesModified entry
     = UserRepoStats.linesAdded entry + UserRepoStats.linesDeleted entry.

Definition UserSound (user : UserStats.t) : Prop :=
  0 <= UserStats.totalCommits user
  /\ 0 <= UserStats.totalPRs user
  /\ 0 <= UserStats.totalIssues user
  /\ UserStats.linesModified user
     = UserStats.linesAdded user + UserStats.linesDeleted user
  /\ map_Forall (fun _ entry => EntrySound entry) (UserStats.repositories user).

Definition Sound (c : Contributions) : Prop :=
  SummarySound (summary c)
  /\ map_Forall (fun _ user => UserSound user) (users c)
  /\ map_Forall (fun _ stats => RepositorySound stats) (repositories c).

(** The contributors of a repository are listed once each, and each has
    an entry for the repository in the user's breakdown. *)
Definition ContributorsSound (c : Contributions) : Prop :=
  forall repoKey stats,
    repositories c !! repoKey = Some stats ->
    NoDup (RepositoryStats.contributors stats)
    /\ forall author,
         author ∈ RepositoryStats.contributors stats ->
         hasUserRepo (users c) author repoKey = true.

(** The counters of a repository entry are not negative, and the merged
    pull requests and closed issues are among those counted. *)
Definition RepositoryCountsSound (stats : RepositoryStats.t) : Prop :=
  0 <= RepositoryStats.commits stats
  /\ 0 <= RepositoryStats.prsMerged stats <= RepositoryStats.pullRequests stats
  /\ 0 <= RepositoryStats.issuesClosed stats <= RepositoryStats.issues stats.

(** The contributors of a repository entry, each listed once and each a
    user of the report with an entry for the repository. *)
Definition ContributorsListed (usersObj : gmap string UserStats.t)
    (repoKey : string) (stats : RepositoryStats.t) : Prop :=
  NoDup (RepositoryStats.contributors stats)
  /\ Forall (fun author => hasUserRepo usersObj author repoKey = true)
       (RepositoryStats.contributors stats).

(** Lines modified are lines added plus lines deleted, in a user's totals
    and in each entry of the user's breakdown. *)
Definition UserLinesSound (user : UserStats.t) : Prop :=
  UserStats.linesModified user
  = UserStats.linesAdded user + UserStats.linesDeleted user
  /\ map_Forall
       (fun _ entry =>
          UserRepoStats.linesModified entry
          = UserRepoStats.linesAdded entry + UserRepoStats.linesDeleted entry)
       (UserStats.repositories user).

(** The scores of a user are those of the user's counters. *)
Definition UserScored (user : UserStats.t) : Prop :=
  UserStats.activityScore user
  = UserStats.totalCommits user * 3 + UserStats.totalPRs user * 5
    + UserStats.totalIssues user * 1
  /\ UserStats.effortGrade user
     = calculateEffortGrade (UserStats.linesModified user)
         (UserStats.activityScore user).

(** A quality grade a report can show: none yet, or one of the twelve. *)
Definition QualityGradeValid (user : UserStats.t) : Prop :=
  UserStats.codeQualityGrade user = "N/A"
  \/ UserStats.codeQualityGrade user ∈ qualityGrades.

(** A service that answers, with a document that scores [alice]. *)
Definition answering (kind : PromptKind) : option string :=
  Some "Here is the analysis: {..}".

Definition parseScores (text : string) : option json :=
  Some (JObj
          [ ("summary", JStr "A productive week.");
            ("contributors",
             JObj [ ("alice", JObj [("codeQualityScore", JNum (92 # 10))]);
                    ("nobody", JObj [("codeQualityScore", JNum (50 # 10))]) ]) ]).

Definition withApiKey : Env := {[ "ANTHROPIC_API_KEY" := "key" ]}.

Definition gradedReport : Completion Contributions :=
  generateContributionReport demoFetched demoGetCommit inOrder answering
    parseScores numberOf withApiKey [repo_o_a; repo_o_b] "since" "until".

(** The report of the graded run, as the run computes it. *)
Definition gradedContributions : Contributions :=
  match gradedReport with
  | Normal report => report
  | Throw _ => demoScored withApiKey [repo_o_a; repo_o_b]
  end.

Definition AllGradesValid (c : Contributions) : Prop :=
  map_Forall (fun _ user => QualityGradeValid user) (users c).

Definition AllUngraded (c : Contributions) : Prop :=
  map_Forall (fun _ user => UserStats.codeQualityGrade user = "N/A") (users c).

(** The five counters of a repository entry. *)
Definition repoTally (stats : RepositoryStats.t) : Z * Z * Z * Z * Z :=
  (RepositoryStats.commits stats, RepositoryStats.pullRequests stats,
   RepositoryStats.prsMerged stats, RepositoryStats.issues stats,
   RepositoryStats.issuesClosed stats).

Definition repoTallies (c : Contributions) : gmap string (Z * Z * Z * Z * Z) :=
  repoTally <$> repositories c.

(** The five counters that the events fetched for a repository amount to:
    commits, pull requests, merged pull requests, issues that are not pull
    requests, and the closed ones among these. *)
Definition fetchedTally (events : RepoEvents) : Z * Z * Z * Z * Z :=
  let actualIssues :=
    List.filter (fun issue => negb (issue_pull_request issue)) (issuesFetched events) in
  (lengthZ (commitsFetched events),
   lengthZ (prsFetched events),
   lengthZ (List.filter pr_merged (prsFetched events)),
   lengthZ actualIssues,
   lengthZ (List.filter (fun issue => String.eqb (issue_state issue) "closed")
              actualIssues)).

(** While repositories are processed: the entry of a repository that is
    done holds what was fetched for it, the entry of one whose fetches are
    pending holds zeros, and there are no other entries. *)
Definition TalliesInv (expected : string -> Z * Z * Z * Z * Z)
    (done pending : gset string) (tallies : gmap string (Z * Z * Z * Z * Z)) : Prop :=
  (forall key, key ∈ done -> tallies !! key = Some (expected key))
  /\ (forall key, key ∈ pending -> tallies !! key = Some (0, 0, 0, 0, 0))
  /\ dom tallies = done ∪ pending.

(** What was fetched for the repository of a key, among the repositories
    of a list. *)
Fixpoint expectedTally (fetched : RepoConfig -> RepoEvents)
    (configs : list RepoConfig) (key : string) : Z * Z * Z * Z * Z :=
  match configs with
  | [] => (0, 0, 0, 0, 0)
  | config :: rest =>
      if String.eqb (repoKeyOf config) key then fetchedTally (fetched config)
      else expectedTally fetched rest key
  end.

(** ** The report on one user

    [generateUserContributionReport(username)] asks the search API, for
    each configured repository in turn, for the user's commits, pull
    requests and issues, keeps those dated inside the period, and lists the
    repositories where something is left. *)

(** The date of a commit of a search result: reading
    [commit.commit.author.date] throws when [commit.commit] or its [author]
    is missing; otherwise [new Date(..)] is a time or an invalid date
    ([None]), which compares false with everything. *)
Inductive CommitDate :=
| Unreadable
| DateOf (time : option Z).

(** What the three searches for a user in a repository resolve to (each
    catches its own errors and then resolves to []): the dates of the
    commits, and the [created_at] dates of the pull requests and of the
    issues. *)
Record UserSearch := {
  commitsFound : list CommitDate;
  prsFound : list (option Z);
  issuesFound : list (option Z)
}.

(** An element of [userContributions.repositories]. *)
Record UserRepoLine := {
  line_name : string;
  line_commits : Z;
  line_pullRequests : Z;
  line_issues : Z
}.

(** [userContributions]: [username], [repositories], [period] and
    [summary]. *)
Record UserContributions := {
  uc_username : string;
  uc_repositories : list UserRepoLine;
  uc_startDate : string;
  uc_endDate : string;
  uc_totalCommits : Z;
  uc_totalPRs : Z;
  uc_totalIssues : Z
}.

(** [date >= startDate && date <= endDate] *)
Definition withinPeriod (startDate endDate : Z) (date : option Z) : bool :=
  match date with
  | Some time => (startDate <=? time) && (time <=? endDate)
  | None => false
  end.

(** [commits.filter(commit => ..)]: the callback throws at the first
    commit whose date cannot be read. *)
Fixpoint filterCommitDates (startDate endDate : Z) (commits : list CommitDate)
  : Completion (list (option Z)) :=
  match commits with
  | [] => Normal []
  | Unreadable :: _ => Throw TypeError
  | DateOf date :: rest =>
      bindC (filterCommitDates startDate endDate rest) (fun kept =>
        Normal (if withinPeriod startDate endDate date then date :: kept else kept))
  end.

Definition initialUserContributions (username since until : string)
  : UserContributions :=
  {| uc_username := username; uc_repositories := [];
     uc_startDate := since; uc_endDate := until;
     uc_totalCommits := 0; uc_totalPRs := 0; uc_totalIssues := 0 |}.

Section GenerateUserContributionReport.
(** The host's [JSON.parse]; the text a template literal puts for a value
    ([undefined] for a missing member); and the search API, asked with
    [repo.owner], [repo.name] and the user's name. *)
Variable JSON_parse : string -> option json.
Variable display : option json -> string.
Variable search : option json -> option json -> string -> UserSearch.

(** The body of the loop: the [try] block, and a [catch] that only logs. *)
Definition addUserRepository (startDate endDate : Z) (username : string)
    (userContributions : UserContributions) (repo : json) : UserContributions :=
  match
    bindC (getProp repo "owner") (fun owner =>
    bindC (getProp repo "name") (fun name =>
      let found := search owner name username in
      bindC (filterCommitDates startDate endDate (commitsFound found))
        (fun filteredCommits =>
           let filteredPRs :=
             List.filter (withinPeriod startDate endDate) (prsFound found) in
           let filteredIssues :=
             List.filter (withinPeriod startDate endDate) (issuesFound found) in
           if (lengthZ filteredCommits >? 0) || (lengthZ filteredPRs >? 0)
              || (lengthZ filteredIssues >? 0)
           then
             Normal
               {| uc_username := uc_username userContributions;
                  uc_repositories :=
                    uc_repositories userContributions
                      ++ [ {| line_name := display owner +:+ "/" +:+ display name;
                              line_commits := lengthZ filteredCommits;
                              line_pullRequests := lengthZ filteredPRs;
                              line_issues := lengthZ filteredIssues |} ];
                  uc_startDate := uc_startDate userContributions;
                  uc_endDate := uc_endDate userContributions;
                  uc_totalCommits :=
                    uc_totalCommits userContributions + lengthZ filteredCommits;
                  uc_totalPRs :=
                    uc_totalPRs userContributions + lengthZ filteredPRs;
                  uc_totalIssues :=
                    uc_totalIssues userContributions + lengthZ filteredIssues |}
           else Normal userContributions)))
  with
  | Normal updated => updated
  | Throw _ => userContributions
  end.

(** [startDate] and [endDate] are the two [new Date()] of the function,
    the first moved seven days back; [since] and [until] are their ISO
    strings. *)
Definition generateUserContributionReport (env : Env) (username : string)
    (since until : string) (startDate endDate : Z)
  : Completion UserContributions :=
  bindC (parseRepositories JSON_parse env) (fun repositories =>
    Normal
      (foldl (addUserRepository startDate endDate username)
         (initialUserContributions username since until) repositories)).
End GenerateUserContributionReport.


(** A week in which [alice] has a commit and an issue in the first
    repository, a malformed commit in the second, and nothing in the
    others. *)
Definition demoSearch (owner name : option json) (username : string) : UserSearch :=
  match name with
  | Some (JStr "one") =>
      {| commitsFound := [DateOf (Some 5); DateOf (Some 50); DateOf None];
         prsFound := [None]; issuesFound := [Some 7] |}
  | Some (JStr "two") =>
      {| commitsFound := [DateOf (Some 5); Unreadable];
         prsFound := [Some 5]; issuesFound := [] |}
  | _ => {| commitsFound := []; prsFound := []; issuesFound := [] |}
  end.

(** A display for strings and whole numbers. *)
Definition demoDisplay (value : option json) : string :=
  match value with
  | Some (JStr text) => text
  | Some (JNum q) => pretty (Qnum q)
  | _ => "undefined"
  end.

Definition demoRepositories (text : string) : option json :=
  Some (JArr
          [ JObj [("owner", JStr "o"); ("repo", JStr "r1"); ("name", JStr "one")];
            JObj [("owner", JStr "o"); ("repo", JStr "r2"); ("name", JStr "two")];
            JObj [("owner", JStr "o"); ("repo", JStr "r3")] ]).

Definition demoUserReport : Completion UserContributions :=
  generateUserContributionReport demoRepositories demoDisplay demoSearch
    {[ "GITHUB_REPOS" := "[..]" ]} "alice" "since" "until" 0 10.

(** ** formatUserReport and generateAndSendUserReport *)

(** The object that [generateUserContributionReport] returns, with its
    own members: [username], [repositories], [period] and [summary]. *)
Definition userRepoLineObject (line : UserRepoLine) : json :=
  JObj [ ("name", JStr (line_name line));
         ("commits", JNum (inject_Z (line_commits line)));
         ("pullRequests", JNum (inject_Z (line_pullRequests line)));
         ("issues", JNum (inject_Z (line_issues line))) ].

Definition userContributionsObject (report : UserContributions) : json :=
  JObj [ ("username", JStr (uc_username report));
         ("repositories", JArr (userRepoLineObject <$> uc_repositories report));
         ("period",
          JObj [ ("startDate", JStr (uc_startDate report));
                 ("endDate", JStr (uc_endDate report)) ]);
         ("summary",
          JObj [ ("totalCommits", JNum (inject_Z (uc_totalCommits report)));
                 ("totalPRs", JNum (inject_Z (uc_totalPRs report)));
                 ("totalIssues", JNum (inject_Z (uc_totalIssues report))) ]) ].

(** [value.name] where [value] may be [undefined]: a [TypeError] then. *)
Definition getMember (value : option json) (name : string)
  : Completion (option json) :=
  match value with
  | Some value => getProp value name
  | None => Throw TypeError
  end.

Definition newline : string := String "010"%char EmptyString.

(** The bullet that opens a line of the text, in UTF-8. *)
Definition bullet : string :=
  String "226"%char (String "128"%char (String "162"%char EmptyString)).

(** [Object.entries(value)] *)
Definition objectEntries (value : option json) : Completion (list (string * json)) :=
  match value with
  | None | Some JNull => Throw TypeError
  | Some (JObj fields) =>
      Normal ((fun name => (name, default JNull (lookupField fields name)))
                <$> (fst <$> fields))
  | Some (JArr items) => Normal (imap (fun index item => (pretty index, item)) items)
  | Some (JStr text) =>
      Normal (imap (fun index c => (pretty index, JStr (String c EmptyString)))
                (list_ascii_of_string text))
  | Some _ => Normal []
  end.

Section FormatUserReport.
(** The text a template literal puts for a value; the host's conversion
    to a number ([None] for [NaN]); and
    [new Date(value).toLocaleDateString()]. *)
Variable display : option json -> string.
Variable toNumber : json -> option Q.
Variable toLocaleDateString : option json -> string.

(** [value > 0] *)
Definition isPositive (value : option json) : bool :=
  match value with
  | Some value =>
      match toNumber value with
      | Some q => negb (Qle_bool q 0)
      | None => false
      end
  | None => false
  end.

(** One round of the loop over [Object.entries(data.repositories)]. *)
Definition formatRepositoryLine (text : string) (entry : string * json)
  : Completion string :=
  let '(repo, stats) := entry in
  bindC (getProp stats "commits") (fun commits =>
  bindC (if isPositive commits then Normal None
         else getProp stats "pullRequests") (fun pullRequests =>
  bindC (if isPositive commits || isPositive pullRequests then Normal None
         else getProp stats "issues") (fun issues =>
    if isPositive commits || isPositive pullRequests || isPositive issues
    then
      bindC (getProp stats "commits") (fun commits =>
      bindC (getProp stats "pullRequests") (fun pullRequests =>
      bindC (getProp stats "issues") (fun issues =>
      bindC (getProp stats "linesAdded") (fun linesAdded =>
      bindC (getProp stats "linesModified") (fun linesModified =>
        Normal
          (text +:+ bullet +:+ " *" +:+ repo +:+ "*" +:+ newline
           +:+ "  Commits: " +:+ display commits
           +:+ " | PRs: " +:+ display pullRequests
           +:+ " | Issues: " +:+ display issues
           +:+ " | Lines: " +:+ display linesAdded +:+ "/"
           +:+ display linesModified +:+ newline))))))
    else Normal text))).

Definition formatUserReport (userReport : json) : Completion string :=
  bindC (getProp userReport "user") (fun user =>
  bindC (getProp userReport "data") (fun data =>
  bindC (getProp userReport "period") (fun period =>
  bindC (getMember period "startDate") (fun startDate =>
  let formattedStartDate := toLocaleDateString startDate in
  bindC (getMember period "endDate") (fun endDate =>
  let formattedEndDate := toLocaleDateString endDate in
  let text := "*GitHub Contributions for " +:+ display user +:+ "*" +:+ newline in
  let text :=
    text +:+ "*Period:* " +:+ formattedStartDate +:+ " to " +:+ formattedEndDate
    +:+ newline +:+ newline in
  let text := text +:+ "*Summary:*" +:+ newline in
  bindC (getMember data "totalCommits") (fun totalCommits =>
  let text :=
    text +:+ bullet +:+ " Total Commits: " +:+ display totalCommits +:+ newline in
  bindC (getMember data "totalPRs") (fun totalPRs =>
  let text :=
    text +:+ bullet +:+ " Total Pull Requests: " +:+ display totalPRs
    +:+ newline in
  bindC (getMember data "totalIssues") (fun totalIssues =>
  let text :=
    text +:+ bullet +:+ " Total Issues: " +:+ display totalIssues +:+ newline in
  bindC (getMember data "linesAdded") (fun linesAdded =>
  let text :=
    text +:+ bullet +:+ " Lines Added: " +:+ display linesAdded +:+ newline in
  bindC (getMember data "linesModified") (fun linesModified =>
  let text :=
    text +:+ bullet +:+ " Lines Modified: " +:+ display linesModified
    +:+ newline in
  bindC (getMember data "codeQualityGrade") (fun codeQualityGrade =>
  let text :=
    text +:+ bullet +:+ " Code Quality Grade: " +:+ display codeQualityGrade
    +:+ newline in
  bindC (getMember data "effortGrade") (fun effortGrade =>
  let text :=
    text +:+ bullet +:+ " Effort Grade: " +:+ display effortGrade +:+ newline in
  bindC (getMember data "activityScore") (fun activityScore =>
  let text :=
    text +:+ bullet +:+ " Activity Score: " +:+ display activityScore
    +:+ newline +:+ newline in
  let text := text +:+ "*Contributions by Repository:*" +:+ newline in
  bindC (getMember data "repositories") (fun repositories =>
  bindC (objectEntries repositories) (fun entries =>
    foldC formatRepositoryLine text entries))))))))))))))).
End FormatUserReport.

(** A call of the Slack client that [generateAndSendUserReport] makes. *)
Inductive UserReportCall :=
| PostReport (text : string)       (* the report, as a direct message *)
| RespondWithReport (text : string) (* the report, through [respond] *)
| PostFailureNotice.               (* 'An error occurred while generating ..' *)

Section GenerateAndSendUserReport.
Variable display : option json -> string.
Variable toNumber : json -> option Q.
Variable toLocaleDateString : option json -> string.
(** What [generateUserContributionReport(username)] gives, and how the
    three calls of the Slack client end. *)
Variable report : Completion UserContributions.
Variable postReport respondWithReport postFailureNotice : Completion unit.

(** The calls made, in order, and how the function completes. *)
Definition generateAndSendUserReport : list UserReportCall * Completion unit :=
  let failed (calls : list UserReportCall) :=
    (calls ++ [PostFailureNotice],
     tryCatch postFailureNotice (fun notifyError => Normal ())) in
  match
    bindC report (fun report =>
      formatUserReport display toNumber toLocaleDateString
        (userContributionsObject report))
  with
  | Throw _ => failed []
  | Normal formattedReport =>
      match postReport with
      | Normal _ => ([PostReport formattedReport], Normal ())
      | Throw _ =>
          match respondWithReport with
          | Normal _ =>
              ([PostReport formattedReport; RespondWithReport formattedReport],
               Normal ())
          | Throw _ =>
              failed [PostReport formattedReport; RespondWithReport formattedReport]
          end
      end
  end.
End GenerateAndSendUserReport.

(** The comparator of the two analysis functions:
    [(a, b) => b.activityScore - a.activityScore]. *)
Definition byActivityScore (a b : string * UserStats.t) : Z :=
  UserStats.activityScore (snd b) - UserStats.activityScore (snd a).

(** Listed from the highest activity score down. *)
Definition ScoresDescend (entries : list (string * UserStats.t)) : Prop :=
  StronglySorted
    (fun a b => UserStats.activityScore (snd b) <= UserStats.activityScore (snd a))
    entries.

(** Whether a repository is one of [primaryRepos]. *)
Definition isPrimaryRepo (config : RepoConfig) : bool :=
  bool_decide (repo config ∈ primaryRepos).

(** No repository that is not primary comes before a primary one. *)
Definition PrimaryFirst (configs : list RepoConfig) : Prop :=
  StronglySorted
    (fun a b => isPrimaryRepo b = true -> isPrimaryRepo a = true) configs.

(** The requests the narrative stage posts to the text-generation service. *)
Definition narrativeRequests (anthropic : PromptKind -> option string)
    (JSON_parse : string -> option json) (toNumber : json -> option Q)
    (env : Env) (c : Contributions) : list PromptKind :=
  (narrativeStage anthropic JSON_parse toNumber env c).2.

(** The stage has something to ask and may ask it: it is not skipped, some
    user is recorded and the API key is set. *)
Definition narrativeEnabled (env : Env) (c : Contributions) : Prop :=
  env !! "SKIP_AI_ANALYSIS" <> Some "true"
  /\ users c <> ∅
  /\ truthyString (default "" (env !! "ANTHROPIC_API_KEY")) = true.

(** ** sanitizeToken *)

(** Strings as their UTF-16 code units, with the string methods
    [sanitizeToken] calls. *)
Module JsString.
Definition t := list Z.

(** [WhiteSpace] and [LineTerminator] code points, which [trim] strips. *)
Definition isWhiteSpace (unit : Z) : bool :=
  bool_decide
    (unit ∈ [0x9; 0xA; 0xB; 0xC; 0xD; 0x20; 0xA0; 0x1680; 0x2028; 0x2029;
             0x202F; 0x205F; 0x3000; 0xFEFF])
  || (0x2000 <=? unit) && (unit <=? 0x200A).

Fixpoint trimStart (s : t) : t :=
  match s with
  | unit :: rest => if isWhiteSpace unit then trimStart rest else s
  | [] => []
  end.

Definition trimEnd (s : t) : t := rev (trimStart (rev s)).

Definition trim (s : t) : t := trimEnd (trimStart s).

(** [s.startsWith(c)] and [s.endsWith(c)] for a one-unit string [c]. *)
Definition startsWith (s : t) (unit : Z) : bool :=
  match s with
  | first :: _ => first =? unit
  | [] => false
  end.

Definition endsWith (s : t) (unit : Z) : bool :=
  match last s with
  | Some final => final =? unit
  | None => false
  end.

(** [s.substring(start, end)]: both ends are clamped to the string and
    swapped when [start] is the larger. *)
Definition substring (s : t) (start end_ : Z) : t :=
  let len := lengthZ s in
  let finalStart := Z.min (Z.max start 0) len in
  let finalEnd := Z.min (Z.max end_ 0) len in
  let from := Z.min finalStart finalEnd in
  let to := Z.max finalStart finalEnd in
  take (Z.to_nat (to - from)) (drop (Z.to_nat from) s).

Definition includes (s : t) (unit : Z) : bool := existsb (Z.eqb unit) s.

(** [s.replace(/[class]/g, '')] and [s.replace(/[class]/, '')]. *)
Definition removeAll (class : Z -> bool) (s : t) : t :=
  List.filter (fun unit => negb (class unit)) s.

Fixpoint removeFirst (class : Z -> bool) (s : t) : t :=
  match s with
  | unit :: rest => if class unit then rest else unit :: removeFirst class rest
  | [] => []
  end.

(** [/[class]/.test(s)] *)
Definition test (class : Z -> bool) (s : t) : bool := existsb class s.
End JsString.

Definition doubleQuote : Z := 0x22.
Definition singleQuote : Z := 0x27.

(** [/[\n\r]/] *)
Definition isNewline (unit : Z) : bool := (unit =? 0xA) || (unit =? 0xD).

(** [/[\x00-\x1F\x7F]/] *)
Definition isControl (unit : Z) : bool :=
  (0x00 <=? unit) && (unit <=? 0x1F) || (unit =? 0x7F).

(** [/[^\t\x20-\x7E\x80-\xFF]/] *)
Definition invalidHeaderChars (unit : Z) : bool :=
  negb ((unit =? 0x9)
        || (0x20 <=? unit) && (unit <=? 0x7E)
        || (0x80 <=? unit) && (unit <=? 0xFF)).

(** [sanitizeToken(token)], [None] for [undefined]; the warnings it logs
    are left out. *)
Definition sanitizeToken (token : option JsString.t) : option JsString.t :=
  match token with
  | None => None
  | Some token =>
      if lengthZ token =? 0 then None else
      let sanitized := JsString.trim token in
      let sanitized :=
        if JsString.startsWith sanitized doubleQuote
             && JsString.endsWith sanitized doubleQuote
           || JsString.startsWith sanitized singleQuote
                && JsString.endsWith sanitized singleQuote
        then JsString.substring sanitized 1 (lengthZ sanitized - 1)
        else sanitized in
      let sanitized :=
        if JsString.includes sanitized 0xA || JsString.includes sanitized 0xD
        then JsString.removeAll isNewline sanitized
        else sanitized in
      let sanitized := JsString.removeAll isControl sanitized in
      if lengthZ sanitized =? 0 then None
      else
        Some (if JsString.test invalidHeaderChars sanitized
              then JsString.removeFirst invalidHeaderChars sanitized
              else sanitized)
  end.

(** A visible ASCII character: neither blank nor a control character. *)
Definition isVisibleAscii (unit : Z) : Prop := 0x21 <= unit <= 0x7E.

(** [s] is enclosed in a pair of double or of single quotes. *)
Definition isQuoted (s : JsString.t) : bool :=
  JsString.startsWith s doubleQuote && JsString.endsWith s doubleQuote
  || JsString.startsWith s singleQuote && JsString.endsWith s singleQuote.

(** [s] holds the code units [u1] and [u2], [u1] before [u2]. *)
Definition HoldsInOrder (u1 u2 : Z) (s : JsString.t) : Prop :=
  exists a b c, s = a ++ u1 :: b ++ u2 :: c.

(** * Part II: properties *)

(** ** The scoring engine *)

Example calculateEffortGrade_1001_0 : calculateEffortGrade 1001 0 = "A+".
Proof. reflexivity. Qed.

Example calculateEffortGrade_0_0 : calculateEffortGrade 0 0 = "D".
Proof. reflexivity. Qed.

Example convertScoreToGrade_9_5 : convertScoreToGrade (95 # 10) = "A+".
Proof. reflexivity. Qed.

Example convertScoreToGrade_3_9 : convertScoreToGrade (39 # 10) = "F".
Proof. reflexivity. Qed.

(** One step through the band ladder: decide the two comparisons of the
    outermost band and drop the branches that cannot be taken. *)
Ltac band_step :=
  match goal with
  | |- context [if (?x >? ?y) || (?u >? ?v) then _ else _] =>
      destruct (Z.gtb_spec x y); cbn [orb];
      [ | destruct (Z.gtb_spec u v); cbn [orb] ]
  | H : context [if (?x >? ?y) || (?u >? ?v) then _ else _] |- _ =>
      destruct (Z.gtb_spec x y); cbn [orb] in H;
      [ | destruct (Z.gtb_spec u v); cbn [orb] in H ]
  end.

Lemma calculateEffortGrade_table linesModified activityScore :
  calculateEffortGrade linesModified activityScore
  = firstMatchingBand effortBands linesModified activityScore "D".
Proof. reflexivity. Qed.

Lemma calculateEffortGrade_in_grades linesModified activityScore :
  calculateEffortGrade linesModified activityScore ∈ effortGrades.
Proof.
  unfold calculateEffortGrade, effortGrades; cbn.
  repeat band_step; set_solver.
Qed.

Lemma calculateEffortGrade_monotone l a l' a' :
  l <= l' -> a <= a' ->
  (gradePosition (calculateEffortGrade l' a')
   <= gradePosition (calculateEffortGrade l a))%nat.
Proof.
  intros Hl Ha. unfold calculateEffortGrade.
  repeat band_step; try lia; cbv; lia.
Qed.

Lemma effortGrades_reached grade :
  grade ∈ effortGrades -> exists l a, calculateEffortGrade l a = grade.
Proof.
  unfold effortGrades; cbn. intros Hin.
  repeat (apply elem_of_cons in Hin as [-> | Hin]).
  - by exists 1001, 0.
  - by exists 751, 0.
  - by exists 501, 0.
  - by exists 301, 0.
  - by exists 201, 0.
  - by exists 101, 0.
  - by exists 51, 0.
  - by exists 26, 0.
  - by exists 11, 0.
  - by exists 0, 0.
  - by apply elem_of_nil in Hin.
Qed.

Lemma effortGrades_NoDup : NoDup effortGrades.
Proof. apply (bool_decide_unpack _). by vm_compute. Qed.

(** C6, as amended: [calculateEffortGrade] is the first-match-wins reading
    of the band table (a band is entered when the lines-modified threshold
    or the activity-score threshold is exceeded, bands checked highest
    first), it is monotonic in both arguments, and its values are exactly
    the ten grades A+, A, A-, B+, B, B-, C+, C, C-, D; in particular
    (1001, 0) gives A+ and (0, 0) gives D. *)
Theorem calculateEffortGrade_step_function :
  (forall l a,
      calculateEffortGrade l a = firstMatchingBand effortBands l a "D")
  /\ (forall l a l' a',
         l <= l' -> a <= a' ->
         (gradePosition (calculateEffortGrade l' a')
          <= gradePosition (calculateEffortGrade l a))%nat)
  /\ (forall grade,
         grade ∈ effortGrades <-> exists l a, calculateEffortGrade l a = grade)
  /\ effortGrades = ["A+"; "A"; "A-"; "B+"; "B"; "B-"; "C+"; "C"; "C-"; "D"]
  /\ NoDup effortGrades
  /\ calculateEffortGrade 1001 0 = "A+"
  /\ calculateEffortGrade 0 0 = "D".
Proof.
  split; [exact calculateEffortGrade_table |].
  split; [exact calculateEffortGrade_monotone |].
  split.
  { intros grade; split; [apply effortGrades_reached |].
    intros (l & a & <-). apply calculateEffortGrade_in_grades. }
  split; [reflexivity |].
  split; [exact effortGrades_NoDup |].
  split; reflexivity.
Qed.

(** C6, the claim as stated fails: no eleven distinct grades are all values
    of [calculateEffortGrade]; the ladder has nine bands and the fallback. *)
Lemma calculateEffortGrade_not_eleven_grades :
  ~ exists grades : list string,
      length grades = 11%nat
      /\ NoDup grades
      /\ forall grade, grade ∈ grades ->
                       exists l a, calculateEffortGrade l a = grade.
Proof.
  intros (grades & Hlen & Hnd & Himg).
  assert (Hsub : grades ⊆+ effortGrades).
  { apply NoDup_submseteq; [done |].
    intros g Hg. destruct (Himg g Hg) as (l & a & <-).
    apply calculateEffortGrade_in_grades. }
  apply submseteq_length in Hsub. rewrite Hlen in Hsub.
  cbn in Hsub. lia.
Qed.

(** ** parseRepositories *)

Lemma ownerAndRepo_spec entry :
  match ownerAndRepo entry with
  | Normal true => hasOwnerAndRepo entry
  | _ => ~ hasOwnerAndRepo entry
  end.
Proof.
  unfold ownerAndRepo, hasOwnerAndRepo.
  destruct entry as [| b | q | s | items | fields]; cbn;
    try (intros (? & ? & ? & ? & _); discriminate).
  destruct (lookupField fields "owner") as [owner |] eqn:Ho; cbn.
  - destruct (truthy owner) eqn:Hto; cbn.
    + destruct (lookupField fields "repo") as [repo |] eqn:Hr; cbn.
      * destruct (truthy repo) eqn:Htr.
        -- by exists fields, owner, repo.
        -- intros (f & o & r & [= <-] & _ & _ & Hr' & Htr'). congruence.
      * intros (f & o & r & [= <-] & _ & _ & Hr' & _). congruence.
    + intros (f & o & r & [= <-] & Ho' & Hto' & _). congruence.
  - intros (f & o & r & [= <-] & Ho' & _). congruence.
Qed.

Lemma every_ownerAndRepo_spec items :
  match every ownerAndRepo items with
  | Normal true => Forall hasOwnerAndRepo items
  | _ => ~ Forall hasOwnerAndRepo items
  end.
Proof.
  induction items as [| entry items IH]; cbn; [constructor |].
  pose proof (ownerAndRepo_spec entry) as He.
  destruct (ownerAndRepo entry) as [[|] | e]; cbn.
  - destruct (every ownerAndRepo items) as [[|] | e].
    + by constructor.
    + intros Hall. by inversion Hall.
    + intros Hall. by inversion Hall.
  - intros Hall. by inversion Hall.
  - intros Hall. by inversion Hall.
Qed.

Lemma parseRepositories_inner_spec JSON_parse text :
  match JSON_parse text with
  | Some (JArr items) =>
      (Forall hasOwnerAndRepo items
       /\ parseRepositories_inner JSON_parse text = Normal (Some items))
      \/ (~ Forall hasOwnerAndRepo items
          /\ parseRepositories_inner JSON_parse text = Normal None)
  | _ => parseRepositories_inner JSON_parse text = Normal None
  end.
Proof.
  unfold parseRepositories_inner.
  destruct (JSON_parse text) as [[| b | q | s | items | fields] |]; cbn; try done.
  pose proof (every_ownerAndRepo_spec items) as Hev.
  destruct (every ownerAndRepo items) as [[|] | e]; cbn; auto.
Qed.

Lemma defaultRepositories_valid : Forall hasOwnerAndRepo defaultRepositories.
Proof.
  unfold defaultRepositories, jsonRepo.
  repeat constructor; eexists _, _, _; (split; [reflexivity |]); cbn; done.
Qed.

(** Closes the cases of [parseRepositories_total] once the result is
    known: each remaining case either repeats the result or contradicts
    what the environment and the parser said. *)
Ltac parse_default :=
  repeat split; try done; try apply defaultRepositories_valid;
  intros;
  repeat match goal with
         | H : exists _, _ |- _ => destruct H
         | H : _ /\ _ |- _ => destruct H
         end;
  simplify_eq; try done; try congruence.

(** C9, as amended: [parseRepositories] never throws; what it returns holds
    only entries with a truthy [owner] and a truthy [repo]; it returns the
    four built-in repositories when [GITHUB_REPOS] is unset or empty, is
    not JSON, is not an array, or has an entry lacking [owner] or [repo];
    otherwise it returns the parsed array as it is, which is empty exactly
    when the variable holds the JSON text of the empty array. *)
Theorem parseRepositories_total (JSON_parse : string -> option json) (env : Env) :
  exists repos,
    parseRepositories JSON_parse env = Normal repos
    /\ Forall hasOwnerAndRepo repos
    /\ (env !! "GITHUB_REPOS" = None -> repos = defaultRepositories)
    /\ (env !! "GITHUB_REPOS" = Some "" -> repos = defaultRepositories)
    /\ (forall text,
           env !! "GITHUB_REPOS" = Some text -> JSON_parse text = None ->
           repos = defaultRepositories)
    /\ (forall text value,
           env !! "GITHUB_REPOS" = Some text -> JSON_parse text = Some value ->
           (forall items, value <> JArr items) ->
           repos = defaultRepositories)
    /\ (forall text items,
           env !! "GITHUB_REPOS" = Some text ->
           JSON_parse text = Some (JArr items) ->
           ~ Forall hasOwnerAndRepo items ->
           repos = defaultRepositories)
    /\ (forall text items,
           env !! "GITHUB_REPOS" = Some text -> text <> "" ->
           JSON_parse text = Some (JArr items) ->
           Forall hasOwnerAndRepo items ->
           repos = items)
    /\ (repos = [] <->
        exists text,
          env !! "GITHUB_REPOS" = Some text /\ text <> ""
          /\ JSON_parse text = Some (JArr [])).
Proof.
  unfold parseRepositories.
  destruct (env !! "GITHUB_REPOS") as [text |] eqn:Henv; cbn;
    [| exists defaultRepositories; parse_default].
  unfold truthyString.
  destruct (String.eqb_spec text "") as [-> | Hne]; cbn;
    [exists defaultRepositories; parse_default |].
  pose proof (parseRepositories_inner_spec JSON_parse text) as Hin.
  destruct (JSON_parse text) as [value |] eqn:Hparse;
    [| rewrite Hin; cbn; exists defaultRepositories; parse_default].
  destruct value as [| b | q | s | items | fields];
    try (rewrite Hin; cbn; exists defaultRepositories; parse_default).
  destruct Hin as [[Hall ->] | [Hnot ->]]; cbn.
  - exists items. parse_default. by exists text.
  - exists defaultRepositories. parse_default.
    match goal with H : ~ Forall _ [] |- _ => destruct H; constructor end.
Qed.

(** C9, the claim as stated fails: with [GITHUB_REPOS] set to the text of
    the empty JSON array the result is the empty array, under every host
    parser that reads that text as the empty array. *)
Lemma parseRepositories_empty_array :
  exists env : Env,
    env = {[ "GITHUB_REPOS" := "[]" ]}
    /\ forall JSON_parse : string -> option json,
        JSON_parse "[]" = Some (JArr []) ->
        parseRepositories JSON_parse env = Normal [].
Proof.
  eexists; split; [reflexivity |].
  intros JSON_parse Hparse.
  unfold parseRepositories, parseRepositories_inner.
  rewrite lookup_singleton_eq; cbn. rewrite Hparse; cbn. reflexivity.
Qed.

(** ** generateAndPostReport *)

(** The statement of the [finally] block does restore a flag when the
    saved value is in scope: a flag that was set (to a non-empty text) is
    set to that text again, a flag that was unset is deleted. *)
Lemma restoreFlag_in_scope chain identifier name (env : Env) (prior : option string) :
  resolve chain identifier
  = Normal (match prior with Some text => VString text | None => VUndefined end) ->
  prior <> Some "" ->
  restoreFlag chain identifier name env
  = (match prior with
     | Some text => <[name := text]> env
     | None => delete name env
     end, Normal ()).
Proof.
  intros Hbound Hnonempty. unfold restoreFlag. rewrite Hbound.
  destruct prior as [text |]; cbn; [| done].
  unfold truthyString. destruct (String.eqb_spec text ""); [congruence | done].
Qed.

(** Where the [finally] block stands, neither saved value is in scope. *)
Lemma saved_flags_out_of_scope :
  resolve finallyScopes "originalSkipDetailedContent"
  = Throw (ReferenceError "originalSkipDetailedContent")
  /\ resolve finallyScopes "originalSkipAIAnalysis"
     = Throw (ReferenceError "originalSkipAIAnalysis").
Proof. split; reflexivity. Qed.

(** C8: the code at every input.  Whatever the pipeline and the [respond]
    calls do and whatever the flags held before, [generateAndPostReport]
    ends by throwing a [ReferenceError] from its [finally] block, and both
    flags are left at ['true']: the saved values are out of scope where
    they are to be restored. *)
Theorem generateAndPostReport_leaves_flags_set
    (pipeline respondDone respondFailed : Completion unit) (env : Env) :
  generateAndPostReport pipeline respondDone respondFailed env
  = (<["SKIP_AI_ANALYSIS" := "true"]> (<["SKIP_DETAILED_CONTENT" := "true"]> env),
     Throw (ReferenceError "originalSkipDetailedContent")).
Proof.
  unfold generateAndPostReport, generateAndPostReport_try,
    generateAndPostReport_finally, restoreFlag.
  destruct saved_flags_out_of_scope as [-> _]. reflexivity.
Qed.

(** With both flags unset before the call, both read ['true'] after it. *)
Example generateAndPostReport_from_unset :
  let '(env, completion) :=
    generateAndPostReport (Normal ()) (Normal ()) (Normal ()) ∅ in
  env !! "SKIP_DETAILED_CONTENT" = Some "true"
  /\ env !! "SKIP_AI_ANALYSIS" = Some "true"
  /\ completion = Throw (ReferenceError "originalSkipDetailedContent").
Proof. cbn. by rewrite lookup_insert_ne, !lookup_insert_eq. Qed.

(** ** The fetch layer *)

Example parseIntDecimal_3 : parseIntDecimal "3" = Some 3.
Proof. reflexivity. Qed.

Example parseIntDecimal_12abc : parseIntDecimal " 12abc" = Some 12.
Proof. reflexivity. Qed.

Example parseIntDecimal_minus : parseIntDecimal "-1" = Some (-1).
Proof. reflexivity. Qed.

Example parseIntDecimal_NaN : parseIntDecimal "many" = None.
Proof. reflexivity. Qed.

(** A no-break space (U+00A0) and a byte-order mark (U+FEFF) before the
    digits are skipped like a blank. *)
Example parseIntDecimal_no_break_space :
  parseIntDecimal
    (String (ascii_of_N 0xC2) (String (ascii_of_N 0xA0)
       (String (ascii_of_N 0xEF) (String (ascii_of_N 0xBB)
          (String (ascii_of_N 0xBF) "5")))))
  = Some 5.
Proof. reflexivity. Qed.

(** The wait of a rate-limit signal ends after the reset time. *)
Lemma rateLimitWait_reaches_reset resetTime now :
  resetTime * 1000 + 1000 <= now + rateLimitWait resetTime now.
Proof. unfold rateLimitWait. lia. Qed.

(** [getIssues] gives a rate-limit signal its due: the attempt counter is
    what it was before the request, and the next request waits for the
    reset time. *)
Lemma getIssues_rate_limit_keeps_attempts
    script until now allIssues page attempts events wait error resetTime :
  0 <= attempts < getIssues_maxAttempts ->
  status error = 403 ->
  includes (message error) "rate limit" = true ->
  includes (message error) "socket hang up" = false ->
  includes (message error) "ECONNRESET" = false ->
  ratelimit_reset error = Some resetTime ->
  getIssues_pages ({| latency := wait; outcome := Failed error |} :: script)
    until now allIssues page attempts events
  = getIssues_pages script until
      (now + Z.of_N wait + rateLimitWait resetTime (now + Z.of_N wait))
      allIssues page attempts
      ((events ++ [Requested now page])
         ++ [Slept (now + Z.of_N wait)
               (rateLimitWait resetTime (now + Z.of_N wait))]).
Proof.
  intros Hattempts Hstatus Hlimit Hsocket Hreset Hheader.
  cbn [getIssues_pages outcome latency].
  rewrite Hsocket, Hreset, Hstatus, Hlimit, Hheader. cbn [orb andb].
  rewrite Z.eqb_refl. cbn [andb].
  unfold loopControl. cbn [negb andb].
  replace (attempts + 1 - 1) with attempts by lia.
  destruct (Z.ltb_spec attempts getIssues_maxAttempts); [done | lia].
Qed.

(** [fetchCommitsForBranch] counts the same signal as a retry. *)
Lemma fetchCommitsForBranch_rate_limit_spends_retry
    script pageSize maxPages maxRetries now allBranchCommits page retries
    events wait error resetTime :
  retries + 1 < maxRetries ->
  status error = 403 ->
  ratelimit_remaining error = Some "0" ->
  ratelimit_reset error = Some resetTime ->
  fetchCommitsForBranch_pages
    ({| latency := wait; outcome := Failed error |} :: script)
    pageSize maxPages maxRetries now allBranchCommits page retries events
  = fetchCommitsForBranch_pages script pageSize maxPages maxRetries
      (now + Z.of_N wait + rateLimitWait resetTime (now + Z.of_N wait))
      allBranchCommits page (retries + 1)
      ((events ++ [Requested now page])
         ++ [Slept (now + Z.of_N wait)
               (rateLimitWait resetTime (now + Z.of_N wait))]).
Proof.
  intros Hretries Hstatus Hremaining Hreset.
  cbn [fetchCommitsForBranch_pages outcome latency].
  rewrite Hstatus, Hremaining, Hreset, Z.eqb_refl.
  rewrite bool_decide_eq_true_2 by done. cbn [andb].
  unfold loopControl. cbn [negb andb].
  destruct (Z.ltb_spec (retries + 1) maxRetries); [done | lia].
Qed.

(** [getPullRequests] asks nothing more after a request has failed,
    whatever the error. *)
Lemma getPullRequests_stops_at_failure
    script since until now allPRs page events wait error :
  getPullRequests_pages
    ({| latency := wait; outcome := Failed error |} :: script)
    since until now allPRs page events
  = Some {| returned := allPRs; trace := events ++ [Requested now page];
            finishedAt := now + Z.of_N wait |}.
Proof.
  cbn [getPullRequests_pages outcome latency].
  repeat match goal with |- context [if ?b then _ else _] => destruct b end;
    reflexivity.
Qed.

(** C3: the code at a failing input.  In [fetchCommitsForBranch] a
    rate-limit wait is counted as a retry: after one rate-limit signal two
    transient errors exhaust the budget of three and the page is given up,
    though the next attempt would have succeeded; without the rate-limit
    signal the same two transient errors are survived.  [getIssues] on the
    like script keeps its full budget. *)
Theorem fetchCommitsForBranch_rate_limit_counts_as_retry :
  branchCommitsOn
    [ answered [commit_c1]; rejected (rateLimited 100);
      rejected serverError; rejected serverError; answered [commit_c1] ]
  = Some []
  /\ branchTraceOn
       [ answered [commit_c1]; rejected (rateLimited 100);
         rejected serverError; rejected serverError; answered [commit_c1] ]
     = Some [ Probed 0; Requested 0 1; Slept 0 101000;
              Requested 101000 1; Slept 101000 4000; Requested 105000 1 ]
  /\ branchCommitsOn
       [ answered [commit_c1];
         rejected serverError; rejected serverError; answered [commit_c1] ]
     = Some [commit_c1]
  /\ returned
       <$> getIssues
             [ rejected (rateLimited 100);
               rejected serverError; rejected serverError; answered [issue_i1] ]
             10 0
     = Some [issue_i1].
Proof. repeat split; vm_compute; reflexivity. Qed.

(** C5: the code at a failing input.  [getPullRequests] stops at a 404 or
    a 401 without another request, but [getIssues] and the page loop of
    [fetchCommitsForBranch] wait two seconds and ask again. *)
Theorem getIssues_retries_after_not_found :
  trace <$> getPullRequests [rejected notFound; answered [pr_p1]] 0 10 0
  = Some [Requested 0 1]
  /\ trace <$> getPullRequests [rejected unauthorized; answered [pr_p1]] 0 10 0
     = Some [Requested 0 1]
  /\ getIssues [rejected notFound; answered [issue_i1]] 10 0
     = Some {| returned := [issue_i1];
               trace := [Requested 0 1; Slept 0 2000; Requested 2000 1];
               finishedAt := 2000 |}
  /\ getIssues [rejected unauthorized; answered [issue_i1]] 10 0
     = Some {| returned := [issue_i1];
               trace := [Requested 0 1; Slept 0 2000; Requested 2000 1];
               finishedAt := 2000 |}
  /\ branchCommitsOn [answered [commit_c1]; rejected notFound; answered [commit_c1]]
     = Some [commit_c1]
  /\ branchTraceOn [answered [commit_c1]; rejected notFound; answered [commit_c1]]
     = Some [Probed 0; Requested 0 1; Slept 0 2000; Requested 2000 1].
Proof. repeat split; vm_compute; reflexivity. Qed.

(** ** The commit collector *)

Lemma chunkArray_fuel_concat {A} (fuel : nat) (array : list A) (chunkSize : nat) :
  (0 < chunkSize)%nat -> (length array <= fuel)%nat ->
  concat (chunkArray_fuel fuel array chunkSize) = array.
Proof.
  intros Hpos. revert array.
  induction fuel as [| fuel IH]; intros array Hlen.
  - destruct array; [done | cbn in Hlen; lia].
  - destruct array as [| x array]; [done |].
    cbn [chunkArray_fuel concat]. rewrite IH.
    + apply take_drop.
    + rewrite length_drop. cbn in *. lia.
Qed.

Lemma chunkArray_concat {A} (array : list A) (chunkSize : nat) :
  (0 < chunkSize)%nat -> concat (chunkArray array chunkSize) = array.
Proof. intros Hpos. by apply chunkArray_fuel_concat. Qed.

Lemma insertBefore_Permutation {A} (comparator : A -> A -> Z) x sorted :
  insertBefore comparator x sorted ≡ₚ x :: sorted.
Proof.
  induction sorted as [| y rest IH]; cbn; [done |].
  destruct (comparator x y <=? 0); [done |].
  rewrite IH. apply Permutation_swap.
Qed.

Lemma sortStable_Permutation {A} (comparator : A -> A -> Z) array :
  sortStable comparator array ≡ₚ array.
Proof.
  induction array as [| x array IH]; cbn; [done |].
  rewrite insertBefore_Permutation. by rewrite IH.
Qed.

Lemma branchesToVisit_elem listed branch :
  branch ∈ branchesToVisit listed <-> branch ∈ default [""] listed.
Proof.
  unfold branchesToVisit. destruct (3 <? _); [| done].
  by rewrite sortStable_Permutation.
Qed.

Lemma elem_of_sha_filter keep s commits :
  s ∈ sha <$> List.filter keep commits ->
  exists commit, sha commit = s /\ commit ∈ commits /\ keep commit = true.
Proof.
  intros (commit & -> & Hin)%list_elem_of_fmap.
  apply list_elem_of_In, filter_In in Hin as [Hin Hkeep].
  exists commit. by rewrite list_elem_of_In.
Qed.

Lemma NoDup_sha_filter keep commits :
  NoDup (sha <$> commits) -> NoDup (sha <$> List.filter keep commits).
Proof.
  induction commits as [| commit commits IH]; cbn; [done |].
  intros [Hnew Hnd]%NoDup_cons.
  destruct (keep commit); cbn; [| by apply IH].
  apply NoDup_cons; split; [| by apply IH].
  intros (other & Hsha & Hin & _)%elem_of_sha_filter.
  apply Hnew, list_elem_of_fmap. by exists other.
Qed.

Lemma addNewCommits_NoDup allCommits branchCommits :
  NoDup (sha <$> allCommits) -> NoDup (sha <$> branchCommits) ->
  NoDup (sha <$> addNewCommits allCommits branchCommits).
Proof.
  intros Hall Hbranch. unfold addNewCommits. rewrite fmap_app.
  apply NoDup_app. split; [done |]. split; [| by apply NoDup_sha_filter].
  intros s Hold (commit & <- & _ & Hkeep)%elem_of_sha_filter.
  apply negb_true_iff, bool_decide_eq_false in Hkeep.
  by rewrite elem_of_list_to_set in Hkeep.
Qed.

Lemma foldl_addNewCommits_NoDup results allCommits :
  NoDup (sha <$> allCommits) ->
  Forall (fun result => NoDup (sha <$> result)) results ->
  NoDup (sha <$> foldl addNewCommits allCommits results).
Proof.
  revert allCommits.
  induction results as [| result results IH]; intros allCommits Hall Hres;
    cbn; [done |].
  inversion Hres; subst. apply IH; [| done].
  by apply addNewCommits_NoDup.
Qed.

(** Chunking does not change what is merged, nor in which order. *)
Lemma foldl_collectChunk_flat branchCommits chunks allCommits :
  foldl (collectChunk branchCommits) allCommits chunks
  = foldl addNewCommits allCommits (branchCommits <$> concat chunks).
Proof.
  revert allCommits.
  induction chunks as [| chunk chunks IH]; intros allCommits; cbn; [done |].
  rewrite IH. unfold collectChunk. by rewrite fmap_app, foldl_app.
Qed.

Lemma fetchCommitsForRepo_with_flat branchCommits limit listed :
  (0 < limit)%nat ->
  fetchCommitsForRepo_with branchCommits limit None listed
  = foldl addNewCommits [] (branchCommits <$> branchesToVisit listed).
Proof.
  intros Hpos. unfold fetchCommitsForRepo_with.
  by rewrite foldl_collectChunk_flat, chunkArray_concat.
Qed.

Lemma countSha_absent s commits :
  s ∉ sha <$> commits -> countSha s commits = O.
Proof.
  unfold countSha.
  induction commits as [| commit commits IH]; cbn; [done |].
  intros Hnot. apply not_elem_of_cons in Hnot as [Hne Hnot].
  destruct (String.eqb_spec (sha commit) s); [congruence | by apply IH].
Qed.

(** When every branch lists every sha at most once, so does the result. *)
Lemma fetchCommitsForRepo_NoDup
    (branchCommits : string -> list Commit) (listed : option (list string)) :
  (forall branch, NoDup (sha <$> branchCommits branch)) ->
  NoDup (sha <$> fetchCommitsForRepo branchCommits None listed).
Proof.
  intros Hbranches. unfold fetchCommitsForRepo.
  rewrite fetchCommitsForRepo_with_flat by lia.
  apply foldl_addNewCommits_NoDup; [constructor |].
  apply Forall_fmap, Forall_forall. intros branch _. apply Hbranches.
Qed.

Lemma countSha_app s commits more :
  countSha s (commits ++ more) = (countSha s commits + countSha s more)%nat.
Proof. unfold countSha. by rewrite List.filter_app, length_app. Qed.

Lemma countSha_zero_iff s commits :
  countSha s commits = O <-> s ∉ sha <$> commits.
Proof.
  split; [| apply countSha_absent].
  unfold countSha.
  induction commits as [| commit commits IH]; cbn; [by intros _ ?%elem_of_nil |].
  destruct (String.eqb_spec (sha commit) s) as [<- | Hne]; cbn; [done |].
  intros Hzero. apply not_elem_of_cons. split; [done | by apply IH].
Qed.

(** The new commits of a branch carry a sha as often as the branch does,
    or not at all when the sha was collected before. *)
Lemma countSha_unseen s (seen : gset string) commits :
  countSha s
    (List.filter (fun commit => negb (bool_decide (sha commit ∈ seen))) commits)
  = if bool_decide (s ∈ seen) then O else countSha s commits.
Proof.
  unfold countSha.
  induction commits as [| commit commits IH]; cbn; [by case_bool_decide |].
  destruct (bool_decide (sha commit ∈ seen)) eqn:Hseen; cbn.
  - apply bool_decide_eq_true in Hseen. rewrite IH.
    case_bool_decide as Hs; [done |].
    destruct (String.eqb_spec (sha commit) s) as [<- | Hne]; done.
  - apply bool_decide_eq_false in Hseen.
    destruct (String.eqb_spec (sha commit) s) as [<- | Hne]; cbn; rewrite IH.
    + by rewrite bool_decide_eq_false_2.
    + done.
Qed.

Lemma countSha_addNewCommits s allCommits branchCommits :
  countSha s (addNewCommits allCommits branchCommits)
  = (countSha s allCommits
     + if bool_decide (s ∈ sha <$> allCommits) then O
       else countSha s branchCommits)%nat.
Proof.
  unfold addNewCommits. rewrite countSha_app, countSha_unseen.
  f_equal.
  by rewrite (bool_decide_ext _ (s ∈ sha <$> allCommits))
    by apply elem_of_list_to_set.
Qed.

Lemma foldl_addNewCommits_count s results allCommits :
  (countSha s allCommits <= 1)%nat ->
  Forall (fun result => (countSha s result <= 1)%nat) results ->
  (countSha s (foldl addNewCommits allCommits results) <= 1)%nat
  /\ ((0 < countSha s allCommits)%nat
      \/ Exists (fun result => (0 < countSha s result)%nat) results ->
      countSha s (foldl addNewCommits allCommits results) = 1%nat).
Proof.
  revert allCommits.
  induction results as [| result results IH]; intros allCommits Hall Hres;
    cbn [foldl].
  - split; [done |]. intros [Hpos | Hex]; [lia | by inversion Hex].
  - inversion Hres as [| ? ? Hresult Hrest]; subst.
    assert (Hstep :
      (countSha s (addNewCommits allCommits result) <= 1)%nat
      /\ ((0 < countSha s allCommits)%nat \/ (0 < countSha s result)%nat ->
          (0 < countSha s (addNewCommits allCommits result))%nat)).
    { rewrite countSha_addNewCommits. case_bool_decide as Hseen.
      - assert (countSha s allCommits <> O) as Hpos.
        { intros Hzero%countSha_zero_iff. by apply Hzero. }
        lia.
      - apply countSha_zero_iff in Hseen. lia. }
    destruct Hstep as [Hle Hpos].
    destruct (IH _ Hle Hrest) as [IHle IHone].
    split; [done |].
    intros [Hacc | Hex]; apply IHone.
    + left. apply Hpos. by left.
    + inversion Hex; subst; [left; apply Hpos; by right | by right].
Qed.

(** C1: for every sha that each branch lists at most once,
    [fetchCommitsForRepo] returns at most one commit with it, whether it
    answers from the cache (which holds what an earlier call returned) or
    merges the branches; when it merges and some visited branch lists the
    sha, exactly one commit of the result carries it; and the result is
    the same for every size of the concurrent batches. *)
Theorem fetchCommitsForRepo_returns_each_sha_once
    (branchCommits : string -> list Commit)
    (cachedCommits : option (list Commit)) (listed : option (list string))
    (s : string) :
  (forall cached, cachedCommits = Some cached -> (countSha s cached <= 1)%nat) ->
  (forall branch,
      branch ∈ default [""] listed ->
      (countSha s (branchCommits branch) <= 1)%nat) ->
  (countSha s (fetchCommitsForRepo branchCommits cachedCommits listed) <= 1)%nat
  /\ (forall branch,
         branch ∈ default [""] listed ->
         (0 < countSha s (branchCommits branch))%nat ->
         countSha s (fetchCommitsForRepo branchCommits None listed) = 1%nat)
  /\ (forall concurrencyLimit,
         (0 < concurrencyLimit)%nat ->
         fetchCommitsForRepo_with branchCommits concurrencyLimit
           cachedCommits listed
         = fetchCommitsForRepo branchCommits cachedCommits listed).
Proof.
  intros Hcached Hbranches.
  assert (Hvisited :
    Forall (fun result => (countSha s result <= 1)%nat)
      (branchCommits <$> branchesToVisit listed)).
  { apply Forall_fmap, Forall_forall. intros branch Hin. cbn.
    apply Hbranches. by apply branchesToVisit_elem. }
  destruct (foldl_addNewCommits_count s _ [] (Nat.le_0_l 1) Hvisited)
    as [Hle Hone].
  split; [| split].
  - destruct cachedCommits as [cached |]; [by apply Hcached |].
    unfold fetchCommitsForRepo. by rewrite fetchCommitsForRepo_with_flat by lia.
  - intros branch Hvisit Hpos.
    unfold fetchCommitsForRepo. rewrite fetchCommitsForRepo_with_flat by lia.
    apply Hone. right. apply Exists_exists.
    exists (branchCommits branch). split; [| done].
    apply list_elem_of_fmap_2. by apply branchesToVisit_elem.
  - intros limit Hpos. destruct cachedCommits as [cached |]; [done |].
    unfold fetchCommitsForRepo.
    by rewrite !fetchCommitsForRepo_with_flat by lia.
Qed.

Example fetchCommitsForRepo_mainAndDev :
  fetchCommitsForRepo mainAndDev None (Some ["main"; "dev"])
  = [commit_c1; commit_c2; commit_c3].
Proof. by vm_compute. Qed.

Lemma fetchCommitsForRepo_returns_each_sha_once_witness :
  (countSha "c2" (fetchCommitsForRepo mainAndDev None (Some ["main"; "dev"]))
   <= 1)%nat
  /\ (forall branch,
         branch ∈ default [""] (Some ["main"; "dev"]) ->
         (0 < countSha "c2" (mainAndDev branch))%nat ->
         countSha "c2" (fetchCommitsForRepo mainAndDev None (Some ["main"; "dev"]))
         = 1%nat)
  /\ (forall concurrencyLimit,
         (0 < concurrencyLimit)%nat ->
         fetchCommitsForRepo_with mainAndDev concurrencyLimit None
           (Some ["main"; "dev"])
         = fetchCommitsForRepo mainAndDev None (Some ["main"; "dev"])).
Proof.
  apply (fetchCommitsForRepo_returns_each_sha_once mainAndDev None
           (Some ["main"; "dev"]) "c2").
  - intros cached Hcached. discriminate Hcached.
  - intros branch _. unfold mainAndDev.
    destruct (String.eqb branch "main");
      [| destruct (String.eqb branch "dev")]; vm_compute; lia.
Defined.

(** ** Extraction of the JSON text *)

Example extractJson_prose :
  extractJson "Here you go: {x} and {y}. Bye" = Some "{x} and {y}".
Proof. reflexivity. Qed.

Example extractJson_none : extractJson "} no object {" = None.
Proof. reflexivity. Qed.

(** ** The counts under the aggregator *)

Lemma sumOfCommits_counts repos : sumOfCommits repos = sumFst (repoCounts <$> repos).
Proof. unfold sumOfCommits, sumFst. by rewrite map_fold_fmap. Qed.

Lemma sumOfPullRequests_counts repos :
  sumOfPullRequests repos = sumSnd (repoCounts <$> repos).
Proof. unfold sumOfPullRequests, sumSnd. by rewrite map_fold_fmap. Qed.

Lemma sumFst_insert (counts : gmap string (Z * Z)) key pair :
  counts !! key = None -> sumFst (<[key := pair]> counts) = sumFst counts + pair.1.
Proof.
  intros Hfresh. unfold sumFst.
  rewrite map_fold_insert_L; [done | intros; lia | done].
Qed.

Lemma sumSnd_insert (counts : gmap string (Z * Z)) key pair :
  counts !! key = None -> sumSnd (<[key := pair]> counts) = sumSnd counts + pair.2.
Proof.
  intros Hfresh. unfold sumSnd.
  rewrite map_fold_insert_L; [done | intros; lia | done].
Qed.

Lemma alter_as_insert (counts : gmap string (Z * Z)) key pair change :
  counts !! key = Some pair ->
  counts = <[key := pair]> (delete key counts)
  /\ alter change key counts = <[key := change pair]> (delete key counts).
Proof.
  intros Hold. split; [by rewrite insert_delete_id |].
  rewrite <- (insert_delete_id counts key pair) at 1 by done.
  by rewrite alter_insert_eq.
Qed.

Lemma sumFst_alter (counts : gmap string (Z * Z)) key pair change :
  counts !! key = Some pair ->
  sumFst (alter change key counts) = sumFst counts - pair.1 + (change pair).1.
Proof.
  intros Hold. destruct (alter_as_insert counts key pair change Hold) as [Hc Ha].
  rewrite Ha. rewrite Hc at 2.
  rewrite !sumFst_insert by apply lookup_delete_eq. lia.
Qed.

Lemma sumSnd_alter (counts : gmap string (Z * Z)) key pair change :
  counts !! key = Some pair ->
  sumSnd (alter change key counts) = sumSnd counts - pair.2 + (change pair).2.
Proof.
  intros Hold. destruct (alter_as_insert counts key pair change Hold) as [Hc Ha].
  rewrite Ha. rewrite Hc at 2.
  rewrite !sumSnd_insert by apply lookup_delete_eq. lia.
Qed.

Lemma CountsInv_init done pending totalCommits totalPRs counts key :
  key ∉ done ∪ pending ->
  CountsInv done pending (totalCommits, totalPRs, counts) ->
  CountsInv done ({[key]} ∪ pending)
    (totalCommits, totalPRs, <[key := (0, 0)]> counts).
Proof.
  intros Hnew (Hc & Hp & Hpend & Hdom); cbn in *.
  assert (Hfresh : counts !! key = None).
  { apply not_elem_of_dom. intros Hin. apply Hnew, Hdom, Hin. }
  repeat split; cbn.
  - rewrite sumFst_insert by done. cbn. lia.
  - rewrite sumSnd_insert by done. cbn. lia.
  - intros other Hin. destruct (decide (other = key)) as [-> | Hne].
    + apply lookup_insert_eq.
    + rewrite lookup_insert_ne by done. apply Hpend.
      by apply elem_of_union in Hin as [Hin%elem_of_singleton | Hin].
  - rewrite dom_insert_L. intros other [Hin | Hin]%elem_of_union.
    + apply elem_of_union_r, elem_of_union_l, Hin.
    + apply Hdom, elem_of_union in Hin as [Hin | Hin].
      * by apply elem_of_union_l.
      * by apply elem_of_union_r, elem_of_union_r.
Qed.

Lemma CountsInv_process done pending totalCommits totalPRs counts key n m :
  key ∈ pending ->
  CountsInv done pending (totalCommits, totalPRs, counts) ->
  CountsInv (done ∪ {[key]}) (pending ∖ {[key]})
    (totalCommits + n, totalPRs + m,
     alter (fun pair => (pair.1, m)) key
       (alter (fun pair => (n, pair.2)) key counts)).
Proof.
  intros Hin (Hc & Hp & Hpend & Hdom); cbn in *.
  pose proof (Hpend key Hin) as Hzero.
  assert (Hmid : alter (fun pair : Z * Z => (n, pair.2)) key counts !! key
                 = Some (n, 0)).
  { by rewrite lookup_alter_eq, Hzero. }
  repeat split; cbn.
  - rewrite (sumFst_alter _ key (n, 0)) by done.
    rewrite (sumFst_alter _ key (0, 0)) by done. cbn. lia.
  - rewrite (sumSnd_alter _ key (n, 0)) by done.
    rewrite (sumSnd_alter _ key (0, 0)) by done. cbn. lia.
  - intros other [Hother Hne%not_elem_of_singleton]%elem_of_difference.
    rewrite !lookup_alter_ne by done. by apply Hpend.
  - rewrite !dom_alter_L.
    intros other Hother. specialize (Hdom other Hother).
    destruct (decide (other = key)) as [-> | Hne].
    + apply elem_of_union_l, elem_of_union_r. by apply elem_of_singleton.
    + apply elem_of_union in Hdom as [Hdone | Hpending].
      * by apply elem_of_union_l, elem_of_union_l.
      * apply elem_of_union_r, elem_of_difference. split; [done |].
        by intros ?%elem_of_singleton.
Qed.

(** What each step of the aggregator does to the counts. *)

Lemma countsOf_updRepo_keep key change c :
  (forall stats, repoCounts (change stats) = repoCounts stats) ->
  countsOf (updRepo key change c) = countsOf c.
Proof.
  intros Hkeep. unfold countsOf, updRepo; cbn. f_equal.
  rewrite (fmap_alter _ _ id) by (intros; apply Hkeep).
  apply alter_id. done.
Qed.

Lemma countsOf_updSummary_keep change c :
  (forall s, Summary.totalCommits (change s) = Summary.totalCommits s) ->
  (forall s, Summary.totalPRs (change s) = Summary.totalPRs s) ->
  countsOf (updSummary change c) = countsOf c.
Proof. intros Hc Hp. unfold countsOf, updSummary; cbn. by rewrite Hc, Hp. Qed.

(** *** The guarded initialisation of a user *)

Lemma alter_present {V} (change : V -> V) (entries : gmap string V) key old :
  entries !! key = Some old ->
  alter change key entries = <[key := change old]> entries.
Proof.
  intros Hold. apply map_eq. intros other.
  destruct (decide (other = key)) as [-> | Hne].
  - by rewrite lookup_alter_eq, lookup_insert_eq, Hold.
  - by rewrite lookup_alter_ne, lookup_insert_ne by done.
Qed.

Lemma truthyString_repoKeyOf config : truthyString (repoKeyOf config) = true.
Proof. unfold repoKeyOf. by destruct (owner config). Qed.

Lemma Contributions_eta c :
  c = {| summary := summary c; users := users c;
         repositories := repositories c; aiAnalysis := aiAnalysis c |}.
Proof. by destruct c. Qed.

Lemma occurs_append_here (c : ascii) (text more : string) :
  occurs c (text +:+ String c more) = true.
Proof.
  induction text as [|first text IH].
  - change (Ascii.eqb c c || occurs c more = true).
    by rewrite (Ascii.eqb_refl c).
  - change (Ascii.eqb first c || occurs c (text +:+ String c more) = true).
    rewrite IH. apply orb_true_r.
Qed.

(** A repository key holds a slash, which no member of [Object.prototype]
    has in its name. *)
Lemma inherited_repoKeyOf config : inherited (repoKeyOf config) = false.
Proof.
  apply bool_decide_eq_false_2. intros Hin.
  assert (Forall (fun name => occurs "/" name = false) objectPrototypeMembers)
    as Hnames by (by repeat constructor).
  rewrite Forall_forall in Hnames. specialize (Hnames _ Hin).
  unfold repoKeyOf in Hnames.
  change ("/" +:+ repo config) with (String "/" (repo config)) in Hnames.
  by rewrite occurs_append_here in Hnames.
Qed.

(** An author is skipped when the name is inherited and no user has it. *)
Lemma ensureUserStats_closed author repoKey c :
  truthyString repoKey = true ->
  inherited repoKey = false ->
  ensureUserStats author repoKey c
  = if hasUser (users c) author || negb (inherited author)
    then Normal (ensuredUserStats author repoKey c)
    else Throw TypeError.
Proof.
  intros Htruthy Hkey.
  unfold ensureUserStats, initializeUsers, initializeUserStats, ensuredUserStats,
    withUsers, ensured, hasUser, hasUserRepo.
  destruct (users c !! author) as [user|] eqn:Huser; cbn.
  - rewrite Huser.
    destruct (UserStats.repositories user !! repoKey) eqn:Hrepo; cbn.
    + rewrite insert_id by done. f_equal. apply Contributions_eta.
    + rewrite Hkey. cbn. rewrite Htruthy, Huser, Hrepo. cbn.
      by rewrite (alter_present _ _ _ user).
  - destruct (inherited author); cbn.
    + by rewrite Huser.
    + rewrite lookup_insert_eq. cbn. rewrite lookup_empty, Hkey. cbn.
      rewrite Htruthy, lookup_insert_eq. cbn. rewrite lookup_empty. cbn.
      by rewrite alter_insert_eq.
Qed.

(** What [processAuthorCommits] and its like do with the author. *)
Ltac author_cases :=
  rewrite ensureUserStats_closed
    by (apply truthyString_repoKeyOf || apply inherited_repoKeyOf);
  match goal with
  | |- context [hasUser ?usersObj ?author || negb (inherited ?author)] =>
      destruct (hasUser usersObj author || negb (inherited author)) eqn:?Hbooked
  end.

Lemma countsOf_ensureUserStats author repoKey c :
  countsOf (ensuredUserStats author repoKey c) = countsOf c.
Proof. reflexivity. Qed.

Lemma foldl_keeps_counts {B} (step : Contributions -> B -> Contributions)
    (items : list B) (c : Contributions) :
  (forall c item, countsOf (step c item) = countsOf c) ->
  countsOf (foldl step c items) = countsOf c.
Proof.
  intros Hstep. revert c.
  induction items as [| item items IH]; intros c; cbn; [done |].
  by rewrite IH, Hstep.
Qed.

Lemma countsOf_addCommitLines getCommit config author commit c :
  countsOf (addCommitLines getCommit config author commit c) = countsOf c.
Proof.
  unfold addCommitLines. destruct (getCommit config (sha commit)); [| done].
  rewrite countsOf_updSummary_keep by done.
  by rewrite countsOf_updRepo_keep by done.
Qed.

Lemma countsOf_processAuthorCommits getCommit config c entry :
  countsOf (processAuthorCommits getCommit config c entry) = countsOf c.
Proof.
  unfold processAuthorCommits. destruct entry as [author authorCommits].
  author_cases; [|done].
  rewrite foldl_keeps_counts.
  - rewrite countsOf_updRepo_keep by done.
    apply countsOf_ensureUserStats.
  - intros c' batch. apply foldl_keeps_counts.
    intros c'' commit. apply countsOf_addCommitLines.
Qed.

Lemma countsOf_processAuthorPRs config c entry :
  countsOf (processAuthorPRs config c entry) = countsOf c.
Proof.
  unfold processAuthorPRs. destruct entry as [author authorPRs].
  author_cases; [|done].
  rewrite countsOf_updRepo_keep by done.
  apply countsOf_ensureUserStats.
Qed.

Lemma countsOf_processAuthorIssues config c entry :
  countsOf (processAuthorIssues config c entry) = countsOf c.
Proof.
  unfold processAuthorIssues. destruct entry as [author authorIssues].
  author_cases; [|done].
  rewrite countsOf_updRepo_keep by done.
  apply countsOf_ensureUserStats.
Qed.

Lemma countsOf_processCommits getCommit config commits c :
  countsOf (processCommits getCommit config commits c)
  = ((countsOf c).1.1 + lengthZ commits, (countsOf c).1.2,
     alter (fun pair => (lengthZ commits, pair.2)) (repoKeyOf config)
       (countsOf c).2).
Proof.
  unfold processCommits.
  assert (Hhead :
    countsOf
      (updRepo (repoKeyOf config) (RepositoryStats.setCommits (lengthZ commits))
         (updSummary (Summary.addCommits (lengthZ commits)) c))
    = ((countsOf c).1.1 + lengthZ commits, (countsOf c).1.2,
       alter (fun pair => (lengthZ commits, pair.2)) (repoKeyOf config)
         (countsOf c).2)).
  { unfold countsOf, updRepo, updSummary; cbn. f_equal.
    by apply fmap_alter. }
  destruct (lengthZ commits =? 0); [done |].
  rewrite foldl_keeps_counts; [done |].
  intros. apply countsOf_processAuthorCommits.
Qed.

Lemma countsOf_processPRs config prs c :
  countsOf (processPRs config prs c)
  = ((countsOf c).1.1, (countsOf c).1.2 + lengthZ prs,
     alter (fun pair => (pair.1, lengthZ prs)) (repoKeyOf config) (countsOf c).2).
Proof.
  unfold processPRs.
  assert (Hhead :
    countsOf
      (updRepo (repoKeyOf config)
         (RepositoryStats.setPullRequests (lengthZ prs)
            (lengthZ (List.filter pr_merged prs)))
         (updSummary
            (Summary.addPRs (lengthZ prs) (lengthZ (List.filter pr_merged prs)))
            c))
    = ((countsOf c).1.1, (countsOf c).1.2 + lengthZ prs,
       alter (fun pair => (pair.1, lengthZ prs)) (repoKeyOf config)
         (countsOf c).2)).
  { unfold countsOf, updRepo, updSummary; cbn. f_equal.
    by apply fmap_alter. }
  destruct (lengthZ prs =? 0); [done |].
  destruct (mapM pr_user_login prs); [| done].
  rewrite foldl_keeps_counts; [done |].
  intros. apply countsOf_processAuthorPRs.
Qed.

Lemma countsOf_processIssues config issues c :
  countsOf (processIssues config issues c) = countsOf c.
Proof.
  unfold processIssues. destruct (lengthZ issues =? 0); [done |].
  match goal with
  | |- countsOf (match ?m with Some _ => _ | None => ?c' end) = _ =>
      assert (Hhead : countsOf c' = countsOf c);
      [| destruct m; [rewrite foldl_keeps_counts; [done |] | done] ]
  end.
  - rewrite countsOf_updRepo_keep by done.
    by rewrite countsOf_updSummary_keep by done.
  - intros. apply countsOf_processAuthorIssues.
Qed.

Lemma countsOf_initRepository c config :
  countsOf (initRepository c config)
  = ((countsOf c).1.1, (countsOf c).1.2,
     <[repoKeyOf config := (0, 0)]> (countsOf c).2).
Proof.
  unfold countsOf, initRepository, withRepositories; cbn. f_equal.
  by rewrite fmap_insert.
Qed.

Lemma countsOf_processRepository fetched getCommit c config :
  countsOf (processRepository fetched getCommit c config)
  = ((countsOf c).1.1 + lengthZ (commitsFetched (fetched config)),
     (countsOf c).1.2 + lengthZ (prsFetched (fetched config)),
     alter (fun pair => (pair.1, lengthZ (prsFetched (fetched config))))
       (repoKeyOf config)
       (alter (fun pair => (lengthZ (commitsFetched (fetched config)), pair.2))
          (repoKeyOf config) (countsOf c).2)).
Proof.
  unfold processRepository.
  by rewrite countsOf_processIssues, countsOf_processPRs,
    countsOf_processCommits.
Qed.

Lemma foldl_initRepository_inv chunk c done pending :
  NoDup (repoKeyOf <$> chunk) ->
  (forall config, config ∈ chunk -> repoKeyOf config ∉ done ∪ pending) ->
  CountsInv done pending (countsOf c) ->
  CountsInv done (pending ∪ list_to_set (repoKeyOf <$> chunk))
    (countsOf (foldl initRepository c chunk)).
Proof.
  revert c pending.
  induction chunk as [| config chunk IH]; intros c pending Hnd Hnew Hinv; cbn.
  - by rewrite union_empty_r_L.
  - apply NoDup_cons in Hnd as [Hfirst Hnd].
    rewrite union_assoc_L, (union_comm_L pending).
    apply IH; [done | |].
    + intros other Hother Hin.
      apply elem_of_union in Hin as [Hin | [Hin | Hin]%elem_of_union].
      * apply (Hnew other); [by right | by apply elem_of_union_l].
      * apply elem_of_singleton in Hin. apply Hfirst. rewrite <- Hin.
        by apply list_elem_of_fmap_2.
      * apply (Hnew other); [by right | by apply elem_of_union_r].
    + rewrite countsOf_initRepository.
      destruct (countsOf c) as [[totalCommits totalPRs] counts]; cbn.
      apply CountsInv_init; [| done]. apply Hnew. by left.
Qed.

Lemma foldl_processRepository_inv fetched getCommit order c done pending :
  NoDup (repoKeyOf <$> order) ->
  (forall config, config ∈ order -> repoKeyOf config ∈ pending) ->
  CountsInv done pending (countsOf c) ->
  CountsInv (done ∪ list_to_set (repoKeyOf <$> order))
    (pending ∖ list_to_set (repoKeyOf <$> order))
    (countsOf (foldl (processRepository fetched getCommit) c order)).
Proof.
  revert c done pending.
  induction order as [| config order IH]; intros c done pending Hnd Hin Hinv; cbn.
  - by rewrite union_empty_r_L, difference_empty_L.
  - apply NoDup_cons in Hnd as [Hfirst Hnd].
    rewrite union_assoc_L, <- difference_difference_l_L.
    apply IH; [done | |].
    + intros other Hother. apply elem_of_difference. split.
      * apply Hin. by right.
      * intros Heq%elem_of_singleton. apply Hfirst. rewrite <- Heq.
        by apply list_elem_of_fmap_2.
    + rewrite countsOf_processRepository.
      destruct (countsOf c) as [[totalCommits totalPRs] counts]; cbn.
      apply CountsInv_process; [| done]. apply Hin. by left.
Qed.

Lemma processChunk_inv fetched getCommit completionOrder chunk c done :
  completionOrder chunk ≡ₚ chunk ->
  NoDup (repoKeyOf <$> chunk) ->
  (forall config, config ∈ chunk -> repoKeyOf config ∉ done) ->
  CountsInv done ∅ (countsOf c) ->
  CountsInv (done ∪ list_to_set (repoKeyOf <$> chunk)) ∅
    (countsOf (processChunk fetched getCommit completionOrder c chunk)).
Proof.
  intros Hperm Hnd Hnew Hinv. unfold processChunk.
  assert (Hkeys : list_to_set (repoKeyOf <$> completionOrder chunk)
                  = (list_to_set (repoKeyOf <$> chunk) : gset string)).
  { apply set_eq. intros key.
    by rewrite !elem_of_list_to_set, Hperm. }
  pose proof (foldl_processRepository_inv fetched getCommit
                (completionOrder chunk) (foldl initRepository c chunk) done
                (list_to_set (repoKeyOf <$> chunk))) as Hrun.
  rewrite Hkeys, difference_diag_L in Hrun.
  apply Hrun.
  - by rewrite Hperm.
  - intros config Hin. rewrite Hperm in Hin.
    apply elem_of_list_to_set. by apply list_elem_of_fmap_2.
  - rewrite <- (union_empty_l_L (list_to_set (repoKeyOf <$> chunk))).
    apply foldl_initRepository_inv; [done | | done].
    intros config Hin. rewrite union_empty_r_L. by apply Hnew.
Qed.

Lemma foldl_processChunk_inv fetched getCommit completionOrder chunks c done :
  (forall chunk, completionOrder chunk ≡ₚ chunk) ->
  NoDup (repoKeyOf <$> concat chunks) ->
  (forall config, config ∈ concat chunks -> repoKeyOf config ∉ done) ->
  CountsInv done ∅ (countsOf c) ->
  exists done',
    CountsInv done' ∅
      (countsOf (foldl (processChunk fetched getCommit completionOrder) c chunks)).
Proof.
  intros Hperm. revert c done.
  induction chunks as [| chunk chunks IH]; intros c done Hnd Hnew Hinv; cbn.
  - by exists done.
  - cbn in Hnd. rewrite fmap_app in Hnd.
    apply NoDup_app in Hnd as (Hchunk & Hdisjoint & Hrest).
    apply (IH _ (done ∪ list_to_set (repoKeyOf <$> chunk))); [done | |].
    + intros config Hin Hkey.
      apply elem_of_union in Hkey as [Hkey | Hkey].
      * apply (Hnew config); [| done]. cbn. apply elem_of_app. by right.
      * apply elem_of_list_to_set in Hkey.
        apply (Hdisjoint _ Hkey). by apply list_elem_of_fmap_2.
    + apply processChunk_inv; [done | done | | done].
      intros config Hin. apply Hnew. cbn. apply elem_of_app. by left.
Qed.

Lemma CountsInv_initial REPOS since until :
  CountsInv ∅ ∅ (countsOf (initialContributions REPOS since until)).
Proof.
  unfold CountsInv, countsOf, initialContributions; cbn.
  rewrite fmap_empty. unfold sumFst, sumSnd. rewrite !map_fold_empty.
  repeat split; [done | by rewrite dom_empty_L].
Qed.

Lemma aggregate_inv fetched getCommit completionOrder env REPOS since until :
  (forall chunk, completionOrder chunk ≡ₚ chunk) ->
  NoDup (repoKeyOf <$> reposToProcess env REPOS) ->
  exists done,
    CountsInv done ∅
      (countsOf (aggregate fetched getCommit completionOrder env REPOS since until)).
Proof.
  intros Hperm Hnd. unfold aggregate.
  apply (foldl_processChunk_inv _ _ _ _ _ ∅);
    [done | | intros config _ []%elem_of_empty |].
  - rewrite chunkArray_concat; [done |].
    destruct (isMemoryOptimized env); lia.
  - apply CountsInv_initial.
Qed.

(** The aggregator never touches [aiAnalysis]. *)

Lemma foldl_keeps_aiAnalysis {B} (step : Contributions -> B -> Contributions)
    (items : list B) (c : Contributions) :
  (forall c item, aiAnalysis (step c item) = aiAnalysis c) ->
  aiAnalysis (foldl step c items) = aiAnalysis c.
Proof.
  intros Hstep. revert c.
  induction items as [| item items IH]; intros c; cbn; [done |].
  by rewrite IH, Hstep.
Qed.

Lemma aiAnalysis_ensureUserStats author repoKey c :
  aiAnalysis (ensuredUserStats author repoKey c) = aiAnalysis c.
Proof. reflexivity. Qed.

Lemma aiAnalysis_processAuthorCommits getCommit config c entry :
  aiAnalysis (processAuthorCommits getCommit config c entry) = aiAnalysis c.
Proof.
  unfold processAuthorCommits. destruct entry as [author authorCommits].
  author_cases; [|done].
  rewrite foldl_keeps_aiAnalysis; [apply aiAnalysis_ensureUserStats |].
  intros c' batch. apply foldl_keeps_aiAnalysis.
  intros c'' commit. unfold addCommitLines.
  by destruct (getCommit config (sha commit)).
Qed.

Lemma aiAnalysis_processCommits getCommit config commits c :
  aiAnalysis (processCommits getCommit config commits c) = aiAnalysis c.
Proof.
  unfold processCommits. destruct (lengthZ commits =? 0); [done |].
  rewrite foldl_keeps_aiAnalysis; [done |].
  intros. apply aiAnalysis_processAuthorCommits.
Qed.

Lemma aiAnalysis_processPRs config prs c :
  aiAnalysis (processPRs config prs c) = aiAnalysis c.
Proof.
  unfold processPRs. destruct (lengthZ prs =? 0); [done |].
  destruct (mapM pr_user_login prs); [| done].
  rewrite foldl_keeps_aiAnalysis; [done |].
  intros c' [author authorPRs]. unfold processAuthorPRs.
  author_cases; [|done]. apply aiAnalysis_ensureUserStats.
Qed.

Lemma aiAnalysis_processIssues config issues c :
  aiAnalysis (processIssues config issues c) = aiAnalysis c.
Proof.
  unfold processIssues. destruct (lengthZ issues =? 0); [done |].
  match goal with |- context [mapM ?f ?l] => destruct (mapM f l) end; [| done].
  rewrite foldl_keeps_aiAnalysis; [done |].
  intros c' [author authorIssues]. unfold processAuthorIssues.
  author_cases; [|done]. apply aiAnalysis_ensureUserStats.
Qed.

Lemma aiAnalysis_processRepository fetched getCommit c config :
  aiAnalysis (processRepository fetched getCommit c config) = aiAnalysis c.
Proof.
  unfold processRepository.
  by rewrite aiAnalysis_processIssues, aiAnalysis_processPRs,
    aiAnalysis_processCommits.
Qed.

Lemma aiAnalysis_aggregate fetched getCommit completionOrder env REPOS since until :
  aiAnalysis (aggregate fetched getCommit completionOrder env REPOS since until)
  = None.
Proof.
  unfold aggregate. rewrite foldl_keeps_aiAnalysis; [done |].
  intros c chunk. unfold processChunk.
  rewrite foldl_keeps_aiAnalysis by (intros; apply aiAnalysis_processRepository).
  by rewrite foldl_keeps_aiAnalysis.
Qed.

(** *** What the narrative stage changes *)

Lemma foldC_keeps {A B V} (view : A -> V) (step : A -> B -> Completion A)
    (items : list B) (start result : A) :
  (forall a b a', step a b = Normal a' -> view a' = view a) ->
  foldC step start items = Normal result -> view result = view start.
Proof.
  intros Hstep. revert start.
  induction items as [| item items IH]; intros start; cbn.
  - by intros [= <-].
  - destruct (step start item) as [next |] eqn:Hnext; cbn; [| done].
    intros Hrest. rewrite (IH _ Hrest). by apply Hstep in Hnext.
Qed.

Lemma gradeFromAnalysis_counts toNumber c entry c' :
  gradeFromAnalysis toNumber c entry = Normal c' -> countsOf c' = countsOf c.
Proof.
  unfold gradeFromAnalysis. destruct entry as [username analysis].
  destruct (hasUser (users c) username || inherited username);
    [| by intros [= <-]].
  destruct (getProp analysis "codeQualityScore") as [[score |] |]; cbn;
    [| by intros [= <-] | done].
  destruct (truthy score); by intros [= <-].
Qed.

Lemma narrativeStage_counts anthropic JSON_parse toNumber env c report requests :
  narrativeStage anthropic JSON_parse toNumber env c = (Normal report, requests) ->
  countsOf report = countsOf c.
Proof.
  unfold narrativeStage.
  destruct (bool_decide (env !! "SKIP_AI_ANALYSIS" = Some "true"));
    [by intros [= <- _] |].
  destruct (generateDetailedAIAnalysis anthropic JSON_parse env c)
    as [detailed detailedRequests].
  destruct (if truthyOpt detailed then detailed else None) as [analysis |].
  - destruct (getProp analysis "contributors") as [[contributors |] |]; cbn;
      [| by intros [= <- _] | done].
    destruct (truthy contributors); [| by intros [= <- _]].
    intros [= Hfold _].
    apply (foldC_keeps countsOf) in Hfold; [done |].
    intros. by eapply gradeFromAnalysis_counts.
  - destruct (generateAIAnalysis anthropic JSON_parse env c) as [basic more].
    destruct (if truthyOpt basic then basic else None); by intros [= <- _].
Qed.

Lemma sortStable_length {A} (comparator : A -> A -> Z) (array : list A) :
  length (sortStable comparator array) = length array.
Proof. apply Permutation_length, sortStable_Permutation. Qed.

Lemma topContributors_nil usersObj : topContributors usersObj = [] <-> usersObj = ∅.
Proof.
  unfold topContributors. rewrite <- map_to_list_empty_iff.
  rewrite <- !length_zero_iff_nil, length_take, sortStable_length. lia.
Qed.

Lemma analysisWith_no_contributors anthropic JSON_parse kind env c :
  users c = ∅ ->
  analysisWith anthropic JSON_parse kind env c = (Some noContributionsAnalysis, []).
Proof.
  intros Hempty. unfold analysisWith.
  apply topContributors_nil in Hempty. by rewrite Hempty.
Qed.

Lemma requestAnalysis_fails anthropic JSON_parse kind :
  RequestFails anthropic JSON_parse kind ->
  requestAnalysis anthropic JSON_parse kind = None.
Proof.
  unfold requestAnalysis.
  intros [Hcall | content Hcall Hnone | content text Hcall Htext Hparse];
    rewrite Hcall; [done | by rewrite Hnone | by rewrite Htext].
Qed.

Lemma analysisWith_unavailable anthropic JSON_parse kind env c :
  users c <> ∅ ->
  AnalysisUnavailable anthropic JSON_parse env ->
  (analysisWith anthropic JSON_parse kind env c).1 = None.
Proof.
  intros Hsome Hdown. unfold analysisWith.
  destruct (lengthZ (topContributors (users c)) =? 0) eqn:Hlen.
  { apply Z.eqb_eq in Hlen. unfold lengthZ in Hlen.
    destruct Hsome. apply topContributors_nil, length_zero_iff_nil. lia. }
  destruct Hdown as [Hkey | [Hkey | Hfail]].
  - by rewrite Hkey.
  - by rewrite Hkey.
  - destruct (truthyString _); [| done]. cbn.
    by apply requestAnalysis_fails.
Qed.

Lemma narrativeStage_unavailable anthropic JSON_parse toNumber env c :
  users c <> ∅ ->
  AnalysisUnavailable anthropic JSON_parse env ->
  (narrativeStage anthropic JSON_parse toNumber env c).1 = Normal c.
Proof.
  intros Hsome Hdown. unfold narrativeStage.
  destruct (bool_decide (env !! "SKIP_AI_ANALYSIS" = Some "true")); [done |].
  unfold generateDetailedAIAnalysis, generateAIAnalysis.
  pose proof (analysisWith_unavailable anthropic JSON_parse DetailedPrompt
                env c Hsome Hdown) as Hdetailed.
  pose proof (analysisWith_unavailable anthropic JSON_parse BasicPrompt
                env c Hsome Hdown) as Hbasic.
  destruct (analysisWith anthropic JSON_parse DetailedPrompt env c)
    as [detailed requests].
  destruct (analysisWith anthropic JSON_parse BasicPrompt env c)
    as [basic more].
  cbn in Hdetailed, Hbasic. by subst.
Qed.

Lemma narrativeStage_skipped anthropic JSON_parse toNumber env c :
  env !! "SKIP_AI_ANALYSIS" = Some "true" ->
  narrativeStage anthropic JSON_parse toNumber env c = (Normal c, []).
Proof.
  intros Hskip. unfold narrativeStage. by rewrite bool_decide_eq_true_2.
Qed.

Lemma narrativeStage_no_contributors anthropic JSON_parse toNumber env c :
  users c = ∅ ->
  env !! "SKIP_AI_ANALYSIS" <> Some "true" ->
  narrativeStage anthropic JSON_parse toNumber env c
  = (Normal (setAiAnalysis noContributionsAnalysis c), []).
Proof.
  intros Hempty Hrun. unfold narrativeStage.
  rewrite bool_decide_eq_false_2 by done.
  unfold generateDetailedAIAnalysis.
  by rewrite analysisWith_no_contributors.
Qed.

(** The skip flag of the narrative stage is read by that stage only. *)
Lemma scored_skip_flag fetched getCommit completionOrder env REPOS since until value :
  scored fetched getCommit completionOrder
    (<["SKIP_AI_ANALYSIS" := value]> env) REPOS since until
  = scored fetched getCommit completionOrder env REPOS since until.
Proof.
  unfold scored, aggregate, reposToProcess, isMemoryOptimized.
  by rewrite !lookup_insert_ne.
Qed.

Example demoReport_alice :
  (fun report => UserStats.activityScore <$> users report !! "alice")
    <$> (match demoReport ∅ [repo_o_a; repo_o_b] with
         | Normal report => Some report
         | Throw _ => None
         end)
  = Some (Some 12).
Proof. by vm_compute. Qed.

(** ** The completeness invariant *)

(** C2, as amended: when the repositories a run processes (all configured
    ones, or the prefix kept in memory-optimized mode) have pairwise
    distinct [owner/repo] keys, every report the run returns has
    [summary.totalCommits] equal to the sum of [repositories[r].commits]
    and [summary.totalPRs] equal to the sum of
    [repositories[r].pullRequests], in whatever order the fetches of a
    chunk resolve. *)
Theorem report_totals_are_sums
    (fetched : RepoConfig -> RepoEvents)
    (getCommit : RepoConfig -> string -> option (list FileChange))
    (completionOrder : list RepoConfig -> list RepoConfig)
    (anthropic : PromptKind -> option string)
    (JSON_parse : string -> option json) (toNumber : json -> option Q)
    (env : Env) (REPOS : list RepoConfig) (since until : string)
    (report : Contributions) :
  (forall chunk, completionOrder chunk ≡ₚ chunk) ->
  NoDup (repoKeyOf <$> reposToProcess env REPOS) ->
  generateContributionReport fetched getCommit completionOrder anthropic
    JSON_parse toNumber env REPOS since until = Normal report ->
  Summary.totalCommits (summary report) = sumOfCommits (repositories report)
  /\ Summary.totalPRs (summary report) = sumOfPullRequests (repositories report).
Proof.
  intros Hperm Hnd Hreport.
  unfold generateContributionReport, generateContributionReport_run in Hreport.
  destruct (narrativeStage anthropic JSON_parse toNumber env
              (scored fetched getCommit completionOrder env REPOS since until))
    as [completion requests] eqn:Hstage.
  cbn in Hreport. subst completion.
  apply narrativeStage_counts in Hstage.
  destruct (aggregate_inv fetched getCommit completionOrder env REPOS since until
              Hperm Hnd) as (done & Hcommits & Hprs & _).
  rewrite sumOfCommits_counts, sumOfPullRequests_counts.
  change (repoCounts <$> repositories report) with (countsOf report).2.
  change (Summary.totalCommits (summary report)) with (countsOf report).1.1.
  change (Summary.totalPRs (summary report)) with (countsOf report).1.2.
  rewrite Hstage. split; assumption.
Qed.

Lemma report_totals_are_sums_witness :
  Summary.totalCommits (summary (demoScored ∅ [repo_o_a; repo_o_b]))
  = sumOfCommits (repositories (demoScored ∅ [repo_o_a; repo_o_b]))
  /\ Summary.totalPRs (summary (demoScored ∅ [repo_o_a; repo_o_b]))
     = sumOfPullRequests (repositories (demoScored ∅ [repo_o_a; repo_o_b])).
Proof.
  apply (report_totals_are_sums demoFetched demoGetCommit inOrder unreachable
           refuseAll numberOf ∅ [repo_o_a; repo_o_b] "since" "until").
  - intros chunk. reflexivity.
  - apply (bool_decide_unpack _). vm_compute. exact I.
  - vm_compute. reflexivity.
Defined.

(** In memory-optimized mode with [MAX_REPOS=1] only the first repository
    in priority order is processed, and the totals are those of the one
    entry of the map. *)
Example memory_optimized_prefix :
  let env : Env := <["MAX_REPOS" := "1"]> {["MEMORY_OPTIMIZED" := "true"]} in
  reposToProcess env
    [repo_o_b; {| owner := "arch-network"; repo := "arch-network" |}; repo_o_a]
  = [{| owner := "arch-network"; repo := "arch-network" |}]
  /\ (fun report => (Summary.totalCommits (summary report),
                     sumOfCommits (repositories report),
                     fst <$> map_to_list (repositories report)))
       (demoScored env [repo_o_a; repo_o_b])
     = (3, 3, ["o/a"]).
Proof. split; by vm_compute. Qed.

(** C2, the claim as stated fails: with one repository configured twice,
    its three commits and its pull request are added to the summary twice
    and stored under the one key once. *)
Lemma duplicate_repository_counted_twice :
  exists report,
    demoReport ∅ [repo_o_a; repo_o_a] = Normal report
    /\ Summary.totalCommits (summary report) = 6
    /\ sumOfCommits (repositories report) = 3
    /\ Summary.totalPRs (summary report) = 2
    /\ sumOfPullRequests (repositories report) = 1.
Proof.
  eexists. split; [vm_compute; reflexivity |]. repeat split; by vm_compute.
Qed.

(** ** The zero-fill invariant *)

(** C4: the code at a failing input.  With [o/a] and [o/b] configured and
    all of [alice]'s activity in [o/a], the report lists both repositories
    in its summary, and [alice]'s per-repository map has an entry for
    [o/a] and none for [o/b]. *)
Theorem user_without_entry_for_idle_repository :
  exists report user,
    demoReport ∅ [repo_o_a; repo_o_b] = Normal report
    /\ Summary.repositories (summary report) = ["o/a"; "o/b"]
    /\ users report !! "alice" = Some user
    /\ is_Some (UserStats.repositories user !! "o/a")
    /\ UserStats.repositories user !! "o/b" = None.
Proof.
  eexists _, _. split; [vm_compute; reflexivity |].
  split; [by vm_compute |].
  split; [vm_compute; reflexivity |].
  split; [| by vm_compute].
  eexists. vm_compute. reflexivity.
Qed.

(** [initializeUserStats] creates the entry of the repository it is given
    and of no other. *)
Lemma initializeUserStats_one_entry username repoKey other :
  truthyString repoKey = true ->
  inherited username = false -> inherited repoKey = false ->
  other <> repoKey ->
  exists usersObj user,
    initializeUserStats ∅ username (Some repoKey) = Normal usersObj
    /\ usersObj !! username = Some user
    /\ UserStats.repositories user !! repoKey = Some UserRepoStats.zero
    /\ UserStats.repositories user !! other = None.
Proof.
  intros Htruthy Hname Hkey Hother.
  unfold initializeUserStats, hasUser, hasUserRepo.
  rewrite lookup_empty, Hname, Htruthy. cbn. rewrite lookup_insert_eq. cbn.
  rewrite lookup_empty, Hkey. cbn.
  eexists _, _. split; [reflexivity |].
  rewrite lookup_alter_eq, lookup_insert_eq. cbn.
  split; [reflexivity |]. cbn.
  by rewrite lookup_insert_eq, lookup_insert_ne, lookup_empty.
Qed.

(** Under the name of a member of [Object.prototype] it creates nothing
    and, given a repository, throws. *)
Lemma initializeUserStats_inherited_name username repoKey :
  truthyString repoKey = true -> inherited username = true ->
  initializeUserStats ∅ username None = Normal ∅
  /\ initializeUserStats ∅ username (Some repoKey) = Throw TypeError.
Proof.
  intros Htruthy Hname. unfold initializeUserStats, hasUser.
  rewrite lookup_empty, Hname, Htruthy. cbn. by rewrite lookup_empty.
Qed.

(** ** Degradation of the narrative stage *)

(** What does degrade as the specification says: when at least one
    contributor recorded activity, nothing of the processing of a
    repository is abandoned and the narrative stage is unavailable (no API
    key, or every request fails, by a network error or for want of
    parseable JSON in the answer), [generateContributionReport] returns
    normally, the report has no [aiAnalysis], and it is the very report a
    run with the stage skipped returns. *)
Lemma unavailable_stage_leaves_report
    (fetched : RepoConfig -> RepoEvents)
    (getCommit : RepoConfig -> string -> option (list FileChange))
    (completionOrder : list RepoConfig -> list RepoConfig)
    (anthropic : PromptKind -> option string)
    (JSON_parse : string -> option json) (toNumber : json -> option Q)
    (env : Env) (REPOS : list RepoConfig) (since until : string) :
  NothingAbandoned fetched ->
  users (scored fetched getCommit completionOrder env REPOS since until) <> ∅ ->
  AnalysisUnavailable anthropic JSON_parse env ->
  exists report,
    generateContributionReport fetched getCommit completionOrder anthropic
      JSON_parse toNumber env REPOS since until = Normal report
    /\ aiAnalysis report = None
    /\ generateContributionReport fetched getCommit completionOrder anthropic
         JSON_parse toNumber (<["SKIP_AI_ANALYSIS" := "true"]> env)
         REPOS since until = Normal report.
Proof.
  intros _ Hsome Hdown.
  exists (scored fetched getCommit completionOrder env REPOS since until).
  unfold generateContributionReport, generateContributionReport_run.
  split; [by apply narrativeStage_unavailable |].
  split.
  - unfold scored; cbn. apply aiAnalysis_aggregate.
  - rewrite scored_skip_flag, narrativeStage_skipped; [done |].
    apply lookup_insert_eq.
Qed.

(** What does not: an answer that parses but holds [null] where the
    analysis of a contributor should be.  The loop that copies the quality
    grades reads [codeQualityScore] of that entry for every name that
    [contributions.users] answers to. *)
Lemma gradeFromAnalysis_null_entry toNumber c username :
  hasUser (users c) username || inherited username = true ->
  gradeFromAnalysis toNumber c (username, JNull) = Throw TypeError.
Proof. intros Hfound. unfold gradeFromAnalysis. by rewrite Hfound. Qed.

(** The JSON text is what the analysis functions find in the answer of
    the service. *)
Example answersInProse_json :
  extractJson <$> answersInProse DetailedPrompt = Some (Some nullEntryText).
Proof. by vm_compute. Qed.

(** C7: the code at a failing input.  The service answers the detailed
    prompt, and the JSON object in its answer lists [alice], a contributor
    of the week, with [null] in place of her analysis.  The analysis is
    attached, the grade loop reads [codeQualityScore] of [null], and the
    [TypeError] leaves [generateContributionReport], where no [try] contains
    the loop: no report is returned, while the same run with the stage
    skipped returns the numeric report. *)
Theorem malformed_analysis_ends_the_run :
  generateContributionReport demoFetched demoGetCommit inOrder
    answersInProse parseNullEntry numberOf withKey [repo_o_a; repo_o_b]
    "since" "until"
  = Throw TypeError
  /\ exists numeric,
       generateContributionReport demoFetched demoGetCommit inOrder
         answersInProse parseNullEntry numberOf
         (<["SKIP_AI_ANALYSIS" := "true"]> withKey) [repo_o_a; repo_o_b]
         "since" "until"
       = Normal numeric
       /\ UserStats.totalCommits <$> users numeric !! "alice" = Some 2
       /\ aiAnalysis numeric = None.
Proof.
  split; [by vm_compute |].
  eexists. split; [vm_compute; reflexivity |]. by vm_compute.
Qed.

(** ** The empty period *)

(** C10: when the users map of the contribution data is empty,
    [generateDetailedAIAnalysis] returns the fixed summary with an empty
    contributors map and posts nothing to the service, whatever the
    environment holds (so also without an API key); and unless the stage is
    skipped, [generateContributionReport] returns a report whose
    [aiAnalysis] field holds that result, with the summary, the (empty)
    users and the repository entries of the data. *)
Theorem empty_period_has_fixed_analysis
    (anthropic : PromptKind -> option string)
    (JSON_parse : string -> option json) (toNumber : json -> option Q)
    (env : Env) (contributionData : Contributions) :
  users contributionData = ∅ ->
  generateDetailedAIAnalysis anthropic JSON_parse env contributionData
  = (Some
       (JObj
          [ ("summary",
             JStr "No significant contributions found in the analyzed repositories during this period.");
            ("contributors", JObj []) ]),
     [])
  /\ (env !! "SKIP_AI_ANALYSIS" <> Some "true" ->
      forall fetched getCommit completionOrder REPOS since until,
        scored fetched getCommit completionOrder env REPOS since until
        = contributionData ->
        generateContributionReport_run fetched getCommit completionOrder
          anthropic JSON_parse toNumber env REPOS since until
        = (Normal (setAiAnalysis noContributionsAnalysis contributionData), [])
        /\ exists report,
             generateContributionReport fetched getCommit completionOrder
               anthropic JSON_parse toNumber env REPOS since until
             = Normal report
             /\ aiAnalysis report
                = Some
                    (JObj
                       [ ("summary",
                          JStr "No significant contributions found in the analyzed repositories during this period.");
                         ("contributors", JObj []) ])
             /\ summary report = summary contributionData
             /\ users report = ∅
             /\ repositories report = repositories contributionData).
Proof.
  intros Hempty. split.
  - unfold generateDetailedAIAnalysis. by rewrite analysisWith_no_contributors.
  - intros Hrun fetched getCommit completionOrder REPOS since until Hscored.
    assert (generateContributionReport_run fetched getCommit completionOrder
              anthropic JSON_parse toNumber env REPOS since until
            = (Normal (setAiAnalysis noContributionsAnalysis contributionData), []))
      as Hreport.
    { unfold generateContributionReport_run. rewrite Hscored.
      by apply narrativeStage_no_contributors. }
    split; [exact Hreport |].
    exists (setAiAnalysis noContributionsAnalysis contributionData).
    unfold generateContributionReport. rewrite Hreport.
    by repeat split.
Qed.

Lemma empty_period_has_fixed_analysis_witness :
  generateDetailedAIAnalysis unreachable refuseAll ∅ (demoScored ∅ [repo_o_b])
  = (Some noContributionsAnalysis, [])
  /\ ((∅ : Env) !! "SKIP_AI_ANALYSIS" <> Some "true" ->
      forall fetched getCommit completionOrder REPOS since until,
        scored fetched getCommit completionOrder ∅ REPOS since until
        = demoScored ∅ [repo_o_b] ->
        generateContributionReport_run fetched getCommit completionOrder
          unreachable refuseAll numberOf ∅ REPOS since until
        = (Normal (setAiAnalysis noContributionsAnalysis (demoScored ∅ [repo_o_b])),
           [])
        /\ exists report,
             generateContributionReport fetched getCommit completionOrder
               unreachable refuseAll numberOf ∅ REPOS since until
             = Normal report
             /\ aiAnalysis report
                = Some
                    (JObj
                       [ ("summary",
                          JStr "No significant contributions found in the analyzed repositories during this period.");
                         ("contributors", JObj []) ])
             /\ summary report = summary (demoScored ∅ [repo_o_b])
             /\ users report = ∅
             /\ repositories report = repositories (demoScored ∅ [repo_o_b])).
Proof.
  apply (empty_period_has_fixed_analysis unreachable refuseAll numberOf ∅
           (demoScored ∅ [repo_o_b])).
  vm_compute. reflexivity.
Defined.

(** The run of the small world with the idle repository alone: no request
    is posted and the fixed analysis is attached. *)
Example empty_period_run :
  generateContributionReport_run demoFetched demoGetCommit inOrder
    unreachable refuseAll numberOf ∅ [repo_o_b] "since" "until"
  = (Normal (setAiAnalysis noContributionsAnalysis (demoScored ∅ [repo_o_b])), []).
Proof. vm_compute. reflexivity. Qed.

(** ** Further properties of the pipeline *)

Lemma chunkArray_fuel_slices {A} (fuel : nat) (array : list A) (chunkSize : nat) :
  (0 < chunkSize)%nat -> (length array <= fuel)%nat ->
  length (chunkArray_fuel fuel array chunkSize)
  = ((length array + chunkSize - 1) / chunkSize)%nat
  /\ forall i chunk,
       chunkArray_fuel fuel array chunkSize !! i = Some chunk ->
       chunk = take chunkSize (drop (i * chunkSize) array)
       /\ (0 < length chunk)%nat.
Proof.
  intros Hsize. revert array.
  induction fuel as [|fuel IH]; intros array Hfuel.
  - destruct array; [|simpl in Hfuel; lia]. cbn.
    split; [|intros i chunk Hi; rewrite lookup_nil in Hi; done].
    symmetry. apply Nat.div_small. lia.
  - destruct array as [|x rest].
    + cbn. split; [|intros i chunk Hi; rewrite lookup_nil in Hi; done].
      symmetry. apply Nat.div_small. lia.
    + cbn [chunkArray_fuel].
      destruct (IH (drop chunkSize (x :: rest))) as [IHlen IHget].
      { rewrite length_drop. simpl in *. lia. }
      split.
      * cbn [length]. rewrite IHlen, length_drop. cbn [length].
        generalize (length rest) as m. intros m.
        clear IHlen IHget IH Hfuel.
        destruct (decide (S m <= chunkSize)%nat) as [Hle|Hgt].
        -- replace (S m - chunkSize)%nat with O by lia.
           rewrite (Nat.div_small (0 + chunkSize - 1)) by lia.
           apply (Nat.div_unique _ _ 1 m); lia.
        -- assert (S m + chunkSize - 1 = (S m - chunkSize + chunkSize - 1) + 1 * chunkSize)%nat
             as -> by lia.
           rewrite Nat.div_add by lia. lia.
      * intros [|i] chunk Hi.
        -- cbn in Hi. simplify_eq. split; [done|].
           rewrite length_take. simpl. lia.
        -- cbn [lookup] in Hi. change ((take chunkSize (x :: rest) :: chunkArray_fuel fuel (drop chunkSize (x :: rest)) chunkSize) !! S i) with (chunkArray_fuel fuel (drop chunkSize (x :: rest)) chunkSize !! i) in Hi.
           apply IHget in Hi as [Hchunk Hpos]. split; [|exact Hpos].
           rewrite Hchunk, drop_drop. reflexivity.
Qed.

(** X1 (chunkArray): for a positive chunk size the chunks are the
    consecutive slices [array.slice(i * chunkSize, (i + 1) * chunkSize)],
    none of them empty; there are [ceil(array.length / chunkSize)] of
    them, and put end to end they give the array back. *)
Theorem chunkArray_slices {A} (array : list A) (chunkSize : nat) :
  (0 < chunkSize)%nat ->
  length (chunkArray array chunkSize)
  = ((length array + chunkSize - 1) / chunkSize)%nat
  /\ (forall i chunk,
         chunkArray array chunkSize !! i = Some chunk ->
         chunk = take chunkSize (drop (i * chunkSize) array)
         /\ (0 < length chunk)%nat)
  /\ concat (chunkArray array chunkSize) = array.
Proof.
  intros Hsize.
  destruct (chunkArray_fuel_slices (length array) array chunkSize Hsize) as [Hlen Hget];
    [done|].
  split; [exact Hlen|]. split; [exact Hget|].
  by apply chunkArray_concat.
Qed.

Lemma chunkArray_slices_witness :
  length (chunkArray ["a"; "b"; "c"; "d"; "e"; "f"; "g"] 5) = 2%nat
  /\ (forall i chunk,
         chunkArray ["a"; "b"; "c"; "d"; "e"; "f"; "g"] 5 !! i = Some chunk ->
         chunk = take 5 (drop (i * 5) ["a"; "b"; "c"; "d"; "e"; "f"; "g"])
         /\ (0 < length chunk)%nat)
  /\ concat (chunkArray ["a"; "b"; "c"; "d"; "e"; "f"; "g"] 5)
     = ["a"; "b"; "c"; "d"; "e"; "f"; "g"].
Proof.
  apply (chunkArray_slices ["a"; "b"; "c"; "d"; "e"; "f"; "g"] 5). lia.
Defined.

(** X2 (apiCache.get, apiCache.set): an entry set at one time is served,
    with the cache unchanged, at any time up to [CACHE_TTL] later; read
    after that it is deleted and [null] comes back, as it does at every
    later read; and setting a key does not change what is read under
    another key. *)
Theorem apiCache_entry_lives_for_ttl
    (cache : ApiCache) (key : string) (data : list Commit) (setAt readAt : Z) :
  apiCache_get (apiCache_set cache key data setAt) key readAt
  = (if readAt >? setAt + CACHE_TTL then (None, delete key cache)
     else (Some data, apiCache_set cache key data setAt))
  /\ (setAt + CACHE_TTL < readAt ->
      forall again,
        fst (apiCache_get
               (snd (apiCache_get (apiCache_set cache key data setAt) key readAt))
               key again)
        = None)
  /\ (forall other,
         other <> key ->
         fst (apiCache_get (apiCache_set cache key data setAt) other readAt)
         = fst (apiCache_get cache other readAt)).
Proof.
  assert (apiCache_get (apiCache_set cache key data setAt) key readAt
          = (if readAt >? setAt + CACHE_TTL then (None, delete key cache)
             else (Some data, apiCache_set cache key data setAt))) as Hget.
  { unfold apiCache_get, apiCache_set. rewrite lookup_insert_eq. cbn [expiresAt item_data].
    destruct (readAt >? setAt + CACHE_TTL); [|done].
    by rewrite delete_insert_eq. }
  split; [exact Hget|]. split.
  - intros Hlate again. rewrite Hget.
    destruct (Z.gtb_spec readAt (setAt + CACHE_TTL)); [|lia].
    cbn [snd]. unfold apiCache_get. by rewrite lookup_delete_eq.
  - intros other Hother. unfold apiCache_get, apiCache_set.
    rewrite lookup_insert_ne by congruence.
    destruct (cache !! other) as [item|]; [|done].
    by destruct (readAt >? expiresAt item).
Qed.

Lemma lengthZ_app {A} (l k : list A) : lengthZ (l ++ k) = lengthZ l + lengthZ k.
Proof. unfold lengthZ. rewrite length_app. lia. Qed.

Lemma lengthZ_nonneg {A} (l : list A) : 0 <= lengthZ l.
Proof. unfold lengthZ. lia. Qed.

Lemma fetchCommitsForBranch_pages_budget script pageSize maxPages maxRetries :
  0 <= pageSize ->
  smallPages pageSize script ->
  forall now allBranchCommits page retries events fetch,
    1 <= page <= maxPages ->
    lengthZ allBranchCommits <= (page - 1) * pageSize ->
    fetchCommitsForBranch_pages script pageSize (Some maxPages) maxRetries
      now allBranchCommits page retries events = Some fetch ->
    lengthZ (returned fetch) <= maxPages * pageSize.
Proof.
  intros Hsize Hsmall.
  induction Hsmall as [|exchange script Hx Hsmall IH];
    intros now allBranchCommits page retries events fetch Hpage Hall Hrun;
    [done|].
  cbn [fetchCommitsForBranch_pages] in Hrun.
  destruct (outcome exchange) as [data|error].
  - destruct (lengthZ data =? 0).
    + unfold loopControl in Hrun. cbn [negb andb] in Hrun.
      simplify_eq. cbn [returned]. nia.
    + unfold loopControl in Hrun. cbn [negb andb] in Hrun.
      destruct (andb (negb (lengthZ data <? pageSize)) (page + 1 <=? maxPages)) eqn:Hmore.
      * apply andb_prop in Hmore as [_ Hleft]. apply Z.leb_le in Hleft.
        destruct (0 <? maxRetries); [|done].
        eapply IH in Hrun; [done|lia|]. rewrite lengthZ_app. lia.
      * simplify_eq. cbn [returned]. rewrite lengthZ_app. nia.
  - unfold loopControl in Hrun. cbn [negb andb] in Hrun.
    assert ((page <=? maxPages) = true) as Hleft by (apply Z.leb_le; lia).
    rewrite Hleft in Hrun.
    repeat case_match; simplify_eq; cbn [returned]; try nia;
      try (eapply IH in Hrun; [done|lia|lia]).
Qed.

Lemma branchPageSize_nonneg env : 0 <= branchPageSize env.
Proof. unfold branchPageSize. destruct (isMemoryOptimized env); lia. Qed.

(** X3 (fetchCommitsForBranch): a fetch that went to the API leaves its
    result in the cache, so a later call for the same repository, branch
    and window, made no later than [CACHE_TTL] after the first one
    finished, returns the same commits without any request, whatever the
    environment and the retry budget then are. *)
Theorem fetchCommitsForBranch_served_from_cache
    (parseInt : string -> option Z) (env env' : Env) (cache cache' : ApiCache)
    (now later : Z) (repo : RepoRef) (branch sinceIso untilIso : string)
    (maxRetries maxRetries' : Z) (script script' : list (Exchange Commit))
    (fetch : Fetch Commit) :
  fetchCommitsForBranch parseInt env cache now repo branch sinceIso untilIso
    maxRetries script = Some (fetch, cache') ->
  trace fetch <> [] ->
  later <= finishedAt fetch + CACHE_TTL ->
  fetchCommitsForBranch parseInt env' cache' later repo branch sinceIso untilIso
    maxRetries' script'
  = Some ({| returned := returned fetch; trace := []; finishedAt := later |},
          cache').
Proof.
  intros Hfirst Htrace Hlater.
  assert (exists cache0,
             cache' = apiCache_set cache0
                        (branchCacheKey repo branch sinceIso untilIso)
                        (returned fetch) (finishedAt fetch)) as [cache0 ->].
  { unfold fetchCommitsForBranch in Hfirst.
    destruct (apiCache_get cache _ now) as [[cached|] cache1].
    - by simplify_eq.
    - destruct script as [|probe script]; [done|].
      repeat case_match; simplify_eq; by eexists. }
  unfold fetchCommitsForBranch.
  destruct (apiCache_entry_lives_for_ttl cache0
              (branchCacheKey repo branch sinceIso untilIso)
              (returned fetch) (finishedAt fetch) later) as [-> _].
  destruct (Z.gtb_spec later (finishedAt fetch + CACHE_TTL)); [lia|done].
Qed.

Lemma fetchCommitsForBranch_served_from_cache_witness :
  fetchCommitsForBranch parseIntDecimal ∅
    (apiCache_set ∅ (branchCacheKey repo_o_r "main" "s" "u") [commit_c1] 0)
    CACHE_TTL repo_o_r "main" "s" "u" 0 []
  = Some ({| returned := [commit_c1]; trace := []; finishedAt := CACHE_TTL |},
          apiCache_set ∅ (branchCacheKey repo_o_r "main" "s" "u") [commit_c1] 0).
Proof.
  apply (fetchCommitsForBranch_served_from_cache parseIntDecimal ∅ ∅ ∅ _ 0
           CACHE_TTL repo_o_r "main" "s" "u" 3 0
           [answered [commit_c1]; answered [commit_c1]] []
           {| returned := [commit_c1]; trace := [Probed 0; Requested 0 1];
              finishedAt := 0 |}).
  - vm_compute. reflexivity.
  - simpl. discriminate.
  - simpl. unfold CACHE_TTL. lia.
Defined.

(** X4 (fetchCommitsForBranch): when no response holds more commits than
    were asked for per page, a fetch that went to the API returns at most
    [maxPages * pageSize] commits: 200 in memory-optimized mode, and none
    at all when [MAX_BRANCH_PAGES] does not spell a number. *)
Theorem fetchCommitsForBranch_page_budget
    (parseInt : string -> option Z) (env : Env) (cache cache' : ApiCache)
    (now : Z) (repo : RepoRef) (branch sinceIso untilIso : string)
    (maxRetries : Z) (script : list (Exchange Commit)) (fetch : Fetch Commit) :
  fetchCommitsForBranch parseInt env cache now repo branch sinceIso untilIso
    maxRetries script = Some (fetch, cache') ->
  trace fetch <> [] ->
  smallPages (branchPageSize env) script ->
  lengthZ (returned fetch)
  <= pageBudget (branchMaxPages parseInt env) * branchPageSize env
  /\ (isMemoryOptimized env = true -> lengthZ (returned fetch) <= 200).
Proof.
  intros Hrun Htrace Hsmall.
  assert (lengthZ (returned fetch)
          <= pageBudget (branchMaxPages parseInt env) * branchPageSize env) as Hbound.
  { pose proof (branchPageSize_nonneg env) as Hsize.
    assert (0 <= pageBudget (branchMaxPages parseInt env) * branchPageSize env) as Hzero.
    { unfold pageBudget. destruct (branchMaxPages parseInt env); nia. }
    unfold fetchCommitsForBranch in Hrun.
    destruct (apiCache_get cache _ now) as [[cached|] cache1].
    - by simplify_eq.
    - destruct script as [|probe script]; [done|].
      apply Forall_cons in Hsmall as [_ Hsmall].
      destruct (outcome probe) as [data|error]; [|by simplify_eq].
      destruct (lengthZ data =? 0); [by simplify_eq|].
      destruct (branchMaxPages parseInt env) as [maxPages|]; [|by simplify_eq].
      destruct (Z.leb_spec 1 maxPages); [|by simplify_eq].
      destruct (0 <? maxRetries); [|done].
      destruct (fetchCommitsForBranch_pages _ _ _ _ _ _ _ _ _) as [fetched|] eqn:Hpages;
        [|done].
      simplify_eq.
      eapply fetchCommitsForBranch_pages_budget in Hpages; [|done..|lia|done].
      unfold pageBudget. lia. }
  split; [exact Hbound|].
  intros Hmode. revert Hbound.
  unfold branchMaxPages, branchPageSize. rewrite Hmode. cbn. lia.
Qed.

Lemma fetchCommitsForBranch_page_budget_witness :
  lengthZ [commit_c1] <= pageBudget (branchMaxPages parseIntDecimal ∅) * branchPageSize ∅
  /\ (isMemoryOptimized ∅ = true -> lengthZ [commit_c1] <= 200).
Proof.
  apply (fetchCommitsForBranch_page_budget parseIntDecimal ∅ ∅
           (apiCache_set ∅ (branchCacheKey repo_o_r "main" "s" "u") [commit_c1] 0)
           0 repo_o_r "main" "s" "u" 3
           [answered [commit_c1]; answered [commit_c1]]
           {| returned := [commit_c1]; trace := [Probed 0; Requested 0 1];
              finishedAt := 0 |}).
  - vm_compute. reflexivity.
  - simpl. discriminate.
  - repeat constructor; vm_compute; discriminate.
Defined.

Lemma requestedPages_app events more :
  requestedPages (events ++ more) = requestedPages events ++ requestedPages more.
Proof. unfold requestedPages. apply omap_app. Qed.

Lemma prCreatedWithin_filter since until allPRs data :
  Forall (fun pr => since <= pr_created_at pr <= until) allPRs ->
  Forall (fun pr => since <= pr_created_at pr <= until)
    (allPRs ++ List.filter (prCreatedWithin since until) data).
Proof.
  intros Hall. apply Forall_app. split; [done|].
  apply Forall_forall. intros pr Hpr.
  apply list_elem_of_In, filter_In in Hpr as [_ Hpr].
  unfold prCreatedWithin in Hpr. lia.
Qed.

Lemma getPullRequests_pages_window script since until :
  forall now allPRs page events fetch,
    getPullRequests_pages script since until now allPRs page events = Some fetch ->
    Forall (fun pr => since <= pr_created_at pr <= until) allPRs ->
    Forall (fun pr => since <= pr_created_at pr <= until) (returned fetch).
Proof.
  induction script as [|exchange script IH];
    intros now allPRs page events fetch Hrun Hall; [done|].
  cbn [getPullRequests_pages] in Hrun.
  pose proof (prCreatedWithin_filter since until allPRs) as Hfilter.
  destruct (outcome exchange) as [data|error].
  - destruct (lengthZ data =? 0); [by simplify_eq|].
    destruct (lengthZ data <? 100).
    + simplify_eq. cbn. by apply Hfilter.
    + eapply IH; [exact Hrun|]. by apply Hfilter.
  - repeat case_match; by simplify_eq.
Qed.

Lemma getPullRequests_pages_trace script since until :
  forall now allPRs page events fetch,
    getPullRequests_pages script since until now allPRs page events = Some fetch ->
    exists more,
      trace fetch = events ++ more
      /\ forallb isRequest more = true
      /\ requestedPages more = seqZ page (lengthZ more)
      /\ (0 < length more <= length script)%nat.
Proof.
  induction script as [|exchange script IH];
    intros now allPRs page events fetch Hrun; [done|].
  cbn [getPullRequests_pages] in Hrun.
  assert (forall kept,
             Some {| returned := kept; trace := events ++ [Requested now page];
                     finishedAt := now + Z.of_N (latency exchange) |} = Some fetch ->
             exists more,
               trace fetch = events ++ more
               /\ forallb isRequest more = true
               /\ requestedPages more = seqZ page (lengthZ more)
               /\ (0 < length more <= length (exchange :: script))%nat) as Hstop.
  { intros kept [= <-]. exists [Requested now page]. cbn.
    repeat split; try reflexivity; lia. }
  destruct (outcome exchange) as [data|error].
  - destruct (lengthZ data =? 0); [by eapply Hstop|].
    destruct (lengthZ data <? 100); [by eapply Hstop|].
    apply IH in Hrun as (more & Htrace & Hreq & Hpages & Hlen).
    exists (Requested now page :: more).
    rewrite Htrace, <- app_assoc. cbn [app forallb isRequest andb].
    repeat split; [done| |cbn; lia|cbn; lia].
    change (Requested now page :: more) with ([Requested now page] ++ more).
    rewrite requestedPages_app, Hpages. cbn [requestedPages omap app].
    unfold lengthZ. cbn [length app]. rewrite Nat2Z.inj_succ.
    rewrite (seqZ_cons page) by lia. cbn [app]. f_equal. f_equal; lia.
  - repeat case_match; by eapply Hstop.
Qed.

(** X5 (getPullRequests): every pull request returned was created inside
    the window; the function never waits and never asks for a page a second
    time: what it did is one request for each of the pages 1, 2, ..., n in
    turn, for some n between 1 and the number of answers it had. *)
Theorem getPullRequests_window_and_pages
    (script : list (Exchange PullRequest)) (since until now : Z)
    (fetch : Fetch PullRequest) :
  getPullRequests script since until now = Some fetch ->
  Forall (fun pr => since <= pr_created_at pr <= until) (returned fetch)
  /\ forallb isRequest (trace fetch) = true
  /\ requestedPages (trace fetch) = seqZ 1 (lengthZ (trace fetch))
  /\ (0 < length (trace fetch) <= length script)%nat.
Proof.
  intros Hrun. unfold getPullRequests in Hrun.
  split; [by eapply getPullRequests_pages_window|].
  apply getPullRequests_pages_trace in Hrun
    as (more & Htrace & Hreq & Hpages & Hlen).
  cbn [app] in Htrace. by rewrite Htrace.
Qed.

Lemma getPullRequests_window_and_pages_witness :
  Forall (fun pr => 0 <= pr_created_at pr <= 10) [pr_p1]
  /\ forallb isRequest [Requested 0 1] = true
  /\ requestedPages [Requested 0 1] = seqZ 1 (lengthZ [Requested 0 1])
  /\ (0 < length [Requested 0 1] <= length [answered [pr_early; pr_p1]])%nat.
Proof.
  apply (getPullRequests_window_and_pages [answered [pr_early; pr_p1]] 0 10 0
           {| returned := [pr_p1]; trace := [Requested 0 1]; finishedAt := 0 |}).
  vm_compute. reflexivity.
Defined.

Lemma getIssues_pages_cutoff script until :
  forall now allIssues page attempts events fetch,
    getIssues_pages script until now allIssues page attempts events = Some fetch ->
    Forall (fun issue => issue_created_at issue <= until) allIssues ->
    Forall (fun issue => issue_created_at issue <= until) (returned fetch).
Proof.
  induction script as [|exchange script IH];
    intros now allIssues page attempts events fetch Hrun Hall; [done|].
  cbn [getIssues_pages] in Hrun.
  assert (forall data,
             Forall (fun issue => issue_created_at issue <= until)
               (allIssues ++ List.filter (issueCreatedUpTo until) data)) as Hfilter.
  { intros data. apply Forall_app. split; [done|].
    apply Forall_forall. intros issue Hissue.
    apply list_elem_of_In, filter_In in Hissue as [_ Hissue].
    unfold issueCreatedUpTo in Hissue. lia. }
  unfold loopControl in Hrun.
  repeat case_match; simplify_eq; try done;
    try (eapply IH; [exact Hrun|]; try done; apply Hfilter);
    try apply Hfilter.
Qed.

(** X6 (getIssues): every item returned was created at or before
    [until], whatever the API answered and however many retries and waits
    the fetch went through. *)
Theorem getIssues_returns_nothing_after_until
    (script : list (Exchange Issue)) (until now : Z) (fetch : Fetch Issue) :
  getIssues script until now = Some fetch ->
  Forall (fun issue => issue_created_at issue <= until) (returned fetch).
Proof.
  intros Hrun. eapply getIssues_pages_cutoff; [exact Hrun|]. apply Forall_nil_2.
Qed.

Lemma getIssues_returns_nothing_after_until_witness :
  Forall (fun issue => issue_created_at issue <= 10) [issue_i1].
Proof.
  apply (getIssues_returns_nothing_after_until
           [rejected serverError; answered [issue_late; issue_i1]] 10 0
           {| returned := [issue_i1];
              trace := [Requested 0 1; Slept 0 2000; Requested 2000 1];
              finishedAt := 2000 |}).
  vm_compute. reflexivity.
Defined.

(** X7 (getIssues): three failures in a row on a page, each of a kind
    answered with backoff, end the fetch: it waits 2 s after the first and
    4 s after the second, asks nothing after the third, and returns the
    issues of the pages before. *)
Theorem getIssues_gives_up_after_three_failures
    (script : list (Exchange Issue)) (until now : Z) (allIssues : list Issue)
    (page : Z) (events : list FetchEvent)
    (wait1 wait2 wait3 : N) (error1 error2 error3 : ApiError) :
  backedOffByGetIssues error1 ->
  backedOffByGetIssues error2 ->
  backedOffByGetIssues error3 ->
  getIssues_pages
    ({| latency := wait1; outcome := Failed error1 |}
       :: {| latency := wait2; outcome := Failed error2 |}
       :: {| latency := wait3; outcome := Failed error3 |} :: script)
    until now allIssues page 0 events
  = Some {| returned := allIssues;
            trace :=
              events
                ++ [ Requested now page;
                     Slept (now + Z.of_N wait1) 2000;
                     Requested (now + Z.of_N wait1 + 2000) page;
                     Slept (now + Z.of_N wait1 + 2000 + Z.of_N wait2) 4000;
                     Requested (now + Z.of_N wait1 + 2000 + Z.of_N wait2 + 4000)
                       page ];
            finishedAt :=
              now + Z.of_N wait1 + 2000 + Z.of_N wait2 + 4000 + Z.of_N wait3 |}.
Proof.
  intros (Hsocket1 & Hreset1 & Hlimit1) (Hsocket2 & Hreset2 & Hlimit2)
    (Hsocket3 & Hreset3 & Hlimit3).
  assert (forall error,
             (status error =? 403) && includes (message error) "rate limit" = false
             \/ ratelimit_reset error = None ->
             (if (status error =? 403) && includes (message error) "rate limit"
              then ratelimit_reset error else None) = None) as Hnone.
  { intros error [-> | ->]; [done|]. case_match; reflexivity. }
  cbn [getIssues_pages outcome latency].
  rewrite Hsocket1, Hreset1, Hsocket2, Hreset2, Hsocket3, Hreset3.
  rewrite !Hnone by done. cbn [orb].
  unfold loopControl, getIssues_maxAttempts, backoffWait. cbn.
  rewrite <- !app_assoc. reflexivity.
Qed.

Lemma getIssues_gives_up_after_three_failures_witness :
  getIssues_pages
    [rejected serverError; rejected notFound; rejected unauthorized;
     answered [issue_i1]]
    10 0 [] 1 0 []
  = Some {| returned := [];
            trace := [ Requested 0 1; Slept 0 2000; Requested 2000 1;
                       Slept 2000 4000; Requested 6000 1 ];
            finishedAt := 6000 |}.
Proof.
  apply (getIssues_gives_up_after_three_failures [answered [issue_i1]] 10 0 [] 1 []
           0 0 0 serverError notFound unauthorized);
    (split; [reflexivity | split; [reflexivity | left; reflexivity]]).
Defined.

(** X8 (fetchCommitsForBranch): with the collector's budget of three
    retries, three failures in a row on a page that are not rate-limit
    signals end the page loop: the fetch waits 2 s and 4 s, asks nothing
    after the third failure, and returns the commits of the pages before. *)
Theorem fetchCommitsForBranch_gives_up_after_three_failures
    (script : list (Exchange Commit)) (pageSize : Z) (maxPages : option Z)
    (now : Z) (allBranchCommits : list Commit) (page : Z)
    (events : list FetchEvent)
    (wait1 wait2 wait3 : N) (error1 error2 error3 : ApiError) :
  backedOffByBranchFetch error1 ->
  backedOffByBranchFetch error2 ->
  backedOffByBranchFetch error3 ->
  fetchCommitsForBranch_pages
    ({| latency := wait1; outcome := Failed error1 |}
       :: {| latency := wait2; outcome := Failed error2 |}
       :: {| latency := wait3; outcome := Failed error3 |} :: script)
    pageSize maxPages 3 now allBranchCommits page 0 events
  = Some {| returned := allBranchCommits;
            trace :=
              events
                ++ [ Requested now page;
                     Slept (now + Z.of_N wait1) 2000;
                     Requested (now + Z.of_N wait1 + 2000) page;
                     Slept (now + Z.of_N wait1 + 2000 + Z.of_N wait2) 4000;
                     Requested (now + Z.of_N wait1 + 2000 + Z.of_N wait2 + 4000)
                       page ];
            finishedAt :=
              now + Z.of_N wait1 + 2000 + Z.of_N wait2 + 4000 + Z.of_N wait3 |}.
Proof.
  unfold backedOffByBranchFetch. intros Hplain1 Hplain2 Hplain3.
  cbn [fetchCommitsForBranch_pages outcome latency].
  rewrite Hplain1, Hplain2, Hplain3.
  unfold loopControl, backoffWait. cbn.
  rewrite <- !app_assoc. reflexivity.
Qed.

Lemma fetchCommitsForBranch_gives_up_after_three_failures_witness :
  fetchCommitsForBranch_pages
    [rejected serverError; rejected notFound; rejected unauthorized;
     answered [commit_c2]]
    250 (Some 10) 3 0 [commit_c1] 2 0 []
  = Some {| returned := [commit_c1];
            trace := [ Requested 0 2; Slept 0 2000; Requested 2000 2;
                       Slept 2000 4000; Requested 6000 2 ];
            finishedAt := 6000 |}.
Proof.
  apply (fetchCommitsForBranch_gives_up_after_three_failures [answered [commit_c2]]
           250 (Some 10) 0 [commit_c1] 2 [] 0 0 0
           serverError notFound unauthorized); reflexivity.
Defined.

Lemma Qle_bool_mono (threshold q q' : Q) :
  (q <= q')%Q -> Qle_bool threshold q = true -> Qle_bool threshold q' = true.
Proof.
  intros Hle Hq. apply Qle_bool_iff. apply Qle_bool_iff in Hq.
  by eapply Qle_trans.
Qed.

Lemma convertScoreToGrade_monotone (q q' : Q) :
  (q <= q')%Q ->
  (gradePosition_in qualityGrades (convertScoreToGrade q')
   <= gradePosition_in qualityGrades (convertScoreToGrade q))%nat.
Proof.
  intros Hle. unfold convertScoreToGrade.
  repeat match goal with
         | |- context [Qle_bool ?threshold q] =>
             destruct (Qle_bool threshold q) eqn:?;
             [ rewrite (Qle_bool_mono threshold q q') by done | ]
         end;
    repeat case_match; cbn; lia.
Qed.

Lemma qualityGrades_reached grade :
  grade ∈ qualityGrades -> exists q, convertScoreToGrade q = grade.
Proof.
  unfold qualityGrades. rewrite !elem_of_cons, elem_of_nil.
  intros [-> | [-> | [-> | [-> | [-> | [-> | [-> | [-> | [-> | [-> | [-> | [-> | []]]]]]]]]]]]].
  - by exists (95 # 10)%Q.
  - by exists (90 # 10)%Q.
  - by exists (85 # 10)%Q.
  - by exists (80 # 10)%Q.
  - by exists (75 # 10)%Q.
  - by exists (70 # 10)%Q.
  - by exists (65 # 10)%Q.
  - by exists (60 # 10)%Q.
  - by exists (55 # 10)%Q.
  - by exists (50 # 10)%Q.
  - by exists (40 # 10)%Q.
  - by exists (39 # 10)%Q.
Qed.

(** X9 (convertScoreToGrade): a monotonic step function of the score onto
    exactly twelve grades, A+ down to F: a higher score never gives a worse
    grade, every grade is reached, a score of 9.5 or more is an A+ and a
    score below 4 is an F. *)
Theorem convertScoreToGrade_step_function :
  (forall q q' : Q,
      (q <= q')%Q ->
      (gradePosition_in qualityGrades (convertScoreToGrade q')
       <= gradePosition_in qualityGrades (convertScoreToGrade q))%nat)
  /\ (forall grade,
         grade ∈ qualityGrades <-> exists q, convertScoreToGrade q = grade)
  /\ NoDup qualityGrades
  /\ length qualityGrades = 12%nat
  /\ (forall q : Q, (95 # 10 <= q)%Q -> convertScoreToGrade q = "A+")
  /\ (forall q : Q, (q < 4)%Q -> convertScoreToGrade q = "F").
Proof.
  split; [exact convertScoreToGrade_monotone|].
  split.
  { intros grade. split; [apply qualityGrades_reached|].
    intros [q <-]. unfold convertScoreToGrade, qualityGrades.
    repeat case_match; set_solver. }
  split; [apply (bool_decide_unpack _); vm_compute; exact I|].
  split; [reflexivity|].
  split.
  - intros q Hq. unfold convertScoreToGrade.
    apply Qle_bool_iff in Hq. by rewrite Hq.
  - intros q Hq. unfold convertScoreToGrade.
    repeat match goal with
           | |- context [Qle_bool ?threshold q] =>
               destruct (Qle_bool threshold q) eqn:Hband;
               [ exfalso; apply Qle_bool_iff in Hband;
                 apply (Qlt_irrefl q); eapply Qlt_le_trans; [exact Hq|];
                 eapply Qle_trans; [|exact Hband]; by vm_compute
               | clear Hband ]
           end.
    reflexivity.
Qed.

Lemma sumOver_empty {V} (field : V -> Z) : sumOver field ∅ = 0.
Proof. unfold sumOver. apply map_fold_empty. Qed.

Lemma sumOver_insert_fresh {V} (field : V -> Z) (entries : gmap string V) key entry :
  entries !! key = None ->
  sumOver field (<[key := entry]> entries) = sumOver field entries + field entry.
Proof.
  intros Hfresh. unfold sumOver.
  rewrite map_fold_insert_L; [done | intros; lia | done].
Qed.

Lemma sumOver_insert {V} (field : V -> Z) (entries : gmap string V) key old entry :
  entries !! key = Some old ->
  sumOver field (<[key := entry]> entries)
  = sumOver field entries - field old + field entry.
Proof.
  intros Hold.
  rewrite <- (insert_delete_id entries key old) at 2 by done.
  rewrite <- (insert_delete_eq entries).
  rewrite !sumOver_insert_fresh by apply lookup_delete_eq. lia.
Qed.

Lemma sumOver_alter {V} (field : V -> Z) (change : V -> V)
    (entries : gmap string V) key old :
  entries !! key = Some old ->
  sumOver field (alter change key entries)
  = sumOver field entries - field old + field (change old).
Proof.
  intros Hold. rewrite (alter_present _ _ _ old) by done.
  by apply sumOver_insert.
Qed.

Lemma Updates_relabel dc dp di dc' dp' di' c c' :
  dc = dc' -> dp = dp' -> di = di' ->
  Updates dc dp di c c' -> Updates dc' dp' di' c c'.
Proof. by intros -> -> ->. Qed.

Lemma Updates_one dc dp di c c' : Update dc dp di c c' -> Updates dc dp di c c'.
Proof.
  intros Hstep.
  eapply Updates_relabel; [| | |eapply Updates_more; [exact Hstep|apply Updates_none]];
    lia.
Qed.

Lemma Updates_trans dc dp di dc' dp' di' c1 c2 c3 :
  Updates dc dp di c1 c2 -> Updates dc' dp' di' c2 c3 ->
  Updates (dc + dc') (dp + dp') (di + di') c1 c3.
Proof.
  intros Hfirst. revert dc' dp' di' c3.
  induction Hfirst as [c | dc dp di dc0 dp0 di0 c1 c2 c3' Hstep Hrest IH];
    intros dc' dp' di' c3 Hsecond.
  - done.
  - eapply Updates_relabel;
      [| | |eapply Updates_more; [exact Hstep|apply IH, Hsecond]]; lia.
Qed.

Lemma hasUserRepo_spec usersObj author repoKey :
  hasUserRepo usersObj author repoKey = true
  <-> exists user,
        usersObj !! author = Some user
        /\ is_Some (UserStats.repositories user !! repoKey).
Proof.
  unfold hasUserRepo. split.
  - destruct (usersObj !! author) as [user|]; [|done].
    destruct (UserStats.repositories user !! repoKey) eqn:Hrepo; [|done].
    intros _. exists user. by rewrite Hrepo.
  - intros (user & -> & [entry ->]). done.
Qed.

Lemma hasUserRepo_alter change usersObj changed author repoKey :
  (forall user,
      is_Some (UserStats.repositories user !! repoKey) ->
      is_Some (UserStats.repositories (change user) !! repoKey)) ->
  hasUserRepo usersObj author repoKey = true ->
  hasUserRepo (alter change changed usersObj) author repoKey = true.
Proof.
  intros Hkeep. rewrite !hasUserRepo_spec. intros (user & Huser & Hrepo).
  destruct (decide (author = changed)) as [-> | Hne].
  - exists (change user). rewrite lookup_alter_eq, Huser. split; [done|].
    by apply Hkeep.
  - exists user. by rewrite lookup_alter_ne.
Qed.

Lemma is_Some_alter_lookup {V} (change : V -> V) (entries : gmap string V) key other :
  is_Some (entries !! other) -> is_Some (alter change key entries !! other).
Proof.
  intros [entry Hentry]. destruct (decide (other = key)) as [-> | Hne].
  - rewrite lookup_alter_eq, Hentry. by eexists.
  - rewrite lookup_alter_ne by done. by eexists.
Qed.

Lemma hasUserRepo_ensured repoKey known other :
  is_Some (UserStats.repositories (default UserStats.zero known) !! other)
  \/ other = repoKey ->
  is_Some (UserStats.repositories (ensured repoKey known) !! other).
Proof.
  unfold ensured.
  destruct (UserStats.repositories (default UserStats.zero known) !! repoKey)
    as [entry|] eqn:Hrepo.
  - intros [Hother | ->]; [done|by eexists].
  - cbn. intros [[entry Hother] | ->].
    + destruct (decide (other = repoKey)) as [-> | Hne]; [congruence|].
      rewrite lookup_insert_ne by done. by eexists.
    + rewrite lookup_insert_eq. by eexists.
Qed.

Lemma hasUserRepo_ensureUserStats author repoKey c :
  truthyString repoKey = true ->
  hasUserRepo (users (ensuredUserStats author repoKey c)) author repoKey = true
  /\ forall other otherKey,
       hasUserRepo (users c) other otherKey = true ->
       hasUserRepo (users (ensuredUserStats author repoKey c)) other otherKey = true.
Proof.
  intros Htruthy. unfold ensuredUserStats. cbn. split.
  - apply hasUserRepo_spec. eexists. rewrite lookup_insert_eq. split; [done|].
    apply hasUserRepo_ensured. by right.
  - intros other otherKey. rewrite !hasUserRepo_spec.
    intros (user & Huser & Hrepo).
    destruct (decide (other = author)) as [-> | Hne].
    + eexists. rewrite lookup_insert_eq. split; [done|].
      apply hasUserRepo_ensured. left. by rewrite Huser.
    + exists user. by rewrite lookup_insert_ne.
Qed.

Lemma hasUserRepo_addCommitLines getCommit config author commit c other otherKey :
  hasUserRepo (users c) other otherKey = true ->
  hasUserRepo (users (addCommitLines getCommit config author commit c))
    other otherKey = true.
Proof.
  intros Hhas. unfold addCommitLines.
  destruct (getCommit config (sha commit)); [|done]. cbn.
  apply hasUserRepo_alter; [intros user; apply is_Some_alter_lookup|].
  by apply hasUserRepo_alter.
Qed.

Lemma Update_hasUserRepo dc dp di c c' author repoKey :
  Update dc dp di c c' ->
  hasUserRepo (users c) author repoKey = true ->
  hasUserRepo (users c') author repoKey = true.
Proof.
  intros Hstep Hhas.
  destruct Hstep; cbn; try done.
  - by apply hasUserRepo_ensureUserStats.
  - apply hasUserRepo_alter; [intros user; apply is_Some_alter_lookup|].
    by apply hasUserRepo_alter.
  - apply hasUserRepo_alter; [intros user; apply is_Some_alter_lookup|].
    by apply hasUserRepo_alter.
  - apply hasUserRepo_alter; [intros user; apply is_Some_alter_lookup|].
    by apply hasUserRepo_alter.
  - by apply hasUserRepo_addCommitLines.
Qed.

Lemma Updates_hasUserRepo dc dp di c c' author repoKey :
  Updates dc dp di c c' ->
  hasUserRepo (users c) author repoKey = true ->
  hasUserRepo (users c') author repoKey = true.
Proof.
  induction 1 as [|? ? ? ? ? ? ? ? ? Hstep _ IH]; [done|].
  intros Hhas. eapply IH, Update_hasUserRepo; [exact Hstep|exact Hhas].
Qed.

Lemma commitLines_updates getCommit config author commits c :
  hasUserRepo (users c) author (repoKeyOf config) = true ->
  Updates 0 0 0 c
    (foldl (fun c commit => addCommitLines getCommit config author commit c)
       c commits).
Proof.
  revert c. induction commits as [|commit commits IH]; intros c Hhas; cbn.
  - apply Updates_none.
  - eapply Updates_relabel;
      [| | |eapply Updates_more;
              [by apply (CommitLinesCounted c getCommit config author commit)
              |apply IH; by apply hasUserRepo_addCommitLines]];
      lia.
Qed.

Lemma commitBatches_updates getCommit config author batches c :
  hasUserRepo (users c) author (repoKeyOf config) = true ->
  Updates 0 0 0 c
    (foldl
       (fun c batch =>
          foldl (fun c commit => addCommitLines getCommit config author commit c)
            c batch)
       c batches).
Proof.
  revert c. induction batches as [|batch batches IH]; intros c Hhas; cbn.
  - apply Updates_none.
  - pose proof (commitLines_updates getCommit config author batch c Hhas) as Hbatch.
    eapply Updates_relabel;
      [| | |eapply Updates_trans;
              [exact Hbatch
              |apply IH; eapply Updates_hasUserRepo; [exact Hbatch|exact Hhas]]];
      lia.
Qed.

(** An author whose closure throws is skipped: nothing is booked to a
    user, and the events of the author stay in the gap. *)
Lemma author_not_skipped usersObj author :
  inherited author = false ->
  hasUser usersObj author || negb (inherited author) = true.
Proof. intros ->. apply orb_true_r. Qed.

Lemma processAuthorCommits_updates getCommit config c entry :
  exists skipped,
    Updates (skipped - lengthZ entry.2) 0 0 c
      (processAuthorCommits getCommit config c entry)
    /\ 0 <= skipped
    /\ (inherited entry.1 = false -> skipped = 0).
Proof.
  destruct entry as [author authorCommits]. unfold processAuthorCommits.
  cbn [fst snd].
  pose proof (truthyString_repoKeyOf config) as Htruthy.
  author_cases.
  - exists 0. split; [|done].
    pose proof (hasUserRepo_ensureUserStats author (repoKeyOf config) c Htruthy)
      as [Hhas _].
    pose proof (UserEnsured c author (repoKeyOf config) Htruthy) as Hensure.
    pose proof (UserCommitsCounted _ author (repoKeyOf config)
                  (lengthZ authorCommits) Hhas (lengthZ_nonneg authorCommits))
      as Hcount.
    eapply Updates_relabel;
      [| | |eapply Updates_more;
              [exact Hensure
              |eapply Updates_more;
                 [exact Hcount
                 |apply commitBatches_updates;
                  eapply Update_hasUserRepo; [exact Hcount|exact Hhas]]]];
      lia.
  - exists (lengthZ authorCommits).
    split; [eapply Updates_relabel; [| | |apply Updates_none]; lia|].
    split; [apply lengthZ_nonneg|].
    intros Hordinary. by rewrite author_not_skipped in Hbooked.
Qed.

Lemma processAuthorPRs_updates config c entry :
  exists skipped,
    Updates 0 (skipped - lengthZ entry.2) 0 c (processAuthorPRs config c entry)
    /\ 0 <= skipped
    /\ (inherited entry.1 = false -> skipped = 0).
Proof.
  destruct entry as [author authorPRs]. unfold processAuthorPRs. cbn [fst snd].
  pose proof (truthyString_repoKeyOf config) as Htruthy.
  author_cases.
  - exists 0. split; [|done].
    pose proof (hasUserRepo_ensureUserStats author (repoKeyOf config) c Htruthy)
      as [Hhas _].
    eapply Updates_relabel;
      [| | |eapply Updates_more;
              [exact (UserEnsured c author (repoKeyOf config) Htruthy)
              |apply Updates_one;
               exact (UserPullRequestsCounted _ author (repoKeyOf config)
                        (lengthZ authorPRs) Hhas (lengthZ_nonneg authorPRs))]];
      lia.
  - exists (lengthZ authorPRs).
    split; [eapply Updates_relabel; [| | |apply Updates_none]; lia|].
    split; [apply lengthZ_nonneg|].
    intros Hordinary. by rewrite author_not_skipped in Hbooked.
Qed.

Lemma processAuthorIssues_updates config c entry :
  exists skipped,
    Updates 0 0 (skipped - lengthZ entry.2) c (processAuthorIssues config c entry)
    /\ 0 <= skipped
    /\ (inherited entry.1 = false -> skipped = 0).
Proof.
  destruct entry as [author authorIssues]. unfold processAuthorIssues.
  cbn [fst snd].
  pose proof (truthyString_repoKeyOf config) as Htruthy.
  author_cases.
  - exists 0. split; [|done].
    pose proof (hasUserRepo_ensureUserStats author (repoKeyOf config) c Htruthy)
      as [Hhas _].
    eapply Updates_relabel;
      [| | |eapply Updates_more;
              [exact (UserEnsured c author (repoKeyOf config) Htruthy)
              |apply Updates_one;
               exact (UserIssuesCounted _ author (repoKeyOf config)
                        (lengthZ authorIssues) Hhas (lengthZ_nonneg authorIssues))]];
      lia.
  - exists (lengthZ authorIssues).
    split; [eapply Updates_relabel; [| | |apply Updates_none]; lia|].
    split; [apply lengthZ_nonneg|].
    intros Hordinary. by rewrite author_not_skipped in Hbooked.
Qed.

Lemma groupedEvents_cons {A} (group : string * list A) groups :
  groupedEvents (group :: groups) = lengthZ group.2 + groupedEvents groups.
Proof. reflexivity. Qed.

Lemma groupInsert_total {A} author (x : A) groups :
  groupedEvents (groupInsert author x groups) = groupedEvents groups + 1.
Proof.
  induction groups as [|[name xs] groups IH]; cbn [groupInsert].
  - reflexivity.
  - destruct (String.eqb name author).
    + rewrite !groupedEvents_cons. cbn [snd]. rewrite lengthZ_app.
      change (lengthZ [x]) with 1. lia.
    + rewrite !groupedEvents_cons, IH. lia.
Qed.

Lemma groupByAuthor_total {A} (authorOf : A -> string) (events : list A) :
  groupedEvents (groupByAuthor authorOf events) = lengthZ events.
Proof.
  unfold groupByAuthor.
  assert (forall groups,
             groupedEvents
               (foldl (fun groups x => groupInsert (authorOf x) x groups)
                  groups events)
             = groupedEvents groups + lengthZ events) as Hfold.
  { induction events as [|x events IH]; intros groups; cbn [foldl].
    - change (lengthZ []) with 0. lia.
    - rewrite IH, groupInsert_total. unfold lengthZ. cbn [length].
      rewrite Nat2Z.inj_succ. lia. }
  rewrite Hfold. change (groupedEvents []) with 0. lia.
Qed.

(** The names of the groups are names of the events grouped. *)
Lemma groupInsert_names {A} (P : string -> Prop) author (x : A) groups :
  P author ->
  Forall (fun group => P group.1) groups ->
  Forall (fun group => P group.1) (groupInsert author x groups).
Proof.
  intros Hauthor.
  induction 1 as [|[name xs] groups Hname Hgroups IH]; cbn [groupInsert].
  - by repeat constructor.
  - destruct (String.eqb name author); by constructor.
Qed.

Lemma groupByAuthor_names {A} (P : string -> Prop) (authorOf : A -> string)
    (events : list A) :
  Forall (fun x => P (authorOf x)) events ->
  Forall (fun group => P group.1) (groupByAuthor authorOf events).
Proof.
  unfold groupByAuthor. intros Hevents.
  assert (forall groups,
             Forall (fun group => P group.1) groups ->
             Forall (fun group => P group.1)
               (foldl (fun groups x => groupInsert (authorOf x) x groups)
                  groups events)) as Hfold.
  { induction Hevents as [|x events Hx _ IH]; intros groups Hgroups; cbn [foldl].
    - done.
    - by apply IH, groupInsert_names. }
  by apply Hfold.
Qed.

Lemma foldl_processAuthorCommits_updates getCommit config groups c :
  exists skipped,
    Updates (skipped - groupedEvents groups) 0 0 c
      (foldl (processAuthorCommits getCommit config) c groups)
    /\ 0 <= skipped
    /\ (Forall (fun group => inherited group.1 = false) groups -> skipped = 0).
Proof.
  revert c. induction groups as [|group groups IH]; intros c; cbn [foldl].
  - exists 0. split; [apply Updates_none|done].
  - destruct (processAuthorCommits_updates getCommit config c group)
      as (first & Hfirst & Hpos & Hnone).
    destruct (IH (processAuthorCommits getCommit config c group))
      as (rest & Hrest & Hpos' & Hnone').
    exists (first + rest). split; [|split; [lia|]].
    + eapply Updates_relabel;
        [| | |eapply Updates_trans; [exact Hfirst|exact Hrest]];
        rewrite ?groupedEvents_cons; lia.
    + intros [Hgroup Hgroups]%Forall_cons.
      rewrite (Hnone Hgroup), (Hnone' Hgroups). lia.
Qed.

Lemma foldl_processAuthorPRs_updates config groups c :
  exists skipped,
    Updates 0 (skipped - groupedEvents groups) 0 c
      (foldl (processAuthorPRs config) c groups)
    /\ 0 <= skipped
    /\ (Forall (fun group => inherited group.1 = false) groups -> skipped = 0).
Proof.
  revert c. induction groups as [|group groups IH]; intros c; cbn [foldl].
  - exists 0. split; [apply Updates_none|done].
  - destruct (processAuthorPRs_updates config c group)
      as (first & Hfirst & Hpos & Hnone).
    destruct (IH (processAuthorPRs config c group))
      as (rest & Hrest & Hpos' & Hnone').
    exists (first + rest). split; [|split; [lia|]].
    + eapply Updates_relabel;
        [| | |eapply Updates_trans; [exact Hfirst|exact Hrest]];
        rewrite ?groupedEvents_cons; lia.
    + intros [Hgroup Hgroups]%Forall_cons.
      rewrite (Hnone Hgroup), (Hnone' Hgroups). lia.
Qed.

Lemma foldl_processAuthorIssues_updates config groups c :
  exists skipped,
    Updates 0 0 (skipped - groupedEvents groups) c
      (foldl (processAuthorIssues config) c groups)
    /\ 0 <= skipped
    /\ (Forall (fun group => inherited group.1 = false) groups -> skipped = 0).
Proof.
  revert c. induction groups as [|group groups IH]; intros c; cbn [foldl].
  - exists 0. split; [apply Updates_none|done].
  - destruct (processAuthorIssues_updates config c group)
      as (first & Hfirst & Hpos & Hnone).
    destruct (IH (processAuthorIssues config c group))
      as (rest & Hrest & Hpos' & Hnone').
    exists (first + rest). split; [|split; [lia|]].
    + eapply Updates_relabel;
        [| | |eapply Updates_trans; [exact Hfirst|exact Hrest]];
        rewrite ?groupedEvents_cons; lia.
    + intros [Hgroup Hgroups]%Forall_cons.
      rewrite (Hnone Hgroup), (Hnone' Hgroups). lia.
Qed.

Lemma lengthZ_filter_le {A} (keep : A -> bool) (l : list A) :
  0 <= lengthZ (List.filter keep l) <= lengthZ l.
Proof.
  unfold lengthZ. split; [lia|].
  apply inj_le. induction l as [|x l IH]; cbn; [lia|].
  destruct (keep x); cbn; lia.
Qed.

Lemma processCommits_updates getCommit config commits c :
  exists skipped,
    Updates skipped 0 0 c (processCommits getCommit config commits c)
    /\ 0 <= skipped
    /\ (Forall (fun commit => inherited (commitAuthor commit) = false) commits ->
        skipped = 0).
Proof.
  unfold processCommits.
  pose proof (CommitsCounted c (repoKeyOf config) (lengthZ commits)
                (lengthZ_nonneg commits)) as Hcount.
  destruct (Z.eqb_spec (lengthZ commits) 0) as [Hnone | Hsome].
  - exists 0. split; [|done].
    eapply Updates_relabel; [| | |apply Updates_one, Hcount]; lia.
  - match goal with
    | |- context [foldl ?step ?start ?groups] =>
        destruct (foldl_processAuthorCommits_updates getCommit config groups start)
          as (skipped & Hauthors & Hpos & Hordinary)
    end.
    exists skipped. split; [|split; [done|]].
    + eapply Updates_relabel;
        [| | |eapply Updates_more; [exact Hcount|exact Hauthors]];
        rewrite ?groupByAuthor_total; lia.
    + intros Hcommits.
      by apply Hordinary,
        (groupByAuthor_names (fun name => inherited name = false)).
Qed.

Lemma processPRs_updates config prs c :
  exists skipped,
    Updates 0 (unattributed pr_user_login prs + skipped) 0 c
      (processPRs config prs c)
    /\ 0 <= skipped
    /\ (Forall (fun pr => inherited (default "" (pr_user_login pr)) = false) prs ->
        skipped = 0).
Proof.
  unfold processPRs, unattributed.
  pose proof (PullRequestsCounted c (repoKeyOf config) (lengthZ prs)
                (lengthZ (List.filter pr_merged prs))
                (lengthZ_filter_le pr_merged prs)) as Hcount.
  destruct (Z.eqb_spec (lengthZ prs) 0) as [Hnone | Hsome].
  - exists 0. split; [|done].
    eapply Updates_relabel; [| | |apply Updates_one, Hcount];
      try destruct (mapM pr_user_login prs); lia.
  - destruct (mapM pr_user_login prs).
    + match goal with
      | |- context [foldl ?step ?start ?groups] =>
          destruct (foldl_processAuthorPRs_updates config groups start)
            as (skipped & Hauthors & Hpos & Hordinary)
      end.
      exists skipped. split; [|split; [done|]].
      * eapply Updates_relabel;
          [| | |eapply Updates_more; [exact Hcount|exact Hauthors]];
          rewrite ?groupByAuthor_total; lia.
      * intros Hprs.
        by apply Hordinary,
          (groupByAuthor_names (fun name => inherited name = false)).
    + exists 0. split; [|done].
      eapply Updates_relabel; [| | |apply Updates_one, Hcount]; lia.
Qed.

Lemma processIssues_updates config issues c :
  exists skipped,
    Updates 0 0
      (unattributed issue_user_login
         (List.filter (fun issue => negb (issue_pull_request issue)) issues)
       + skipped)
      c (processIssues config issues c)
    /\ 0 <= skipped
    /\ (Forall (fun issue => inherited (default "" (issue_user_login issue)) = false)
          issues ->
        skipped = 0).
Proof.
  unfold processIssues, unattributed.
  set (actualIssues :=
         List.filter (fun issue => negb (issue_pull_request issue)) issues).
  set (closedIssues :=
         List.filter (fun issue => String.eqb (issue_state issue) "closed")
           actualIssues).
  pose proof (IssuesCounted c (repoKeyOf config) (lengthZ actualIssues)
                (lengthZ closedIssues)
                (lengthZ_filter_le _ actualIssues)) as Hcount.
  destruct (Z.eqb_spec (lengthZ issues) 0) as [Hnone | Hsome].
  - assert (lengthZ actualIssues = 0) as Hactual.
    { pose proof (lengthZ_filter_le
                    (fun issue => negb (issue_pull_request issue)) issues).
      subst actualIssues. lia. }
    exists 0. split; [|done].
    eapply Updates_relabel; [| | |apply Updates_none];
      try destruct (mapM issue_user_login actualIssues); lia.
  - destruct (mapM issue_user_login actualIssues).
    + match goal with
      | |- context [foldl ?step ?start ?groups] =>
          destruct (foldl_processAuthorIssues_updates config groups start)
            as (skipped & Hauthors & Hpos & Hordinary)
      end.
      exists skipped. split; [|split; [done|]].
      * eapply Updates_relabel;
          [| | |eapply Updates_more; [exact Hcount|exact Hauthors]];
          rewrite ?groupByAuthor_total; lia.
      * intros Hissues.
        apply Hordinary,
          (groupByAuthor_names (fun name => inherited name = false)).
        apply Forall_forall. intros issue Hissue.
        apply list_elem_of_In, filter_In in Hissue as [Hissue _].
        rewrite Forall_forall in Hissues. by apply Hissues, list_elem_of_In.
    + exists 0. split; [|done].
      eapply Updates_relabel; [| | |apply Updates_one, Hcount]; lia.
Qed.

Lemma unattributed_known {A} (login : A -> option string) (events : list A) :
  Forall (fun event => is_Some (login event)) events ->
  unattributed login events = 0.
Proof.
  intros Hknown. unfold unattributed.
  destruct (mapM login events) eqn:Hmap; [done|].
  assert (is_Some (mapM login events)) as [? ?]; [|congruence].
  by apply mapM_is_Some.
Qed.

Lemma Processed_refl fetched c : Processed fetched c c.
Proof. exists 0, 0, 0. split; [apply Updates_none|done]. Qed.

Lemma Processed_trans fetched c1 c2 c3 :
  Processed fetched c1 c2 -> Processed fetched c2 c3 -> Processed fetched c1 c3.
Proof.
  intros (dc & dp & di & Hfirst & Hcommits & Hgap)
         (dc' & dp' & di' & Hsecond & Hcommits' & Hgap').
  exists (dc + dc'), (dp + dp'), (di + di'). split; [|split].
  - eapply Updates_relabel; [| | |eapply Updates_trans; [exact Hfirst|exact Hsecond]];
      lia.
  - intros Hordinary. rewrite (Hcommits Hordinary), (Hcommits' Hordinary). lia.
  - intros Hknown Hordinary.
    destruct (Hgap Hknown Hordinary), (Hgap' Hknown Hordinary). lia.
Qed.

Lemma Processed_foldl {B} fetched (step : Contributions -> B -> Contributions)
    (items : list B) (c : Contributions) :
  (forall c item, Processed fetched c (step c item)) ->
  Processed fetched c (foldl step c items).
Proof.
  intros Hstep. revert c.
  induction items as [|item items IH]; intros c; cbn.
  - apply Processed_refl.
  - eapply Processed_trans; [apply Hstep|apply IH].
Qed.

Lemma initRepository_processed fetched c config :
  Processed fetched c (initRepository c config).
Proof.
  exists 0, 0, 0. split; [|done]. apply Updates_one, RepositoryStarted.
Qed.

Lemma processRepository_processed fetched getCommit c config :
  Processed fetched c (processRepository fetched getCommit c config).
Proof.
  unfold processRepository.
  destruct (processCommits_updates getCommit config
              (commitsFetched (fetched config)) c)
    as (dc & Hcommits & _ & Hdc).
  destruct (processPRs_updates config (prsFetched (fetched config))
              (processCommits getCommit config (commitsFetched (fetched config)) c))
    as (dp & Hprs & _ & Hdp).
  destruct (processIssues_updates config (issuesFetched (fetched config))
              (processPRs config (prsFetched (fetched config))
                 (processCommits getCommit config
                    (commitsFetched (fetched config)) c)))
    as (di & Hissues & _ & Hdi).
  eexists _, _, _. split; [|split].
  - eapply Updates_relabel;
      [| | |eapply Updates_trans;
              [exact Hcommits
              |eapply Updates_trans; [exact Hprs|exact Hissues]]];
      reflexivity.
  - intros Hordinary. rewrite (Hdc (Hordinary config)). lia.
  - intros Hknown Hordinary.
    destruct (Hknown config) as [Hknown_prs Hknown_issues].
    destruct (Hordinary config) as [Hordinary_prs Hordinary_issues].
    rewrite (Hdp Hordinary_prs), (Hdi Hordinary_issues). split.
    + rewrite unattributed_known by done. lia.
    + rewrite unattributed_known; [lia|].
      apply Forall_forall. intros issue Hissue.
      apply list_elem_of_In, filter_In in Hissue as [Hissue _].
      rewrite Forall_forall in Hknown_issues.
      by apply Hknown_issues, list_elem_of_In.
Qed.

Lemma aggregate_processed fetched getCommit completionOrder env REPOS since until :
  Processed fetched (initialContributions REPOS since until)
    (aggregate fetched getCommit completionOrder env REPOS since until).
Proof.
  unfold aggregate. apply Processed_foldl. intros c chunk.
  unfold processChunk.
  apply (Processed_trans _ _ (foldl initRepository c chunk)).
  - apply Processed_foldl. intros. apply initRepository_processed.
  - apply Processed_foldl. intros. apply processRepository_processed.
Qed.

Lemma sumOver_ensured (field : UserStats.t -> Z) repoKey
    (usersObj : gmap string UserStats.t) author :
  (forall change user, field (UserStats.withRepositories change user) = field user) ->
  field UserStats.zero = 0 ->
  sumOver field (<[author := ensured repoKey (usersObj !! author)]> usersObj)
  = sumOver field usersObj.
Proof.
  intros Hrepos Hzero. unfold ensured.
  destruct (usersObj !! author) as [user|] eqn:Huser; cbn [default from_option id].
  - rewrite (sumOver_insert _ _ _ user) by done.
    destruct (UserStats.repositories user !! repoKey); rewrite ?Hrepos; lia.
  - rewrite sumOver_insert_fresh by done.
    destruct (UserStats.repositories UserStats.zero !! repoKey);
      rewrite ?Hrepos, Hzero; lia.
Qed.

Lemma sumOver_updUserRepo (field : UserStats.t -> Z) author repoKey
    (onUser : UserStats.t -> UserStats.t)
    (onEntry : UserRepoStats.t -> UserRepoStats.t) c user :
  users c !! author = Some user ->
  (forall change user, field (UserStats.withRepositories change user) = field user) ->
  sumOver field (users (updUserRepo author repoKey onEntry (updUser author onUser c)))
  = sumOver field (users c) - field user + field (onUser user).
Proof.
  intros Huser Hrepos. cbn.
  rewrite (sumOver_alter _ _ _ _ (onUser user))
    by (by rewrite lookup_alter_eq, Huser).
  rewrite (sumOver_alter _ _ _ _ user) by done.
  rewrite Hrepos. lia.
Qed.

Lemma hasUserRepo_user usersObj author repoKey :
  hasUserRepo usersObj author repoKey = true ->
  exists user entry,
    usersObj !! author = Some user
    /\ UserStats.repositories user !! repoKey = Some entry.
Proof.
  intros (user & Huser & [entry Hentry])%hasUserRepo_spec. by exists user, entry.
Qed.

Lemma addCommitLines_gaps getCommit config author commit c :
  hasUserRepo (users c) author (repoKeyOf config) = true ->
  commitGap (addCommitLines getCommit config author commit c) = commitGap c
  /\ pullRequestGap (addCommitLines getCommit config author commit c)
     = pullRequestGap c
  /\ issueGap (addCommitLines getCommit config author commit c) = issueGap c
  /\ linesGap (addCommitLines getCommit config author commit c) = linesGap c.
Proof.
  intros (user & entry & Huser & Hentry)%hasUserRepo_user.
  unfold addCommitLines. destruct (getCommit config (sha commit)); [|done].
  unfold commitGap, pullRequestGap, issueGap, linesGap.
  cbn [summary users updSummary updRepo withRepositories].
  rewrite !(sumOver_updUserRepo _ _ _ _ _ _ user) by done.
  cbn. repeat split; first [lia | f_equal; [f_equal|]; lia].
Qed.

Lemma Update_gaps dc dp di c c' :
  Update dc dp di c c' ->
  commitGap c' = commitGap c + dc
  /\ pullRequestGap c' = pullRequestGap c + dp
  /\ issueGap c' = issueGap c + di
  /\ linesGap c' = linesGap c.
Proof.
  intros Hstep.
  destruct Hstep as
    [ c config | c repoKey n Hn | c repoKey n merged Hn | c repoKey n closed Hn
    | c author repoKey Htruthy
    | c author repoKey n Hhas Hn | c author repoKey n Hhas Hn
    | c author repoKey n Hhas Hn
    | c getCommit config author commit Hhas ].
  - unfold commitGap, pullRequestGap, issueGap, linesGap. cbn.
    repeat split; first [lia | f_equal; [f_equal|]; lia].
  - unfold commitGap, pullRequestGap, issueGap, linesGap. cbn.
    repeat split; first [lia | f_equal; [f_equal|]; lia].
  - unfold commitGap, pullRequestGap, issueGap, linesGap. cbn.
    repeat split; first [lia | f_equal; [f_equal|]; lia].
  - unfold commitGap, pullRequestGap, issueGap, linesGap. cbn.
    repeat split; first [lia | f_equal; [f_equal|]; lia].
  - unfold ensuredUserStats.
    unfold commitGap, pullRequestGap, issueGap, linesGap.
    cbn [summary users withUsers].
    rewrite !sumOver_ensured by done.
    repeat split; first [lia | f_equal; [f_equal|]; lia].
  - apply hasUserRepo_user in Hhas as (user & entry & Huser & Hentry).
    unfold commitGap, pullRequestGap, issueGap, linesGap.
    cbn [summary users updRepo withRepositories].
    rewrite !(sumOver_updUserRepo _ _ _ _ _ _ user) by done.
    cbn. repeat split; first [lia | f_equal; [f_equal|]; lia].
  - apply hasUserRepo_user in Hhas as (user & entry & Huser & Hentry).
    unfold commitGap, pullRequestGap, issueGap, linesGap.
    cbn [summary users updRepo withRepositories].
    rewrite !(sumOver_updUserRepo _ _ _ _ _ _ user) by done.
    cbn. repeat split; first [lia | f_equal; [f_equal|]; lia].
  - apply hasUserRepo_user in Hhas as (user & entry & Huser & Hentry).
    unfold commitGap, pullRequestGap, issueGap, linesGap.
    cbn [summary users updRepo withRepositories].
    rewrite !(sumOver_updUserRepo _ _ _ _ _ _ user) by done.
    cbn. repeat split; first [lia | f_equal; [f_equal|]; lia].
  - destruct (addCommitLines_gaps getCommit config author commit c Hhas)
      as (-> & -> & -> & ->).
    repeat split; lia.
Qed.

Lemma Updates_gaps dc dp di c c' :
  Updates dc dp di c c' ->
  commitGap c' = commitGap c + dc
  /\ pullRequestGap c' = pullRequestGap c + dp
  /\ issueGap c' = issueGap c + di
  /\ linesGap c' = linesGap c.
Proof.
  induction 1 as [c | dc dp di dc' dp' di' c1 c2 c3 Hstep _ IH].
  - repeat split; lia.
  - destruct IH as (-> & -> & -> & ->).
    destruct (Update_gaps _ _ _ _ _ Hstep) as (-> & -> & -> & ->).
    repeat split; lia.
Qed.

Ltac balanced_close :=
  repeat match goal with H : _ /\ _ |- _ => destruct H end;
  repeat split; try (by apply Forall_nil_2); lia.

Lemma UserBalanced_zero : UserBalanced UserStats.zero.
Proof. repeat constructor. Qed.

Lemma UserBalanced_ensured repoKey known :
  (forall user, known = Some user -> UserBalanced user) ->
  UserBalanced (ensured repoKey known).
Proof.
  intros Hknown. unfold ensured.
  assert (UserBalanced (default UserStats.zero known)) as Huser.
  { destruct known; [by apply Hknown|apply UserBalanced_zero]. }
  destruct (UserStats.repositories (default UserStats.zero known) !! repoKey)
    eqn:Hrepo; [done|].
  unfold UserBalanced, balanceFields in *.
  rewrite !Forall_cons in *. cbn in *.
  rewrite !sumOver_insert_fresh by done. cbn. balanced_close.
Qed.

Ltac balanced_step entry :=
  unfold UserBalanced, balanceFields in *;
  rewrite !Forall_cons in *; cbn in *;
  rewrite !(sumOver_alter _ _ _ _ entry) by done; cbn; balanced_close.

Lemma UserBalanced_addCommits repoKey n user entry :
  UserStats.repositories user !! repoKey = Some entry ->
  UserBalanced user ->
  UserBalanced
    (UserStats.withRepositories (alter (UserRepoStats.addCommits n) repoKey)
       (UserStats.addCommits n user)).
Proof. intros Hentry Huser. balanced_step entry. Qed.

Lemma UserBalanced_addPRs repoKey n user entry :
  UserStats.repositories user !! repoKey = Some entry ->
  UserBalanced user ->
  UserBalanced
    (UserStats.withRepositories (alter (UserRepoStats.addPullRequests n) repoKey)
       (UserStats.addPRs n user)).
Proof. intros Hentry Huser. balanced_step entry. Qed.

Lemma UserBalanced_addIssues repoKey n user entry :
  UserStats.repositories user !! repoKey = Some entry ->
  UserBalanced user ->
  UserBalanced
    (UserStats.withRepositories (alter (UserRepoStats.addIssues n) repoKey)
       (UserStats.addIssues n user)).
Proof. intros Hentry Huser. balanced_step entry. Qed.

Lemma UserBalanced_addLines repoKey added deleted user entry :
  UserStats.repositories user !! repoKey = Some entry ->
  UserBalanced user ->
  UserBalanced
    (UserStats.withRepositories
       (alter (UserRepoStats.addLines added deleted) repoKey)
       (UserStats.addLines added deleted user)).
Proof. intros Hentry Huser. balanced_step entry. Qed.

(** What the paired update of a user and of the user's entry for a
    repository leaves under each name. *)
Lemma lookup_updUserRepo author repoKey onUser onEntry c username :
  users (updUserRepo author repoKey onEntry (updUser author onUser c)) !! username
  = if decide (username = author)
    then (fun user =>
            UserStats.withRepositories (alter onEntry repoKey) (onUser user))
           <$> users c !! author
    else users c !! username.
Proof.
  cbn. destruct (decide (username = author)) as [-> | Hne].
  - rewrite !lookup_alter_eq. by destruct (users c !! author).
  - by rewrite !lookup_alter_ne by done.
Qed.

Lemma AllBalanced_updUserRepo author repoKey onUser onEntry c c' :
  users c' = users (updUserRepo author repoKey onEntry (updUser author onUser c)) ->
  (forall user entry,
      UserStats.repositories user !! repoKey = Some entry ->
      UserBalanced user ->
      UserBalanced
        (UserStats.withRepositories (alter onEntry repoKey) (onUser user))) ->
  hasUserRepo (users c) author repoKey = true ->
  AllBalanced c -> AllBalanced c'.
Proof.
  intros Husers Hstep (known & entry & Hknown & Hentry)%hasUserRepo_user Hall
    username user.
  rewrite Husers, lookup_updUserRepo.
  destruct (decide (username = author)) as [-> | Hne]; [|apply Hall].
  rewrite Hknown. cbn. intros [= <-].
  eapply Hstep; [exact Hentry|]. by eapply Hall.
Qed.

Lemma Update_AllBalanced dc dp di c c' :
  Update dc dp di c c' -> AllBalanced c -> AllBalanced c'.
Proof.
  intros Hstep Hall.
  destruct Hstep as
    [ c config | c repoKey n Hn | c repoKey n merged Hn | c repoKey n closed Hn
    | c author repoKey Htruthy
    | c author repoKey n Hhas Hn | c author repoKey n Hhas Hn
    | c author repoKey n Hhas Hn
    | c getCommit config author commit Hhas ];
    try exact Hall.
  - unfold ensuredUserStats. intros username user. cbn.
    destruct (decide (username = author)) as [-> | Hne].
    + rewrite lookup_insert_eq. intros [= <-].
      apply UserBalanced_ensured. intros known. apply Hall.
    + rewrite lookup_insert_ne by done. apply Hall.
  - eapply AllBalanced_updUserRepo; [reflexivity| |exact Hhas|exact Hall].
    intros. by eapply UserBalanced_addCommits.
  - eapply AllBalanced_updUserRepo; [reflexivity| |exact Hhas|exact Hall].
    intros. by eapply UserBalanced_addPRs.
  - eapply AllBalanced_updUserRepo; [reflexivity| |exact Hhas|exact Hall].
    intros. by eapply UserBalanced_addIssues.
  - unfold addCommitLines. destruct (getCommit config (sha commit)); [|done].
    eapply AllBalanced_updUserRepo; [reflexivity| |exact Hhas|exact Hall].
    intros. by eapply UserBalanced_addLines.
Qed.

Lemma Updates_AllBalanced dc dp di c c' :
  Updates dc dp di c c' -> AllBalanced c -> AllBalanced c'.
Proof.
  induction 1 as [|? ? ? ? ? ? ? ? ? Hstep _ IH]; [done|].
  intros Hall. eapply IH, Update_AllBalanced; [exact Hstep|exact Hall].
Qed.

Lemma gradeFromAnalysis_keeps toNumber c entry c' :
  gradeFromAnalysis toNumber c entry = Normal c' ->
  withoutNarrative c' = withoutNarrative c.
Proof.
  unfold gradeFromAnalysis. destruct entry as [username analysis].
  destruct (hasUser (users c) username || inherited username);
    [| by intros [= <-]].
  destruct (getProp analysis "codeQualityScore") as [[score |] |]; cbn;
    [| by intros [= <-] | done].
  destruct (truthy score); [|by intros [= <-]].
  intros [= <-]. unfold withoutNarrative. cbn. do 2 f_equal.
  rewrite (fmap_alter _ _ id) by done. by apply alter_id.
Qed.

Lemma narrativeStage_keeps anthropic JSON_parse toNumber env c report requests :
  narrativeStage anthropic JSON_parse toNumber env c = (Normal report, requests) ->
  withoutNarrative report = withoutNarrative c.
Proof.
  unfold narrativeStage.
  destruct (bool_decide (env !! "SKIP_AI_ANALYSIS" = Some "true"));
    [by intros [= <- _] |].
  destruct (generateDetailedAIAnalysis anthropic JSON_parse env c)
    as [detailed detailedRequests].
  destruct (if truthyOpt detailed then detailed else None) as [analysis |].
  - destruct (getProp analysis "contributors") as [[contributors |] |]; cbn;
      [| by intros [= <- _] | done].
    destruct (truthy contributors); [| by intros [= <- _]].
    intros [= Hfold _].
    apply (foldC_keeps withoutNarrative) in Hfold; [done |].
    intros. by eapply gradeFromAnalysis_keeps.
  - destruct (generateAIAnalysis anthropic JSON_parse env c) as [basic more].
    destruct (if truthyOpt basic then basic else None); by intros [= <- _].
Qed.

Lemma report_keeps_scored
    fetched getCommit completionOrder anthropic JSON_parse toNumber
    env REPOS since until report :
  generateContributionReport fetched getCommit completionOrder anthropic
    JSON_parse toNumber env REPOS since until = Normal report ->
  withoutNarrative report
  = withoutNarrative (scored fetched getCommit completionOrder env REPOS since until).
Proof.
  unfold generateContributionReport, generateContributionReport_run.
  destruct (narrativeStage anthropic JSON_parse toNumber env
              (scored fetched getCommit completionOrder env REPOS since until))
    as [completion requests] eqn:Hstage.
  cbn. intros ->. by eapply narrativeStage_keeps.
Qed.

(** What a report keeps of the aggregate it was made from. *)
Lemma report_keeps_aggregate
    fetched getCommit completionOrder anthropic JSON_parse toNumber
    env REPOS since until report :
  generateContributionReport fetched getCommit completionOrder anthropic
    JSON_parse toNumber env REPOS since until = Normal report ->
  summary report
  = summary (aggregate fetched getCommit completionOrder env REPOS since until)
  /\ repositories report
     = repositories (aggregate fetched getCommit completionOrder env REPOS since until)
  /\ figures <$> users report
     = figures
         <$> users (aggregate fetched getCommit completionOrder env REPOS since until).
Proof.
  intros Hreport. apply report_keeps_scored in Hreport.
  unfold withoutNarrative, scored in Hreport. cbn in Hreport.
  injection Hreport as Hsummary Husers Hrepos.
  repeat split; [done..|].
  apply (f_equal (fmap figures)) in Husers.
  rewrite <- !map_fmap_compose in Husers. exact Husers.
Qed.

Lemma lookup_figures (usersObj aggregated : gmap string UserStats.t) username user :
  figures <$> usersObj = figures <$> aggregated ->
  usersObj !! username = Some user ->
  exists counted,
    aggregated !! username = Some counted /\ figures user = figures counted.
Proof.
  intros Hsame Huser.
  apply (f_equal (fun m => m !! username)) in Hsame.
  rewrite !lookup_fmap, Huser in Hsame.
  destruct (aggregated !! username) as [counted|]; [|done].
  exists counted. split; [done|]. by apply (inj Some).
Qed.

Lemma sumOver_fmap {V W} (field : W -> Z) (change : V -> W) (entries : gmap string V) :
  sumOver field (change <$> entries) = sumOver (fun entry => field (change entry)) entries.
Proof. unfold sumOver. by rewrite map_fold_fmap. Qed.

Lemma sumOver_figures (project : Z * Z * Z * Z * Z * Z * gmap string UserRepoStats.t -> Z)
    (usersObj aggregated : gmap string UserStats.t) :
  figures <$> usersObj = figures <$> aggregated ->
  sumOver (fun user => project (figures user)) usersObj
  = sumOver (fun user => project (figures user)) aggregated.
Proof. intros Hsame. by rewrite <- !(sumOver_fmap project figures), Hsame. Qed.

Lemma same_figures_sums (usersObj aggregated : gmap string UserStats.t) :
  figures <$> usersObj = figures <$> aggregated ->
  sumOver UserStats.totalCommits usersObj = sumOver UserStats.totalCommits aggregated
  /\ sumOver UserStats.totalPRs usersObj = sumOver UserStats.totalPRs aggregated
  /\ sumOver UserStats.totalIssues usersObj
     = sumOver UserStats.totalIssues aggregated
  /\ sumOver UserStats.linesAdded usersObj = sumOver UserStats.linesAdded aggregated
  /\ sumOver UserStats.linesDeleted usersObj
     = sumOver UserStats.linesDeleted aggregated
  /\ sumOver UserStats.linesModified usersObj
     = sumOver UserStats.linesModified aggregated.
Proof.
  intros Hsame. repeat split.
  - exact (sumOver_figures (fun f => f.1.1.1.1.1.1) _ _ Hsame).
  - exact (sumOver_figures (fun f => f.1.1.1.1.1.2) _ _ Hsame).
  - exact (sumOver_figures (fun f => f.1.1.1.1.2) _ _ Hsame).
  - exact (sumOver_figures (fun f => f.1.1.1.2) _ _ Hsame).
  - exact (sumOver_figures (fun f => f.1.1.2) _ _ Hsame).
  - exact (sumOver_figures (fun f => f.1.2) _ _ Hsame).
Qed.

Lemma initialContributions_gaps REPOS since until :
  commitGap (initialContributions REPOS since until) = 0
  /\ pullRequestGap (initialContributions REPOS since until) = 0
  /\ issueGap (initialContributions REPOS since until) = 0
  /\ linesGap (initialContributions REPOS since until) = (0, 0, 0).
Proof. by vm_compute. Qed.

Lemma aggregate_gaps fetched getCommit completionOrder env REPOS since until :
  (OrdinaryCommitAuthors fetched ->
   commitGap (aggregate fetched getCommit completionOrder env REPOS since until) = 0)
  /\ linesGap (aggregate fetched getCommit completionOrder env REPOS since until)
     = (0, 0, 0)
  /\ (AuthorsKnown fetched -> OrdinaryReporters fetched ->
      pullRequestGap
        (aggregate fetched getCommit completionOrder env REPOS since until) = 0
      /\ issueGap
           (aggregate fetched getCommit completionOrder env REPOS since until) = 0).
Proof.
  destruct (aggregate_processed fetched getCommit completionOrder env REPOS
              since until) as (dc & dp & di & Hrun & Hcommits & Hknown).
  apply Updates_gaps in Hrun as (Hc & Hp & Hi & Hl).
  destruct (initialContributions_gaps REPOS since until) as (Hc0 & Hp0 & Hi0 & Hl0).
  split; [intros Hordinary; rewrite (Hcommits Hordinary) in Hc; lia|].
  split; [congruence|].
  intros Hauthors Hordinary. destruct (Hknown Hauthors Hordinary). lia.
Qed.

Lemma aggregate_AllBalanced fetched getCommit completionOrder env REPOS since until :
  AllBalanced (aggregate fetched getCommit completionOrder env REPOS since until).
Proof.
  destruct (aggregate_processed fetched getCommit completionOrder env REPOS
              since until) as (dc & dp & di & Hrun & _).
  eapply Updates_AllBalanced; [exact Hrun|]. intros username user. done.
Qed.

Lemma AuthorsKnown_demoFetched : AuthorsKnown demoFetched.
Proof.
  intros config. unfold demoFetched.
  destruct (String.eqb (repo config) "a"); cbn; split; repeat constructor;
    by eexists.
Qed.

Lemma OrdinaryCommitAuthors_demoFetched : OrdinaryCommitAuthors demoFetched.
Proof.
  intros config. unfold demoFetched.
  destruct (String.eqb (repo config) "a"); cbn; by repeat constructor.
Qed.

Lemma OrdinaryReporters_demoFetched : OrdinaryReporters demoFetched.
Proof.
  intros config. unfold demoFetched.
  destruct (String.eqb (repo config) "a"); cbn; split; by repeat constructor.
Qed.

Lemma NothingAbandoned_demoFetched : NothingAbandoned demoFetched.
Proof.
  split; [exact AuthorsKnown_demoFetched|].
  split; [exact OrdinaryCommitAuthors_demoFetched
         |exact OrdinaryReporters_demoFetched].
Qed.

(** X10 (generateContributionReport): in every report, each user's
    [totalCommits], [totalPRs] and [totalIssues] are the sums of the
    [commits], [pullRequests] and [issues] of the user's per-repository
    breakdown, whatever the repositories configured, the order in which
    fetches resolve and the outcome of the narrative stage. *)
Theorem user_counts_are_sums_of_breakdown
    (fetched : RepoConfig -> RepoEvents)
    (getCommit : RepoConfig -> string -> option (list FileChange))
    (completionOrder : list RepoConfig -> list RepoConfig)
    (anthropic : PromptKind -> option string)
    (JSON_parse : string -> option json) (toNumber : json -> option Q)
    (env : Env) (REPOS : list RepoConfig) (since until : string)
    (report : Contributions) :
  generateContributionReport fetched getCommit completionOrder anthropic
    JSON_parse toNumber env REPOS since until = Normal report ->
  map_Forall (fun _ user => CountsBalanced user) (users report).
Proof.
  intros Hreport username user Huser.
  apply report_keeps_aggregate in Hreport as (_ & _ & Hsame).
  destruct (lookup_figures _ _ _ _ Hsame Huser) as (counted & Hcounted & Hfigures).
  pose proof (aggregate_AllBalanced fetched getCommit completionOrder env REPOS
                since until username counted Hcounted) as Hbalanced.
  unfold UserBalanced, balanceFields in Hbalanced.
  rewrite !Forall_cons in Hbalanced. cbn in Hbalanced.
  destruct Hbalanced as (Hc & Hp & Hi & _).
  unfold figures in Hfigures.
  injection Hfigures as Hcommits Hprs Hissues _ _ _ Hrepos.
  unfold CountsBalanced. rewrite Hcommits, Hprs, Hissues, Hrepos.
  by repeat split.
Qed.

Lemma user_counts_are_sums_of_breakdown_witness :
  map_Forall (fun _ user => CountsBalanced user)
    (users (demoScored ∅ [repo_o_a; repo_o_b])).
Proof.
  apply (user_counts_are_sums_of_breakdown demoFetched demoGetCommit inOrder
           unreachable refuseAll numberOf ∅ [repo_o_a; repo_o_b] "since" "until").
  vm_compute. reflexivity.
Defined.

(** The commit of an author named [constructor] is counted in the summary
    and in the entry of the repository, and booked to no user. *)
Example prototype_named_author_is_booked_to_no_user :
  (fun report =>
     (Summary.totalCommits (summary report),
      RepositoryStats.commits <$> repositories report !! "o/a",
      sumOver UserStats.totalCommits (users report),
      fst <$> map_to_list (users report)))
    (scored prototypeFetched demoGetCommit inOrder ∅ [repo_o_a] "since" "until")
  = (2, Some 2, 1, ["alice"]).
Proof. by vm_compute. Qed.



(** X12 (generateContributionReport): when every pull request and every
    issue fetched has a user, none of them named like a member of
    [Object.prototype], [summary.totalPRs] is the sum of the users'
    [totalPRs] and [summary.totalIssues] the sum of the users'
    [totalIssues]: pull requests and issues, the latter without the pull
    requests among them, are each booked to exactly one user. *)
Theorem pull_requests_and_issues_are_booked_to_users
    (fetched : RepoConfig -> RepoEvents)
    (getCommit : RepoConfig -> string -> option (list FileChange))
    (completionOrder : list RepoConfig -> list RepoConfig)
    (anthropic : PromptKind -> option string)
    (JSON_parse : string -> option json) (toNumber : json -> option Q)
    (env : Env) (REPOS : list RepoConfig) (since until : string)
    (report : Contributions) :
  AuthorsKnown fetched ->
  OrdinaryReporters fetched ->
  generateContributionReport fetched getCommit completionOrder anthropic
    JSON_parse toNumber env REPOS since until = Normal report ->
  Summary.totalPRs (summary report) = sumOver UserStats.totalPRs (users report)
  /\ Summary.totalIssues (summary report)
     = sumOver UserStats.totalIssues (users report).
Proof.
  intros Hknown Hordinary Hreport.
  apply report_keeps_aggregate in Hreport as (Hsummary & _ & Hsame).
  destruct (aggregate_gaps fetched getCommit completionOrder env REPOS since until)
    as (_ & _ & Hgaps).
  destruct (Hgaps Hknown Hordinary) as [Hprs Hissues].
  apply same_figures_sums in Hsame as (_ & -> & -> & _).
  unfold pullRequestGap in Hprs. unfold issueGap in Hissues. rewrite Hsummary. lia.
Qed.

Lemma pull_requests_and_issues_are_booked_to_users_witness :
  Summary.totalPRs (summary (demoScored ∅ [repo_o_a; repo_o_b]))
  = sumOver UserStats.totalPRs (users (demoScored ∅ [repo_o_a; repo_o_b]))
  /\ Summary.totalIssues (summary (demoScored ∅ [repo_o_a; repo_o_b]))
     = sumOver UserStats.totalIssues (users (demoScored ∅ [repo_o_a; repo_o_b])).
Proof.
  apply (pull_requests_and_issues_are_booked_to_users demoFetched demoGetCommit
           inOrder unreachable refuseAll numberOf ∅ [repo_o_a; repo_o_b]
           "since" "until").
  - exact AuthorsKnown_demoFetched.
  - exact OrdinaryReporters_demoFetched.
  - vm_compute. reflexivity.
Defined.

Lemma map_Forall_alter_keep {V} (P : V -> Prop) (change : V -> V)
    (entries : gmap string V) key :
  (forall entry, P entry -> P (change entry)) ->
  map_Forall (fun _ entry => P entry) entries ->
  map_Forall (fun _ entry => P entry) (alter change key entries).
Proof.
  intros Hkeep Hall other entry.
  destruct (decide (other = key)) as [-> | Hne].
  - rewrite lookup_alter_eq.
    destruct (entries !! key) as [old|] eqn:Hold; [|done].
    cbn. intros [= <-]. by eapply Hkeep, Hall.
  - rewrite lookup_alter_ne by done. apply Hall.
Qed.

Lemma map_Forall_insert_keep {V} (P : V -> Prop) (entries : gmap string V) key entry :
  P entry ->
  map_Forall (fun _ entry => P entry) entries ->
  map_Forall (fun _ entry => P entry) (<[key := entry]> entries).
Proof.
  intros Hentry Hall other found.
  destruct (decide (other = key)) as [-> | Hne].
  - rewrite lookup_insert_eq. by intros [= <-].
  - rewrite lookup_insert_ne by done. apply Hall.
Qed.

Lemma UserSound_ensured repoKey known :
  (forall user, known = Some user -> UserSound user) ->
  UserSound (ensured repoKey known).
Proof.
  intros Hknown. unfold ensured.
  assert (UserSound (default UserStats.zero known)) as Huser.
  { destruct known; [by apply Hknown|].
    unfold UserSound. cbn. repeat (split; [lia|]). apply map_Forall_empty. }
  destruct (UserStats.repositories (default UserStats.zero known) !! repoKey);
    [done|].
  destruct Huser as (? & ? & ? & ? & Hentries).
  unfold UserSound. cbn. repeat (split; [done|]).
  apply map_Forall_insert_keep; [|done]. unfold EntrySound. cbn. lia.
Qed.

Ltac sound_entry :=
  intros ? (? & ? & ? & ?); repeat split; cbn; lia.

Ltac sound_user :=
  intros ? (? & ? & ? & ? & ?); unfold UserSound; cbn;
  repeat (split; [lia|]);
  apply map_Forall_alter_keep; [sound_entry|done].

Lemma Sound_updUserRepo author repoKey onUser onEntry c :
  (forall user,
      UserSound user ->
      UserSound (UserStats.withRepositories (alter onEntry repoKey) (onUser user))) ->
  map_Forall (fun _ user => UserSound user) (users c) ->
  map_Forall (fun _ user => UserSound user)
    (users (updUserRepo author repoKey onEntry (updUser author onUser c))).
Proof.
  intros Hstep Hall username user. rewrite lookup_updUserRepo.
  destruct (decide (username = author)) as [-> | Hne]; [|apply Hall].
  destruct (users c !! author) as [known|] eqn:Hknown; [|done].
  cbn. intros [= <-]. by eapply Hstep, Hall.
Qed.

Lemma Update_Sound dc dp di c c' : Update dc dp di c c' -> Sound c -> Sound c'.
Proof.
  intros Hstep (Hsummary & Husers & Hrepos).
  destruct Hsummary as (? & ? & ? & ?).
  destruct Hstep as
    [ c config | c repoKey n Hn | c repoKey n merged Hn | c repoKey n closed Hn
    | c author repoKey Htruthy
    | c author repoKey n Hhas Hn | c author repoKey n Hhas Hn
    | c author repoKey n Hhas Hn
    | c getCommit config author commit Hhas ].
  - split; [done|]. split; [done|]. cbn.
    apply map_Forall_insert_keep; [|done]. repeat split; cbn; lia.
  - split; [repeat split; cbn; lia|]. split; [done|]. cbn.
    apply map_Forall_alter_keep; [|done].
    intros stats (? & ? & ? & ?). repeat split; cbn; lia.
  - split; [repeat split; cbn; lia|]. split; [done|]. cbn.
    apply map_Forall_alter_keep; [|done].
    intros stats (? & ? & ? & ?). repeat split; cbn; lia.
  - split; [repeat split; cbn; lia|]. split; [done|]. cbn.
    apply map_Forall_alter_keep; [|done].
    intros stats (? & ? & ? & ?). repeat split; cbn; lia.
  - unfold ensuredUserStats.
    split; [done|]. split; [|done]. cbn.
    apply map_Forall_insert_keep; [|done].
    apply UserSound_ensured. intros known. apply Husers.
  - split; [done|]. split.
    + apply Sound_updUserRepo; [sound_user|done].
    + cbn. apply map_Forall_alter_keep; [|done].
      intros stats (? & ? & ? & ?). repeat split; cbn; lia.
  - split; [done|]. split.
    + apply Sound_updUserRepo; [sound_user|done].
    + cbn. apply map_Forall_alter_keep; [|done].
      intros stats (? & ? & ? & ?). repeat split; cbn; lia.
  - split; [done|]. split.
    + apply Sound_updUserRepo; [sound_user|done].
    + cbn. apply map_Forall_alter_keep; [|done].
      intros stats (? & ? & ? & ?). repeat split; cbn; lia.
  - unfold addCommitLines. destruct (getCommit config (sha commit)); [|done].
    split; [repeat split; cbn; lia|]. split.
    + apply Sound_updUserRepo; [sound_user|done].
    + cbn. apply map_Forall_alter_keep; [|done].
      intros stats (? & ? & ? & ?). repeat split; cbn; lia.
Qed.

Lemma Updates_Sound dc dp di c c' : Updates dc dp di c c' -> Sound c -> Sound c'.
Proof.
  induction 1 as [|? ? ? ? ? ? ? ? ? Hstep _ IH]; [done|].
  intros Hsound. eapply IH, Update_Sound; [exact Hstep|exact Hsound].
Qed.

Lemma aggregate_Sound fetched getCommit completionOrder env REPOS since until :
  Sound (aggregate fetched getCommit completionOrder env REPOS since until).
Proof.
  destruct (aggregate_processed fetched getCommit completionOrder env REPOS
              since until) as (dc & dp & di & Hrun & _).
  eapply Updates_Sound; [exact Hrun|].
  split; [repeat split; cbn; lia|]. split; apply map_Forall_empty.
Qed.

Lemma NoDup_addContributor author stats :
  NoDup (RepositoryStats.contributors stats) ->
  NoDup (RepositoryStats.contributors (RepositoryStats.addContributor author stats)).
Proof.
  intros Hnodup. cbn. case_bool_decide as Hin; [done|].
  apply NoDup_app. split; [done|]. split; [|apply NoDup_singleton].
  intros other Hother ->%list_elem_of_singleton. done.
Qed.

Lemma elem_of_addContributor other author stats :
  other ∈ RepositoryStats.contributors (RepositoryStats.addContributor author stats) ->
  other ∈ RepositoryStats.contributors stats \/ other = author.
Proof.
  cbn. case_bool_decide as Hin; [by left|].
  rewrite elem_of_app, list_elem_of_singleton. tauto.
Qed.

Lemma ContributorsSound_counted author repoKey c c' :
  users c' = users c ->
  hasUserRepo (users c) author repoKey = true ->
  ContributorsSound c ->
  repositories c'
  = alter (RepositoryStats.addContributor author) repoKey (repositories c) ->
  ContributorsSound c'.
Proof.
  intros Husers Hhas Hsound Hrepos other stats. rewrite Hrepos, Husers.
  destruct (decide (other = repoKey)) as [-> | Hne].
  - rewrite lookup_alter_eq.
    destruct (repositories c !! repoKey) as [old|] eqn:Hold; [|done].
    cbn [fmap option_fmap option_map]. intros [= <-].
    destruct (Hsound _ _ Hold) as [Hnodup Hmembers].
    split; [by apply NoDup_addContributor|].
    intros member [Hmember | ->]%elem_of_addContributor; [by apply Hmembers|done].
  - rewrite lookup_alter_ne by done. apply Hsound.
Qed.

Lemma ContributorsSound_kept change repoKey c c' :
  (forall author otherKey,
      hasUserRepo (users c) author otherKey = true ->
      hasUserRepo (users c') author otherKey = true) ->
  (forall stats,
      RepositoryStats.contributors (change stats)
      = RepositoryStats.contributors stats) ->
  repositories c' = alter change repoKey (repositories c) ->
  ContributorsSound c -> ContributorsSound c'.
Proof.
  intros Husers Hkeep Hrepos Hsound other stats. rewrite Hrepos.
  destruct (decide (other = repoKey)) as [-> | Hne].
  - rewrite lookup_alter_eq.
    destruct (repositories c !! repoKey) as [old|] eqn:Hold; [|done].
    cbn [fmap option_fmap option_map]. intros [= <-]. rewrite Hkeep.
    destruct (Hsound _ _ Hold) as [Hnodup Hmembers].
    split; [done|]. intros author Hauthor. by apply Husers, Hmembers.
  - rewrite lookup_alter_ne by done. intros Hstats.
    destruct (Hsound _ _ Hstats) as [Hnodup Hmembers].
    split; [done|]. intros author Hauthor. by apply Husers, Hmembers.
Qed.

Lemma Update_ContributorsSound dc dp di c c' :
  Update dc dp di c c' -> ContributorsSound c -> ContributorsSound c'.
Proof.
  intros Hstep Hsound.
  pose proof (fun author repoKey =>
                Update_hasUserRepo _ _ _ _ _ author repoKey Hstep) as Hgrow.
  destruct Hstep as
    [ c config | c repoKey n Hn | c repoKey n merged Hn | c repoKey n closed Hn
    | c author repoKey Htruthy
    | c author repoKey n Hhas Hn | c author repoKey n Hhas Hn
    | c author repoKey n Hhas Hn
    | c getCommit config author commit Hhas ].
  - intros other stats. cbn.
    destruct (decide (other = repoKeyOf config)) as [-> | Hne].
    + rewrite lookup_insert_eq. intros [= <-]. cbn.
      split; [apply NoDup_nil_2|]. intros author Hauthor.
      by apply elem_of_nil in Hauthor.
    + rewrite lookup_insert_ne by done. apply Hsound.
  - by eapply (ContributorsSound_kept (RepositoryStats.setCommits n) repoKey c).
  - by eapply (ContributorsSound_kept
                 (RepositoryStats.setPullRequests n merged) repoKey c).
  - by eapply (ContributorsSound_kept
                 (RepositoryStats.setIssues n closed) repoKey c).
  - intros other stats Hstats.
    assert (repositories (ensuredUserStats author repoKey c) = repositories c)
      as Hrepos by done.
    rewrite Hrepos in Hstats. destruct (Hsound _ _ Hstats) as [Hnodup Hmembers].
    split; [done|]. intros member Hmember. by apply Hgrow, Hmembers.
  - intros other stats Hstats.
    set (counted := updUserRepo author repoKey (UserRepoStats.addCommits n)
                      (updUser author (UserStats.addCommits n) c)) in *.
    assert (ContributorsSound counted) as Hcounted.
    { intros key found Hfound. destruct (Hsound _ _ Hfound) as [Hnodup Hmembers].
      split; [done|]. intros member Hmember.
      apply hasUserRepo_alter; [intros user; apply is_Some_alter_lookup|].
      apply hasUserRepo_alter; [done|]. by apply Hmembers. }
    eapply (ContributorsSound_counted author repoKey counted);
      [reflexivity| |exact Hcounted|reflexivity|exact Hstats].
    apply hasUserRepo_alter; [intros user; apply is_Some_alter_lookup|].
    by apply hasUserRepo_alter.
  - intros other stats Hstats.
    set (counted := updUserRepo author repoKey (UserRepoStats.addPullRequests n)
                      (updUser author (UserStats.addPRs n) c)) in *.
    assert (ContributorsSound counted) as Hcounted.
    { intros key found Hfound. destruct (Hsound _ _ Hfound) as [Hnodup Hmembers].
      split; [done|]. intros member Hmember.
      apply hasUserRepo_alter; [intros user; apply is_Some_alter_lookup|].
      apply hasUserRepo_alter; [done|]. by apply Hmembers. }
    eapply (ContributorsSound_counted author repoKey counted);
      [reflexivity| |exact Hcounted|reflexivity|exact Hstats].
    apply hasUserRepo_alter; [intros user; apply is_Some_alter_lookup|].
    by apply hasUserRepo_alter.
  - intros other stats Hstats.
    set (counted := updUserRepo author repoKey (UserRepoStats.addIssues n)
                      (updUser author (UserStats.addIssues n) c)) in *.
    assert (ContributorsSound counted) as Hcounted.
    { intros key found Hfound. destruct (Hsound _ _ Hfound) as [Hnodup Hmembers].
      split; [done|]. intros member Hmember.
      apply hasUserRepo_alter; [intros user; apply is_Some_alter_lookup|].
      apply hasUserRepo_alter; [done|]. by apply Hmembers. }
    eapply (ContributorsSound_counted author repoKey counted);
      [reflexivity| |exact Hcounted|reflexivity|exact Hstats].
    apply hasUserRepo_alter; [intros user; apply is_Some_alter_lookup|].
    by apply hasUserRepo_alter.
  - unfold addCommitLines in *.
    destruct (getCommit config (sha commit)) as [files|]; [|done].
    eapply (ContributorsSound_kept _ (repoKeyOf config) c);
      [| |reflexivity|exact Hsound]; [|done].
    intros member otherKey Hmember.
    apply hasUserRepo_alter; [intros user; apply is_Some_alter_lookup|].
    by apply hasUserRepo_alter.
Qed.

Lemma Updates_ContributorsSound dc dp di c c' :
  Updates dc dp di c c' -> ContributorsSound c -> ContributorsSound c'.
Proof.
  induction 1 as [|? ? ? ? ? ? ? ? ? Hstep _ IH]; [done|].
  intros Hsound. eapply IH, Update_ContributorsSound; [exact Hstep|exact Hsound].
Qed.

Lemma aggregate_ContributorsSound
    fetched getCommit completionOrder env REPOS since until :
  ContributorsSound
    (aggregate fetched getCommit completionOrder env REPOS since until).
Proof.
  destruct (aggregate_processed fetched getCommit completionOrder env REPOS
              since until) as (dc & dp & di & Hrun & _).
  eapply Updates_ContributorsSound; [exact Hrun|]. intros repoKey stats. done.
Qed.

(** X13 (generateContributionReport): in every report no count of
    commits, of pull requests or of issues is negative, the merged pull
    requests are at most the pull requests and the closed issues at most
    the issues, in the summary and in every repository entry. *)
Theorem merged_and_closed_are_within_totals
    (fetched : RepoConfig -> RepoEvents)
    (getCommit : RepoConfig -> string -> option (list FileChange))
    (completionOrder : list RepoConfig -> list RepoConfig)
    (anthropic : PromptKind -> option string)
    (JSON_parse : string -> option json) (toNumber : json -> option Q)
    (env : Env) (REPOS : list RepoConfig) (since until : string)
    (report : Contributions) :
  generateContributionReport fetched getCommit completionOrder anthropic
    JSON_parse toNumber env REPOS since until = Normal report ->
  0 <= Summary.totalCommits (summary report)
  /\ 0 <= Summary.prsMerged (summary report) <= Summary.totalPRs (summary report)
  /\ 0 <= Summary.issuesClosed (summary report)
     <= Summary.totalIssues (summary report)
  /\ map_Forall (fun _ stats => RepositoryCountsSound stats) (repositories report).
Proof.
  intros Hreport.
  apply report_keeps_aggregate in Hreport as (-> & -> & _).
  destruct (aggregate_Sound fetched getCommit completionOrder env REPOS since until)
    as ((? & ? & ? & _) & _ & Hrepos).
  repeat (split; [done|]).
  intros repoKey stats Hstats.
  destruct (Hrepos _ _ Hstats) as (? & ? & ? & _).
  unfold RepositoryCountsSound. tauto.
Qed.

Lemma merged_and_closed_are_within_totals_witness :
  0 <= Summary.totalCommits (summary (demoScored ∅ [repo_o_a; repo_o_b]))
  /\ 0 <= Summary.prsMerged (summary (demoScored ∅ [repo_o_a; repo_o_b]))
     <= Summary.totalPRs (summary (demoScored ∅ [repo_o_a; repo_o_b]))
  /\ 0 <= Summary.issuesClosed (summary (demoScored ∅ [repo_o_a; repo_o_b]))
     <= Summary.totalIssues (summary (demoScored ∅ [repo_o_a; repo_o_b]))
  /\ map_Forall (fun _ stats => RepositoryCountsSound stats)
       (repositories (demoScored ∅ [repo_o_a; repo_o_b])).
Proof.
  apply (merged_and_closed_are_within_totals demoFetched demoGetCommit inOrder
           unreachable refuseAll numberOf ∅ [repo_o_a; repo_o_b] "since" "until").
  vm_compute. reflexivity.
Defined.

Lemma hasUserRepo_figures (usersObj aggregated : gmap string UserStats.t)
    author repoKey :
  figures <$> usersObj = figures <$> aggregated ->
  hasUserRepo aggregated author repoKey = true ->
  hasUserRepo usersObj author repoKey = true.
Proof.
  intros Hsame. rewrite !hasUserRepo_spec. intros (counted & Hcounted & Hentry).
  symmetry in Hsame.
  destruct (lookup_figures _ _ _ _ Hsame Hcounted) as (user & Huser & Hfigures).
  exists user. split; [done|].
  unfold figures in Hfigures. injection Hfigures as _ _ _ _ _ _ Hrepos.
  by rewrite <- Hrepos.
Qed.

(** X14 (generateContributionReport): in every report the contributors
    of a repository entry are listed once each, and each of them is a user
    of the report whose per-repository breakdown has an entry for that
    repository. *)
Theorem contributors_are_users_listed_once
    (fetched : RepoConfig -> RepoEvents)
    (getCommit : RepoConfig -> string -> option (list FileChange))
    (completionOrder : list RepoConfig -> list RepoConfig)
    (anthropic : PromptKind -> option string)
    (JSON_parse : string -> option json) (toNumber : json -> option Q)
    (env : Env) (REPOS : list RepoConfig) (since until : string)
    (report : Contributions) :
  generateContributionReport fetched getCommit completionOrder anthropic
    JSON_parse toNumber env REPOS since until = Normal report ->
  map_Forall (ContributorsListed (users report)) (repositories report).
Proof.
  intros Hreport.
  apply report_keeps_aggregate in Hreport as (_ & -> & Hsame).
  intros repoKey stats Hstats.
  destruct (aggregate_ContributorsSound fetched getCommit completionOrder env
              REPOS since until repoKey stats Hstats) as [Hnodup Hmembers].
  split; [done|]. apply Forall_forall. intros author Hauthor.
  eapply hasUserRepo_figures; [exact Hsame|]. by apply Hmembers.
Qed.

Lemma contributors_are_users_listed_once_witness :
  map_Forall (ContributorsListed (users (demoScored ∅ [repo_o_a; repo_o_b])))
    (repositories (demoScored ∅ [repo_o_a; repo_o_b])).
Proof.
  apply (contributors_are_users_listed_once demoFetched demoGetCommit inOrder
           unreachable refuseAll numberOf ∅ [repo_o_a; repo_o_b] "since" "until").
  vm_compute. reflexivity.
Defined.

(** X15 (generateContributionReport): when every pull request and every
    issue fetched has a user (so that no part of a repository's processing
    is abandoned while commit details are still being fetched), the three
    line totals of the summary are the sums of the users' line totals, and
    each user's line totals are the sums over the user's per-repository
    breakdown. *)
Theorem line_totals_are_sums
    (fetched : RepoConfig -> RepoEvents)
    (getCommit : RepoConfig -> string -> option (list FileChange))
    (completionOrder : list RepoConfig -> list RepoConfig)
    (anthropic : PromptKind -> option string)
    (JSON_parse : string -> option json) (toNumber : json -> option Q)
    (env : Env) (REPOS : list RepoConfig) (since until : string)
    (report : Contributions) :
  AuthorsKnown fetched ->
  generateContributionReport fetched getCommit completionOrder anthropic
    JSON_parse toNumber env REPOS since until = Normal report ->
  Summary.totalLinesAdded (summary report)
  = sumOver UserStats.linesAdded (users report)
  /\ Summary.totalLinesDeleted (summary report)
     = sumOver UserStats.linesDeleted (users report)
  /\ Summary.totalLinesModified (summary report)
     = sumOver UserStats.linesModified (users report)
  /\ map_Forall (fun _ user => LinesBalanced user) (users report).
Proof.
  intros _ Hreport.
  apply report_keeps_aggregate in Hreport as (Hsummary & _ & Hsame).
  destruct (aggregate_gaps fetched getCommit completionOrder env REPOS since until)
    as (_ & Hlines & _).
  unfold linesGap in Hlines. injection Hlines as Hadded Hdeleted Hmodified.
  pose proof Hsame as Hsums.
  apply same_figures_sums in Hsums as (_ & _ & _ & -> & -> & ->).
  rewrite Hsummary. repeat (split; [lia|]).
  intros username user Huser.
  destruct (lookup_figures _ _ _ _ Hsame Huser) as (counted & Hcounted & Hfigures).
  pose proof (aggregate_AllBalanced fetched getCommit completionOrder env REPOS
                since until username counted Hcounted) as Hbalanced.
  unfold UserBalanced, balanceFields in Hbalanced.
  rewrite !Forall_cons in Hbalanced. cbn in Hbalanced.
  destruct Hbalanced as (_ & _ & _ & Ha & Hd & Hm & _).
  unfold figures in Hfigures. injection Hfigures as _ _ _ Ha' Hd' Hm' Hrepos.
  unfold LinesBalanced. rewrite Ha', Hd', Hm', Hrepos. by repeat split.
Qed.

Lemma line_totals_are_sums_witness :
  Summary.totalLinesAdded (summary (demoScored ∅ [repo_o_a; repo_o_b]))
  = sumOver UserStats.linesAdded (users (demoScored ∅ [repo_o_a; repo_o_b]))
  /\ Summary.totalLinesDeleted (summary (demoScored ∅ [repo_o_a; repo_o_b]))
     = sumOver UserStats.linesDeleted (users (demoScored ∅ [repo_o_a; repo_o_b]))
  /\ Summary.totalLinesModified (summary (demoScored ∅ [repo_o_a; repo_o_b]))
     = sumOver UserStats.linesModified (users (demoScored ∅ [repo_o_a; repo_o_b]))
  /\ map_Forall (fun _ user => LinesBalanced user)
       (users (demoScored ∅ [repo_o_a; repo_o_b])).
Proof.
  apply (line_totals_are_sums demoFetched demoGetCommit inOrder
           unreachable refuseAll numberOf ∅ [repo_o_a; repo_o_b] "since" "until").
  - exact AuthorsKnown_demoFetched.
  - vm_compute. reflexivity.
Defined.

(** X16 (generateContributionReport): under the same condition, lines
    modified are lines added plus lines deleted at every level of the
    report: in the summary, in every repository entry, in every user's
    totals and in every entry of a user's per-repository breakdown. *)
Theorem lines_modified_are_added_plus_deleted
    (fetched : RepoConfig -> RepoEvents)
    (getCommit : RepoConfig -> string -> option (list FileChange))
    (completionOrder : list RepoConfig -> list RepoConfig)
    (anthropic : PromptKind -> option string)
    (JSON_parse : string -> option json) (toNumber : json -> option Q)
    (env : Env) (REPOS : list RepoConfig) (since until : string)
    (report : Contributions) :
  AuthorsKnown fetched ->
  generateContributionReport fetched getCommit completionOrder anthropic
    JSON_parse toNumber env REPOS since until = Normal report ->
  Summary.totalLinesModified (summary report)
  = Summary.totalLinesAdded (summary report)
    + Summary.totalLinesDeleted (summary report)
  /\ map_Forall
       (fun _ stats =>
          RepositoryStats.linesModified stats
          = RepositoryStats.linesAdded stats + RepositoryStats.linesDeleted stats)
       (repositories report)
  /\ map_Forall (fun _ user => UserLinesSound user) (users report).
Proof.
  intros _ Hreport.
  apply report_keeps_aggregate in Hreport as (-> & -> & Hsame).
  destruct (aggregate_Sound fetched getCommit completionOrder env REPOS since until)
    as ((_ & _ & _ & Hsummary) & Husers & Hrepos).
  split; [done|]. split.
  - intros repoKey stats Hstats. by destruct (Hrepos _ _ Hstats) as (_ & _ & _ & ?).
  - intros username user Huser.
    destruct (lookup_figures _ _ _ _ Hsame Huser) as (counted & Hcounted & Hfigures).
    destruct (Husers _ _ Hcounted) as (_ & _ & _ & Hlines & Hentries).
    unfold figures in Hfigures. injection Hfigures as _ _ _ Ha Hd Hm Hbreakdown.
    unfold UserLinesSound. rewrite Ha, Hd, Hm, Hbreakdown. split; [done|].
    intros repoKey entry Hentry. by destruct (Hentries _ _ Hentry) as (_ & _ & _ & ?).
Qed.

Lemma lines_modified_are_added_plus_deleted_witness :
  Summary.totalLinesModified (summary (demoScored ∅ [repo_o_a; repo_o_b]))
  = Summary.totalLinesAdded (summary (demoScored ∅ [repo_o_a; repo_o_b]))
    + Summary.totalLinesDeleted (summary (demoScored ∅ [repo_o_a; repo_o_b]))
  /\ map_Forall
       (fun _ stats =>
          RepositoryStats.linesModified stats
          = RepositoryStats.linesAdded stats + RepositoryStats.linesDeleted stats)
       (repositories (demoScored ∅ [repo_o_a; repo_o_b]))
  /\ map_Forall (fun _ user => UserLinesSound user)
       (users (demoScored ∅ [repo_o_a; repo_o_b])).
Proof.
  apply (lines_modified_are_added_plus_deleted demoFetched demoGetCommit inOrder
           unreachable refuseAll numberOf ∅ [repo_o_a; repo_o_b] "since" "until").
  - exact AuthorsKnown_demoFetched.
  - vm_compute. reflexivity.
Defined.

Lemma lookup_withoutNarrative (usersObj before : gmap string UserStats.t)
    username user :
  UserStats.setCodeQualityGrade "N/A" <$> usersObj
  = UserStats.setCodeQualityGrade "N/A" <$> before ->
  usersObj !! username = Some user ->
  exists known,
    before !! username = Some known
    /\ user = UserStats.setCodeQualityGrade (UserStats.codeQualityGrade user) known.
Proof.
  intros Hsame Huser.
  apply (f_equal (fun m => m !! username)) in Hsame.
  rewrite !lookup_fmap, Huser in Hsame.
  destruct (before !! username) as [known|]; [|done].
  exists known. split; [done|].
  apply (inj Some) in Hsame. destruct user, known. cbn in *.
  by simplify_eq.
Qed.

(** X17 (generateContributionReport): when nothing of the processing of
    a repository is abandoned (every pull request and every issue fetched
    has a user, and no author is named like a member of
    [Object.prototype]), every user of a report has the activity score
    [totalCommits * 3 + totalPRs * 5 + totalIssues] and the effort grade
    that [calculateEffortGrade] gives for the user's [linesModified] and
    that score, whatever the narrative stage did. *)
Theorem users_are_scored_from_their_counters
    (fetched : RepoConfig -> RepoEvents)
    (getCommit : RepoConfig -> string -> option (list FileChange))
    (completionOrder : list RepoConfig -> list RepoConfig)
    (anthropic : PromptKind -> option string)
    (JSON_parse : string -> option json) (toNumber : json -> option Q)
    (env : Env) (REPOS : list RepoConfig) (since until : string)
    (report : Contributions) :
  NothingAbandoned fetched ->
  generateContributionReport fetched getCommit completionOrder anthropic
    JSON_parse toNumber env REPOS since until = Normal report ->
  map_Forall (fun _ user => UserScored user) (users report).
Proof.
  intros _ Hreport username user Huser.
  apply report_keeps_scored in Hreport.
  unfold withoutNarrative in Hreport. injection Hreport as _ Hsame _.
  destruct (lookup_withoutNarrative _ _ _ _ Hsame Huser)
    as (known & Hknown & Hgraded).
  rewrite Hgraded. unfold scored in Hknown. cbn [users withUsers] in Hknown.
  rewrite lookup_fmap in Hknown.
  destruct (users (aggregate fetched getCommit completionOrder env REPOS
                     since until) !! username) as [counted|]; [|done].
  cbn in Hknown. injection Hknown as <-. by split.
Qed.

Lemma users_are_scored_from_their_counters_witness :
  map_Forall (fun _ user => UserScored user)
    (users (demoScored ∅ [repo_o_a; repo_o_b])).
Proof.
  apply (users_are_scored_from_their_counters demoFetched demoGetCommit inOrder
           unreachable refuseAll numberOf ∅ [repo_o_a; repo_o_b] "since" "until").
  - exact NothingAbandoned_demoFetched.
  - vm_compute. reflexivity.
Defined.

(** X18 (generateContributionReport): the narrative stage writes nothing
    but [aiAnalysis] and the users' [codeQualityGrade].  When nothing of
    the processing of a repository is abandoned (every pull request and
    every issue fetched has a user, and no author is named like a member
    of [Object.prototype]), so that no line counts are added while the
    stage waits, then whatever the text-generation service answers, the
    summary and the repository entries of a report are those computed
    before the stage, the users are the same users, and each user is as
    before but for the quality grade. *)
Theorem narrative_stage_writes_grades_only
    (fetched : RepoConfig -> RepoEvents)
    (getCommit : RepoConfig -> string -> option (list FileChange))
    (completionOrder : list RepoConfig -> list RepoConfig)
    (anthropic : PromptKind -> option string)
    (JSON_parse : string -> option json) (toNumber : json -> option Q)
    (env : Env) (REPOS : list RepoConfig) (since until : string)
    (report : Contributions) :
  NothingAbandoned fetched ->
  generateContributionReport fetched getCommit completionOrder anthropic
    JSON_parse toNumber env REPOS since until = Normal report ->
  summary report
  = summary (scored fetched getCommit completionOrder env REPOS since until)
  /\ repositories report
     = repositories (scored fetched getCommit completionOrder env REPOS since until)
  /\ dom (users report)
     = dom (users (scored fetched getCommit completionOrder env REPOS since until))
  /\ map_Forall
       (fun username user =>
          exists before,
            users (scored fetched getCommit completionOrder env REPOS since until)
              !! username = Some before
            /\ user
               = UserStats.setCodeQualityGrade (UserStats.codeQualityGrade user)
                   before)
       (users report).
Proof.
  intros _ Hreport. apply report_keeps_scored in Hreport.
  unfold withoutNarrative in Hreport. injection Hreport as Hsummary Husers Hrepos.
  split; [done|]. split; [done|]. split.
  - rewrite <- (dom_fmap_L (UserStats.setCodeQualityGrade "N/A") (users report)).
    rewrite Husers. apply dom_fmap_L.
  - intros username user Huser. by eapply lookup_withoutNarrative.
Qed.

Example gradedReport_alice :
  UserStats.codeQualityGrade <$> users gradedContributions !! "alice" = Some "A"
  /\ users gradedContributions !! "nobody" = None
  /\ gradedReport = Normal gradedContributions.
Proof. by vm_compute. Qed.

Lemma convertScoreToGrade_in_grades (q : Q) : convertScoreToGrade q ∈ qualityGrades.
Proof.
  unfold convertScoreToGrade, qualityGrades. repeat case_match; set_solver.
Qed.

Lemma foldC_preserves {A B} (P : A -> Prop) (step : A -> B -> Completion A)
    (items : list B) (start result : A) :
  (forall a b a', step a b = Normal a' -> P a -> P a') ->
  foldC step start items = Normal result -> P start -> P result.
Proof.
  intros Hstep. revert start.
  induction items as [| item items IH]; intros start; cbn.
  - by intros [= <-].
  - destruct (step start item) as [next |] eqn:Hnext; cbn; [| done].
    intros Hrest Hstart. eapply IH; [exact Hrest|]. by eapply Hstep.
Qed.

Lemma gradeFromAnalysis_valid toNumber c entry c' :
  gradeFromAnalysis toNumber c entry = Normal c' ->
  AllGradesValid c -> AllGradesValid c'.
Proof.
  unfold gradeFromAnalysis. destruct entry as [username analysis].
  destruct (hasUser (users c) username || inherited username);
    [| by intros [= <-]].
  destruct (getProp analysis "codeQualityScore") as [[score |] |]; cbn;
    [| by intros [= <-] | done].
  destruct (truthy score); [|by intros [= <-]].
  intros [= <-] Hvalid username' user. cbn.
  destruct (decide (username' = username)) as [-> | Hne].
  - rewrite lookup_alter_eq.
    destruct (users c !! username) as [known|]; [|done].
    cbn. intros [= <-]. right. cbn. unfold gradeOfScore.
    destruct (toNumber score); [apply convertScoreToGrade_in_grades|].
    unfold qualityGrades. set_solver.
  - rewrite lookup_alter_ne by done. apply Hvalid.
Qed.

Lemma narrativeStage_valid anthropic JSON_parse toNumber env c report requests :
  narrativeStage anthropic JSON_parse toNumber env c = (Normal report, requests) ->
  AllGradesValid c -> AllGradesValid report.
Proof.
  unfold narrativeStage.
  destruct (bool_decide (env !! "SKIP_AI_ANALYSIS" = Some "true"));
    [by intros [= <- _] |].
  destruct (generateDetailedAIAnalysis anthropic JSON_parse env c)
    as [detailed detailedRequests].
  destruct (if truthyOpt detailed then detailed else None) as [analysis |].
  - destruct (getProp analysis "contributors") as [[contributors |] |]; cbn;
      [| by intros [= <- _] | done].
    destruct (truthy contributors); [| by intros [= <- _]].
    intros [= Hfold _] Hvalid.
    eapply (foldC_preserves AllGradesValid) in Hfold; [done| |done].
    intros. by eapply gradeFromAnalysis_valid.
  - destruct (generateAIAnalysis anthropic JSON_parse env c) as [basic more].
    destruct (if truthyOpt basic then basic else None); by intros [= <- _].
Qed.

Lemma AllUngraded_updUserRepo author repoKey onUser onEntry c :
  (forall user,
      UserStats.codeQualityGrade (onUser user) = UserStats.codeQualityGrade user) ->
  AllUngraded c ->
  AllUngraded (updUserRepo author repoKey onEntry (updUser author onUser c)).
Proof.
  intros Hkeep Hall username user. rewrite lookup_updUserRepo.
  destruct (decide (username = author)) as [-> | Hne]; [|apply Hall].
  destruct (users c !! author) as [known|] eqn:Hknown; [|done].
  cbn. intros [= <-]. cbn. rewrite Hkeep. by eapply Hall.
Qed.

Lemma Update_AllUngraded dc dp di c c' :
  Update dc dp di c c' -> AllUngraded c -> AllUngraded c'.
Proof.
  intros Hstep Hall.
  destruct Hstep as
    [ c config | c repoKey n Hn | c repoKey n merged Hn | c repoKey n closed Hn
    | c author repoKey Htruthy
    | c author repoKey n Hhas Hn | c author repoKey n Hhas Hn
    | c author repoKey n Hhas Hn
    | c getCommit config author commit Hhas ];
    try exact Hall.
  - unfold ensuredUserStats. intros username user. cbn.
    destruct (decide (username = author)) as [-> | Hne].
    + rewrite lookup_insert_eq. intros [= <-]. unfold ensured.
      assert (UserStats.codeQualityGrade
                (default UserStats.zero (users c !! author)) = "N/A") as Hknown.
      { destruct (users c !! author) as [known|] eqn:Hknown; [|done].
        by eapply Hall. }
      by destruct (UserStats.repositories _ !! repoKey).
    + rewrite lookup_insert_ne by done. apply Hall.
  - by apply (AllUngraded_updUserRepo author repoKey).
  - by apply (AllUngraded_updUserRepo author repoKey).
  - by apply (AllUngraded_updUserRepo author repoKey).
  - unfold addCommitLines. destruct (getCommit config (sha commit)); [|done].
    by apply (AllUngraded_updUserRepo author (repoKeyOf config)).
Qed.

Lemma Updates_AllUngraded dc dp di c c' :
  Updates dc dp di c c' -> AllUngraded c -> AllUngraded c'.
Proof.
  induction 1 as [|? ? ? ? ? ? ? ? ? Hstep _ IH]; [done|].
  intros Hall. eapply IH, Update_AllUngraded; [exact Hstep|exact Hall].
Qed.

(** X19 (generateContributionReport, convertScoreToGrade): in every
    report each user's [codeQualityGrade] is ['N/A'] or one of the twelve
    grades of [convertScoreToGrade], whatever document the text-generation
    service sent. *)
Theorem quality_grades_are_valid
    (fetched : RepoConfig -> RepoEvents)
    (getCommit : RepoConfig -> string -> option (list FileChange))
    (completionOrder : list RepoConfig -> list RepoConfig)
    (anthropic : PromptKind -> option string)
    (JSON_parse : string -> option json) (toNumber : json -> option Q)
    (env : Env) (REPOS : list RepoConfig) (since until : string)
    (report : Contributions) :
  generateContributionReport fetched getCommit completionOrder anthropic
    JSON_parse toNumber env REPOS since until = Normal report ->
  map_Forall (fun _ user => QualityGradeValid user) (users report).
Proof.
  unfold generateContributionReport, generateContributionReport_run.
  destruct (narrativeStage anthropic JSON_parse toNumber env
              (scored fetched getCommit completionOrder env REPOS since until))
    as [completion requests] eqn:Hstage.
  cbn. intros ->. eapply narrativeStage_valid; [exact Hstage|].
  destruct (aggregate_processed fetched getCommit completionOrder env REPOS
              since until) as (dc & dp & di & Hrun & _).
  apply Updates_AllUngraded in Hrun; [|intros username user; done].
  intros username user. unfold scored. cbn. rewrite lookup_fmap.
  destruct (users _ !! username) as [counted|] eqn:Hcounted; [|done].
  cbn. intros [= <-]. left. cbn. by eapply Hrun.
Qed.

Lemma quality_grades_are_valid_witness :
  map_Forall (fun _ user => QualityGradeValid user) (users gradedContributions).
Proof.
  apply (quality_grades_are_valid demoFetched demoGetCommit inOrder answering
           parseScores numberOf withApiKey [repo_o_a; repo_o_b] "since" "until").
  vm_compute. reflexivity.
Defined.

Lemma narrative_stage_writes_grades_only_witness :
  summary gradedContributions
  = summary (demoScored withApiKey [repo_o_a; repo_o_b])
  /\ repositories gradedContributions
     = repositories (demoScored withApiKey [repo_o_a; repo_o_b])
  /\ dom (users gradedContributions)
     = dom (users (demoScored withApiKey [repo_o_a; repo_o_b]))
  /\ map_Forall
       (fun username user =>
          exists before,
            users (demoScored withApiKey [repo_o_a; repo_o_b]) !! username
            = Some before
            /\ user
               = UserStats.setCodeQualityGrade (UserStats.codeQualityGrade user)
                   before)
       (users gradedContributions).
Proof.
  apply (narrative_stage_writes_grades_only demoFetched demoGetCommit inOrder
           answering parseScores numberOf withApiKey [repo_o_a; repo_o_b]
           "since" "until").
  - exact NothingAbandoned_demoFetched.
  - vm_compute. reflexivity.
Defined.

Lemma foldl_keeps_view {B V} (view : Contributions -> V)
    (step : Contributions -> B -> Contributions)
    (items : list B) (c : Contributions) :
  (forall c item, view (step c item) = view c) ->
  view (foldl step c items) = view c.
Proof.
  intros Hstep. revert c.
  induction items as [| item items IH]; intros c; cbn; [done |].
  by rewrite IH, Hstep.
Qed.

Lemma repoTallies_updRepo key change change' c :
  (forall stats, repoTally (change stats) = change' (repoTally stats)) ->
  repoTallies (updRepo key change c) = alter change' key (repoTallies c).
Proof. intros Hchange. unfold repoTallies, updRepo; cbn. by apply fmap_alter. Qed.

Lemma repoTallies_updRepo_keep key change c :
  (forall stats, repoTally (change stats) = repoTally stats) ->
  repoTallies (updRepo key change c) = repoTallies c.
Proof.
  intros Hkeep. rewrite (repoTallies_updRepo _ _ id) by done. by apply alter_id.
Qed.

Lemma repoTallies_ensureUserStats author repoKey c :
  repoTallies (ensuredUserStats author repoKey c) = repoTallies c.
Proof. reflexivity. Qed.

Lemma repoTallies_addCommitLines getCommit config author commit c :
  repoTallies (addCommitLines getCommit config author commit c) = repoTallies c.
Proof.
  unfold addCommitLines. destruct (getCommit config (sha commit)); [| done].
  change (repoTallies (updSummary ?f ?c')) with (repoTallies c').
  by rewrite repoTallies_updRepo_keep by done.
Qed.

Lemma repoTallies_processAuthorCommits getCommit config c entry :
  repoTallies (processAuthorCommits getCommit config c entry) = repoTallies c.
Proof.
  unfold processAuthorCommits. destruct entry as [author authorCommits].
  author_cases; [|done].
  rewrite (foldl_keeps_view repoTallies).
  - rewrite repoTallies_updRepo_keep by done.
    apply repoTallies_ensureUserStats.
  - intros c' batch. apply (foldl_keeps_view repoTallies).
    intros c'' commit. apply repoTallies_addCommitLines.
Qed.

Lemma repoTallies_processAuthorPRs config c entry :
  repoTallies (processAuthorPRs config c entry) = repoTallies c.
Proof.
  unfold processAuthorPRs. destruct entry as [author authorPRs].
  author_cases; [|done].
  rewrite repoTallies_updRepo_keep by done.
  apply repoTallies_ensureUserStats.
Qed.

Lemma repoTallies_processAuthorIssues config c entry :
  repoTallies (processAuthorIssues config c entry) = repoTallies c.
Proof.
  unfold processAuthorIssues. destruct entry as [author authorIssues].
  author_cases; [|done].
  rewrite repoTallies_updRepo_keep by done.
  apply repoTallies_ensureUserStats.
Qed.

Lemma repoTallies_processCommits getCommit config commits c :
  repoTallies (processCommits getCommit config commits c)
  = alter (fun tally => (lengthZ commits, tally.1.1.1.2, tally.1.1.2,
                         tally.1.2, tally.2))
      (repoKeyOf config) (repoTallies c).
Proof.
  unfold processCommits.
  assert (repoTallies
            (updRepo (repoKeyOf config) (RepositoryStats.setCommits (lengthZ commits))
               (updSummary (Summary.addCommits (lengthZ commits)) c))
          = alter (fun tally => (lengthZ commits, tally.1.1.1.2, tally.1.1.2,
                                 tally.1.2, tally.2))
              (repoKeyOf config) (repoTallies c)) as Hhead.
  { by rewrite (repoTallies_updRepo _ _
                  (fun tally => (lengthZ commits, tally.1.1.1.2, tally.1.1.2,
                                 tally.1.2, tally.2))). }
  destruct (lengthZ commits =? 0); [done |].
  rewrite (foldl_keeps_view repoTallies); [done |].
  intros. apply repoTallies_processAuthorCommits.
Qed.

Lemma repoTallies_processPRs config prs c :
  repoTallies (processPRs config prs c)
  = alter (fun tally => (tally.1.1.1.1, lengthZ prs,
                         lengthZ (List.filter pr_merged prs), tally.1.2, tally.2))
      (repoKeyOf config) (repoTallies c).
Proof.
  unfold processPRs.
  assert (repoTallies
            (updRepo (repoKeyOf config)
               (RepositoryStats.setPullRequests (lengthZ prs)
                  (lengthZ (List.filter pr_merged prs)))
               (updSummary
                  (Summary.addPRs (lengthZ prs) (lengthZ (List.filter pr_merged prs)))
                  c))
          = alter (fun tally => (tally.1.1.1.1, lengthZ prs,
                                 lengthZ (List.filter pr_merged prs),
                                 tally.1.2, tally.2))
              (repoKeyOf config) (repoTallies c)) as Hhead.
  { by rewrite (repoTallies_updRepo _ _
                  (fun tally => (tally.1.1.1.1, lengthZ prs,
                                 lengthZ (List.filter pr_merged prs),
                                 tally.1.2, tally.2))). }
  destruct (lengthZ prs =? 0); [done |].
  destruct (mapM pr_user_login prs); [| done].
  rewrite (foldl_keeps_view repoTallies); [done |].
  intros. apply repoTallies_processAuthorPRs.
Qed.

Lemma repoTallies_processIssues config issues c :
  repoTallies (processIssues config issues c)
  = alter (fun tally =>
             if lengthZ issues =? 0 then tally
             else
               (tally.1.1.1.1, tally.1.1.1.2, tally.1.1.2,
                lengthZ (List.filter (fun issue => negb (issue_pull_request issue))
                           issues),
                lengthZ (List.filter
                           (fun issue => String.eqb (issue_state issue) "closed")
                           (List.filter
                              (fun issue => negb (issue_pull_request issue))
                              issues))))
      (repoKeyOf config) (repoTallies c).
Proof.
  unfold processIssues.
  destruct (lengthZ issues =? 0); [by rewrite alter_id|].
  match goal with
  | |- repoTallies (match ?m with Some _ => _ | None => ?c' end) = ?rhs =>
      assert (repoTallies c' = rhs) as Hhead;
      [| destruct m; [rewrite (foldl_keeps_view repoTallies); [done |] | done] ]
  end.
  - by rewrite (repoTallies_updRepo _ _
                  (fun tally =>
                     (tally.1.1.1.1, tally.1.1.1.2, tally.1.1.2,
                      lengthZ (List.filter
                                 (fun issue => negb (issue_pull_request issue))
                                 issues),
                      lengthZ (List.filter
                                 (fun issue => String.eqb (issue_state issue) "closed")
                                 (List.filter
                                    (fun issue => negb (issue_pull_request issue))
                                    issues))))).
  - intros. apply repoTallies_processAuthorIssues.
Qed.

Lemma repoTallies_initRepository c config :
  repoTallies (initRepository c config)
  = <[repoKeyOf config := (0, 0, 0, 0, 0)]> (repoTallies c).
Proof. unfold repoTallies, initRepository, withRepositories; cbn. by rewrite fmap_insert. Qed.

Lemma lengthZ_zero {A} (l : list A) : lengthZ l = 0 -> l = [].
Proof. destruct l; [done|]. unfold lengthZ. cbn. lia. Qed.

Lemma repoTallies_processRepository fetched getCommit c config :
  repoTallies c !! repoKeyOf config = Some (0, 0, 0, 0, 0) ->
  repoTallies (processRepository fetched getCommit c config)
  = <[repoKeyOf config := fetchedTally (fetched config)]> (repoTallies c).
Proof.
  intros Hfresh. unfold processRepository.
  rewrite repoTallies_processIssues, repoTallies_processPRs,
    repoTallies_processCommits.
  apply map_eq. intros key.
  destruct (decide (key = repoKeyOf config)) as [-> | Hne].
  - rewrite !lookup_alter_eq, lookup_insert_eq, Hfresh. cbn.
    unfold fetchedTally.
    destruct (Z.eqb_spec (lengthZ (issuesFetched (fetched config))) 0) as [Hnone|];
      [|done].
    apply lengthZ_zero in Hnone. by rewrite Hnone.
  - by rewrite !lookup_alter_ne, lookup_insert_ne by done.
Qed.

Lemma TalliesInv_init expected done pending tallies key :
  key ∉ done ∪ pending ->
  TalliesInv expected done pending tallies ->
  TalliesInv expected done ({[key]} ∪ pending) (<[key := (0, 0, 0, 0, 0)]> tallies).
Proof.
  intros Hnew (Hdone & Hpending & Hdom). split; [|split].
  - intros other Hother. rewrite lookup_insert_ne; [by apply Hdone|].
    intros <-. apply Hnew. by apply elem_of_union_l.
  - intros other Hother. destruct (decide (other = key)) as [-> | Hne].
    + apply lookup_insert_eq.
    + rewrite lookup_insert_ne by done. apply Hpending.
      apply elem_of_union in Hother as [Hother%elem_of_singleton | Hother]; done.
  - rewrite dom_insert_L, Hdom.
    by rewrite (union_comm_L done), union_assoc_L, (union_comm_L _ done).
Qed.

Lemma TalliesInv_process expected done pending tallies key :
  key ∈ pending ->
  TalliesInv expected done pending tallies ->
  TalliesInv expected (done ∪ {[key]}) (pending ∖ {[key]})
    (<[key := expected key]> tallies).
Proof.
  intros Hkey (Hdone & Hpending & Hdom). split; [|split].
  - intros other Hother. destruct (decide (other = key)) as [-> | Hne].
    + apply lookup_insert_eq.
    + rewrite lookup_insert_ne by done. apply Hdone.
      apply elem_of_union in Hother as [Hother | Hother%elem_of_singleton]; done.
  - intros other [Hother Hne]%elem_of_difference.
    rewrite lookup_insert_ne; [by apply Hpending|].
    intros <-. apply Hne. by apply elem_of_singleton.
  - rewrite dom_insert_L, Hdom. apply set_eq. intros other.
    rewrite !elem_of_union, elem_of_difference, !elem_of_singleton.
    destruct (decide (other = key)) as [-> | Hne]; [tauto|]. tauto.
Qed.

Lemma foldl_initRepository_tallies expected chunk c done pending :
  NoDup (repoKeyOf <$> chunk) ->
  (forall config, config ∈ chunk -> repoKeyOf config ∉ done ∪ pending) ->
  TalliesInv expected done pending (repoTallies c) ->
  TalliesInv expected done (pending ∪ list_to_set (repoKeyOf <$> chunk))
    (repoTallies (foldl initRepository c chunk)).
Proof.
  revert c pending.
  induction chunk as [| config chunk IH]; intros c pending Hnd Hnew Hinv; cbn.
  - by rewrite union_empty_r_L.
  - apply NoDup_cons in Hnd as [Hfirst Hnd].
    rewrite union_assoc_L, (union_comm_L pending).
    apply IH; [done | |].
    + intros other Hother Hin.
      apply elem_of_union in Hin as [Hin | [Hin | Hin]%elem_of_union].
      * apply (Hnew other); [by right | by apply elem_of_union_l].
      * apply elem_of_singleton in Hin. apply Hfirst. rewrite <- Hin.
        by apply list_elem_of_fmap_2.
      * apply (Hnew other); [by right | by apply elem_of_union_r].
    + rewrite repoTallies_initRepository.
      apply TalliesInv_init; [| done]. apply Hnew. by left.
Qed.

Lemma foldl_processRepository_tallies
    expected fetched getCommit order c done pending :
  (forall config,
      config ∈ order -> expected (repoKeyOf config) = fetchedTally (fetched config)) ->
  NoDup (repoKeyOf <$> order) ->
  (forall config, config ∈ order -> repoKeyOf config ∈ pending) ->
  TalliesInv expected done pending (repoTallies c) ->
  TalliesInv expected (done ∪ list_to_set (repoKeyOf <$> order))
    (pending ∖ list_to_set (repoKeyOf <$> order))
    (repoTallies (foldl (processRepository fetched getCommit) c order)).
Proof.
  revert c done pending.
  induction order as [| config order IH];
    intros c done pending Hexpected Hnd Hin Hinv; cbn.
  - by rewrite union_empty_r_L, difference_empty_L.
  - apply NoDup_cons in Hnd as [Hfirst Hnd].
    rewrite union_assoc_L, <- difference_difference_l_L.
    apply IH; [| done | |].
    + intros other Hother. apply Hexpected. by right.
    + intros other Hother. apply elem_of_difference. split.
      * apply Hin. by right.
      * intros Heq%elem_of_singleton. apply Hfirst. rewrite <- Heq.
        by apply list_elem_of_fmap_2.
    + rewrite repoTallies_processRepository.
      * rewrite <- Hexpected by (by left).
        apply TalliesInv_process; [| done]. apply Hin. by left.
      * destruct Hinv as (_ & Hpending & _). apply Hpending, Hin. by left.
Qed.

Lemma processChunk_tallies expected fetched getCommit completionOrder chunk c done :
  (forall config,
      config ∈ chunk -> expected (repoKeyOf config) = fetchedTally (fetched config)) ->
  completionOrder chunk ≡ₚ chunk ->
  NoDup (repoKeyOf <$> chunk) ->
  (forall config, config ∈ chunk -> repoKeyOf config ∉ done) ->
  TalliesInv expected done ∅ (repoTallies c) ->
  TalliesInv expected (done ∪ list_to_set (repoKeyOf <$> chunk)) ∅
    (repoTallies (processChunk fetched getCommit completionOrder c chunk)).
Proof.
  intros Hexpected Hperm Hnd Hnew Hinv. unfold processChunk.
  assert (Hkeys : list_to_set (repoKeyOf <$> completionOrder chunk)
                  = (list_to_set (repoKeyOf <$> chunk) : gset string)).
  { apply set_eq. intros key.
    by rewrite !elem_of_list_to_set, Hperm. }
  pose proof (foldl_processRepository_tallies expected fetched getCommit
                (completionOrder chunk) (foldl initRepository c chunk) done
                (list_to_set (repoKeyOf <$> chunk))) as Hrun.
  rewrite Hkeys, difference_diag_L in Hrun.
  apply Hrun.
  - intros config Hin. rewrite Hperm in Hin. by apply Hexpected.
  - by rewrite Hperm.
  - intros config Hin. rewrite Hperm in Hin.
    apply elem_of_list_to_set. by apply list_elem_of_fmap_2.
  - rewrite <- (union_empty_l_L (list_to_set (repoKeyOf <$> chunk))).
    apply foldl_initRepository_tallies; [done | | done].
    intros config Hin. rewrite union_empty_r_L. by apply Hnew.
Qed.

Lemma foldl_processChunk_tallies
    expected fetched getCommit completionOrder chunks c done :
  (forall config,
      config ∈ concat chunks ->
      expected (repoKeyOf config) = fetchedTally (fetched config)) ->
  (forall chunk, completionOrder chunk ≡ₚ chunk) ->
  NoDup (repoKeyOf <$> concat chunks) ->
  (forall config, config ∈ concat chunks -> repoKeyOf config ∉ done) ->
  TalliesInv expected done ∅ (repoTallies c) ->
  TalliesInv expected (done ∪ list_to_set (repoKeyOf <$> concat chunks)) ∅
    (repoTallies (foldl (processChunk fetched getCommit completionOrder) c chunks)).
Proof.
  intros Hexpected Hperm. revert c done Hexpected.
  induction chunks as [| chunk chunks IH]; intros c done Hexpected Hnd Hnew Hinv; cbn.
  - by rewrite union_empty_r_L.
  - cbn in Hnd. rewrite fmap_app in Hnd.
    apply NoDup_app in Hnd as (Hchunk & Hdisjoint & Hrest).
    rewrite fmap_app, list_to_set_app_L, union_assoc_L.
    apply IH; [| done | |].
    + intros config Hin. apply Hexpected. cbn. apply elem_of_app. by right.
    + intros config Hin Hkey.
      apply elem_of_union in Hkey as [Hkey | Hkey].
      * apply (Hnew config); [| done]. cbn. apply elem_of_app. by right.
      * apply elem_of_list_to_set in Hkey.
        apply (Hdisjoint _ Hkey). by apply list_elem_of_fmap_2.
    + apply processChunk_tallies; [| done | done | | done].
      * intros config Hin. apply Hexpected. cbn. apply elem_of_app. by left.
      * intros config Hin. apply Hnew. cbn. apply elem_of_app. by left.
Qed.

Lemma expectedTally_elem fetched configs config :
  NoDup (repoKeyOf <$> configs) ->
  config ∈ configs ->
  expectedTally fetched configs (repoKeyOf config) = fetchedTally (fetched config).
Proof.
  induction configs as [|first configs IH]; intros Hnd Hin.
  - by apply elem_of_nil in Hin.
  - cbn in Hnd. apply NoDup_cons in Hnd as [Hfirst Hnd]. cbn.
    apply elem_of_cons in Hin as [-> | Hin].
    + by rewrite String.eqb_refl.
    + destruct (String.eqb_spec (repoKeyOf first) (repoKeyOf config)) as [Heq|_].
      * exfalso. apply Hfirst. rewrite Heq. by apply list_elem_of_fmap_2.
      * by apply IH.
Qed.

(** X20 (generateContributionReport): when the repositories a run
    processes have pairwise distinct [owner/repo] keys, the report has one
    repository entry for each of them and no other, and the entry of a
    repository holds what was fetched for it: the number of commits, of
    pull requests and of merged ones, of issues that are not pull requests
    and of the closed ones among these, in whatever order the fetches of a
    chunk resolve. *)
Theorem repository_entries_hold_what_was_fetched
    (fetched : RepoConfig -> RepoEvents)
    (getCommit : RepoConfig -> string -> option (list FileChange))
    (completionOrder : list RepoConfig -> list RepoConfig)
    (anthropic : PromptKind -> option string)
    (JSON_parse : string -> option json) (toNumber : json -> option Q)
    (env : Env) (REPOS : list RepoConfig) (since until : string)
    (report : Contributions) :
  (forall chunk, completionOrder chunk ≡ₚ chunk) ->
  NoDup (repoKeyOf <$> reposToProcess env REPOS) ->
  generateContributionReport fetched getCommit completionOrder anthropic
    JSON_parse toNumber env REPOS since until = Normal report ->
  dom (repositories report) = list_to_set (repoKeyOf <$> reposToProcess env REPOS)
  /\ Forall
       (fun config =>
          repoTally <$> repositories report !! repoKeyOf config
          = Some (fetchedTally (fetched config)))
       (reposToProcess env REPOS).
Proof.
  intros Hperm Hnd Hreport.
  apply report_keeps_aggregate in Hreport as (_ & -> & _).
  assert (concat (chunkArray (reposToProcess env REPOS)
                    (if isMemoryOptimized env then 2%nat else 5%nat))
          = reposToProcess env REPOS) as Hchunks.
  { apply chunkArray_concat. destruct (isMemoryOptimized env); lia. }
  pose proof (foldl_processChunk_tallies
                (expectedTally fetched (reposToProcess env REPOS))
                fetched getCommit completionOrder
                (chunkArray (reposToProcess env REPOS)
                   (if isMemoryOptimized env then 2%nat else 5%nat))
                (initialContributions REPOS since until) ∅) as Hrun.
  rewrite Hchunks in Hrun.
  destruct Hrun as (Hdone & _ & Hdom).
  { intros config Hin. by apply expectedTally_elem. }
  { exact Hperm. }
  { exact Hnd. }
  { intros config _ []%elem_of_empty. }
  { split; [intros key []%elem_of_empty|].
    split; [intros key []%elem_of_empty|].
    unfold repoTallies. cbn. by rewrite fmap_empty, dom_empty_L, union_empty_r_L. }
  fold (aggregate fetched getCommit completionOrder env REPOS since until)
    in Hdone, Hdom.
  rewrite union_empty_l_L in Hdone.
  unfold repoTallies in Hdom. rewrite dom_fmap_L in Hdom.
  rewrite union_empty_l_L, union_empty_r_L in Hdom. split; [done|].
  apply Forall_forall. intros config Hin.
  rewrite <- lookup_fmap.
  change (repoTally
            <$> repositories
                  (aggregate fetched getCommit completionOrder env REPOS since until))
    with (repoTallies
            (aggregate fetched getCommit completionOrder env REPOS since until)).
  rewrite Hdone.
  - f_equal. by apply expectedTally_elem.
  - apply elem_of_list_to_set. by apply list_elem_of_fmap_2.
Qed.

Lemma repository_entries_hold_what_was_fetched_witness :
  dom (repositories (demoScored ∅ [repo_o_a; repo_o_b]))
  = list_to_set (repoKeyOf <$> reposToProcess ∅ [repo_o_a; repo_o_b])
  /\ Forall
       (fun config =>
          repoTally <$> repositories (demoScored ∅ [repo_o_a; repo_o_b])
                          !! repoKeyOf config
          = Some (fetchedTally (demoFetched config)))
       (reposToProcess ∅ [repo_o_a; repo_o_b]).
Proof.
  apply (repository_entries_hold_what_was_fetched demoFetched demoGetCommit
           inOrder unreachable refuseAll numberOf ∅ [repo_o_a; repo_o_b]
           "since" "until").
  - intros chunk. reflexivity.
  - apply (bool_decide_unpack _). vm_compute. exact I.
  - vm_compute. reflexivity.
Defined.

Example demoUserReport_value :
  demoUserReport
  = Normal {| uc_username := "alice";
              uc_repositories :=
                [ {| line_name := "o/one"; line_commits := 1;
                     line_pullRequests := 0; line_issues := 1 |} ];
              uc_startDate := "since"; uc_endDate := "until";
              uc_totalCommits := 1; uc_totalPRs := 0; uc_totalIssues := 1 |}.
Proof. by vm_compute. Qed.






(** [formatUserReport] on a report of the shape it expects: [user],
    [data] and [period]. *)
Example formatUserReport_expected_shape :
  match
    formatUserReport demoDisplay numberOf (fun _ => "a day")
      (JObj [ ("user", JStr "alice");
              ("data",
               JObj [ ("totalCommits", JNum 1);
                      ("repositories",
                       JObj [ ("o/a", JObj [("commits", JNum 1)]);
                              ("o/b", JObj [("commits", JNum 0)]) ]) ]);
              ("period", JObj []) ])
  with
  | Normal text =>
      includes text "Contributions for alice"
      && includes text "Total Commits: 1"
      && includes text "*o/a*"
      && negb (includes text "*o/b*")
  | Throw _ => false
  end = true.
Proof. by vm_compute. Qed.

(** X22 (formatUserReport, generateAndSendUserReport): the report that
    [generateUserContributionReport] returns has no [data] member, so
    [formatUserReport] throws a [TypeError] on it, whatever it holds; the
    function that answers [/review user] therefore never sends a report:
    its one call of the Slack client is the failure notice, and it
    completes normally whether or not that call succeeds. *)
Theorem user_report_is_never_sent
    (display : option json -> string) (toNumber : json -> option Q)
    (toLocaleDateString : option json -> string)
    (report : Completion UserContributions)
    (postReport respondWithReport postFailureNotice : Completion unit) :
  (forall contributions,
      formatUserReport display toNumber toLocaleDateString
        (userContributionsObject contributions) = Throw TypeError)
  /\ generateAndSendUserReport display toNumber toLocaleDateString report
       postReport respondWithReport postFailureNotice
     = ([PostFailureNotice], Normal ()).
Proof.
  assert (forall contributions,
             formatUserReport display toNumber toLocaleDateString
               (userContributionsObject contributions) = Throw TypeError) as Hthrows.
  { intros contributions. reflexivity. }
  split; [exact Hthrows|].
  unfold generateAndSendUserReport.
  destruct report as [contributions|error]; cbn [bindC].
  - rewrite Hthrows. cbn. by destruct postFailureNotice as [[]|].
  - cbn. by destruct postFailureNotice as [[]|].
Qed.

Lemma insertBefore_sorted (x : string * UserStats.t) sorted :
  ScoresDescend sorted -> ScoresDescend (insertBefore byActivityScore x sorted).
Proof.
  unfold ScoresDescend. induction sorted as [|y sorted IH]; intros Hsorted; cbn.
  - repeat constructor.
  - apply StronglySorted_inv in Hsorted as [Hrest Hfirst].
    unfold byActivityScore at 1.
    destruct (Z.leb_spec (UserStats.activityScore y.2 - UserStats.activityScore x.2) 0)
      as [Hle | Hgt].
    + constructor; [by constructor|]. constructor; [lia|].
      eapply Forall_impl; [exact Hfirst|]. cbn. intros z Hz. lia.
    + constructor; [by apply IH|].
      apply Forall_forall. intros z Hz.
      rewrite insertBefore_Permutation in Hz.
      apply elem_of_cons in Hz as [-> | Hz]; [lia|].
      rewrite Forall_forall in Hfirst. by apply Hfirst.
Qed.

Lemma sortStable_sorted (entries : list (string * UserStats.t)) :
  ScoresDescend (sortStable byActivityScore entries).
Proof.
  unfold sortStable. induction entries as [|x entries IH]; cbn.
  - constructor.
  - by apply insertBefore_sorted.
Qed.

Lemma ScoresDescend_app front back :
  ScoresDescend (front ++ back) ->
  ScoresDescend front
  /\ forall a b,
       a ∈ front -> b ∈ back ->
       UserStats.activityScore b.2 <= UserStats.activityScore a.2.
Proof.
  unfold ScoresDescend. induction front as [|x front IH]; cbn; intros Hsorted.
  - split; [constructor|]. intros a b Ha. by apply elem_of_nil in Ha.
  - apply StronglySorted_inv in Hsorted as [Hrest Hfirst].
    destruct (IH Hrest) as [Hfront Hcross]. split.
    + constructor; [done|]. by apply Forall_app in Hfirst as [? _].
    + intros a b [-> | Ha]%elem_of_cons Hb; [|by apply Hcross].
      apply Forall_app in Hfirst as [_ Hback].
      rewrite Forall_forall in Hback. by apply Hback.
Qed.

(** X23 (generateDetailedAIAnalysis, generateAIAnalysis): the
    contributors handed to the analysis are at most five users of the
    report, each taken once, listed from the highest activity score down;
    they are all the users when there are five or fewer, and no user left
    out has a higher score than one taken. *)
Theorem topContributors_are_the_top_five (usersObj : gmap string UserStats.t) :
  length (topContributors usersObj) = Nat.min 5 (size usersObj)
  /\ NoDup (fst <$> topContributors usersObj)
  /\ ScoresDescend (topContributors usersObj)
  /\ (forall username user,
         (username, user) ∈ topContributors usersObj ->
         usersObj !! username = Some user)
  /\ (forall username user taken,
         usersObj !! username = Some user ->
         (username, user) ∉ topContributors usersObj ->
         taken ∈ topContributors usersObj ->
         UserStats.activityScore user <= UserStats.activityScore taken.2).
Proof.
  unfold topContributors.
  change (fun a b : string * UserStats.t =>
            UserStats.activityScore b.2 - UserStats.activityScore a.2)
    with byActivityScore.
  set (sorted := sortStable byActivityScore (map_to_list usersObj)).
  assert (sorted ≡ₚ map_to_list usersObj) as Hperm
    by apply sortStable_Permutation.
  pose proof (sortStable_sorted (map_to_list usersObj)) as Hsorted.
  fold sorted in Hsorted.
  rewrite <- (take_drop 5 sorted) in Hsorted.
  apply ScoresDescend_app in Hsorted as [Htop Hcross].
  split; [|split; [|split; [|split]]].
  - rewrite length_take, Hperm, length_map_to_list. lia.
  - assert (NoDup (fst <$> sorted)) as Hnodup.
    { rewrite Hperm. apply NoDup_fst_map_to_list. }
    rewrite <- (take_drop 5 sorted), fmap_app in Hnodup.
    by apply NoDup_app in Hnodup as [? _].
  - exact Htop.
  - intros username user Hin. apply elem_of_map_to_list. rewrite <- Hperm.
    rewrite <- (take_drop 5 sorted). apply elem_of_app. by left.
  - intros username user taken Huser Hout Htaken.
    apply (Hcross taken (username, user)); [done|].
    apply elem_of_map_to_list in Huser. rewrite <- Hperm in Huser.
    rewrite <- (take_drop 5 sorted) in Huser.
    apply elem_of_app in Huser as [Huser | Huser]; done.
Qed.

Lemma occurs_app c text more :
  occurs c (text +:+ more) = occurs c text || occurs c more.
Proof.
  induction text as [|first text IH]; simpl; [done|].
  by rewrite IH, orb_assoc.
Qed.

Lemma fromFirstOpen_spec text :
  match fromFirstOpen text with
  | Some suffix =>
      exists before rest,
        text = before +:+ String "{" rest
        /\ suffix = String "{" rest
        /\ occurs "{" before = false
  | None => occurs "{" text = false
  end.
Proof.
  induction text as [|first text IH]; cbn; [done|].
  destruct (Ascii.eqb_spec first "{") as [-> | Hne].
  - by exists "", text.
  - destruct (fromFirstOpen text) as [suffix|].
    + destruct IH as (before & rest & -> & -> & Hbefore).
      exists (String first before), rest. cbn.
      repeat split. rewrite Hbefore. by destruct (Ascii.eqb_spec first "{").
    + exact IH.
Qed.

Lemma upToLastClose_spec text :
  match upToLastClose text with
  | Some prefix =>
      exists middle after,
        text = middle +:+ String "}" after
        /\ prefix = middle +:+ "}"
        /\ occurs "}" after = false
  | None => occurs "}" text = false
  end.
Proof.
  induction text as [|first text IH]; cbn; [done|].
  destruct (upToLastClose text) as [kept|].
  - destruct IH as (middle & after & -> & -> & Hafter).
    by exists (String first middle), after.
  - destruct (Ascii.eqb_spec first "}") as [-> | Hne]; cbn.
    + by exists "", text.
    + exact IH.
Qed.

Lemma append_associative (a b c : string) : (a +:+ b) +:+ c = a +:+ (b +:+ c).
Proof.
  induction a as [|first a IH]; [done|].
  change ((String first a +:+ b) +:+ c) with (String first ((a +:+ b) +:+ c)).
  by rewrite IH.
Qed.

Lemma after_first_open before rest before' tail :
  occurs "{" before = false ->
  before +:+ String "{" rest = before' +:+ String "{" tail ->
  exists between, rest = between +:+ tail.
Proof.
  revert before'. induction before as [|c before IH]; intros before' Hnone Heq.
  - destruct before' as [|c' before']; simpl in Heq.
    + exists "". by injection Heq.
    + injection Heq as _ ->. exists (before' +:+ "{").
      by rewrite append_associative.
  - simpl in Hnone. apply orb_false_elim in Hnone as [Hc Hnone].
    destruct before' as [|c' before']; simpl in Heq.
    + injection Heq as -> _. done.
    + injection Heq as _ Heq. by eapply IH.
Qed.

(** X24 (generateDetailedAIAnalysis, generateAIAnalysis): the text that
    is parsed as JSON is what [content.match(/\{[\s\S]*\}/)] finds: it runs
    from the first opening brace of the answer to the last closing brace
    after it; when no closing brace follows an opening one, nothing is
    found. *)
Theorem extractJson_first_open_to_last_close (content : string) :
  match extractJson content with
  | Some text =>
      exists before middle after,
        content = before +:+ "{" +:+ middle +:+ "}" +:+ after
        /\ text = "{" +:+ middle +:+ "}"
        /\ occurs "{" before = false
        /\ occurs "}" after = false
  | None =>
      forall before middle after,
        content <> before +:+ "{" +:+ middle +:+ "}" +:+ after
  end.
Proof.
  unfold extractJson.
  pose proof (fromFirstOpen_spec content) as Hopen.
  destruct (fromFirstOpen content) as [suffix|].
  - destruct Hopen as (before & rest & -> & -> & Hbefore).
    pose proof (upToLastClose_spec rest) as Hclose.
    destruct (upToLastClose rest) as [prefix|]; cbn [fmap option_fmap option_map].
    + destruct Hclose as (middle & after & -> & -> & Hafter).
      simpl. exists before, middle, after.
      split; [reflexivity|]. split; [reflexivity|]. by split.
    + simpl. intros before' middle after Heq.
      apply after_first_open in Heq as [between ->]; [|done].
      rewrite !occurs_app in Hclose. simpl in Hclose.
      rewrite ?orb_true_r in Hclose. done.
  - simpl. intros before middle after ->.
    rewrite !occurs_app in Hopen. simpl in Hopen.
    rewrite ?orb_true_r in Hopen. done.
Qed.

Lemma insertBefore_StronglySorted {A} (comparator : A -> A -> Z)
    (R : A -> A -> Prop) (x : A) (sorted : list A) :
  (forall a b c, R a b -> R b c -> R a c) ->
  (forall a b, comparator a b <= 0 -> R a b) ->
  (forall a b, 0 < comparator a b -> R b a) ->
  StronglySorted R sorted -> StronglySorted R (insertBefore comparator x sorted).
Proof.
  intros Htrans Hle Hgt.
  induction sorted as [|y sorted IH]; intros Hsorted; cbn.
  - repeat constructor.
  - apply StronglySorted_inv in Hsorted as [Hrest Hfirst].
    destruct (Z.leb_spec (comparator x y) 0) as [Hxy | Hxy].
    + constructor; [by constructor|]. constructor; [by apply Hle|].
      eapply Forall_impl; [exact Hfirst|]. cbn. intros z Hz.
      eapply Htrans; [apply Hle, Hxy|exact Hz].
    + constructor; [by apply IH|].
      apply Forall_forall. intros z Hz.
      rewrite insertBefore_Permutation in Hz.
      apply elem_of_cons in Hz as [-> | Hz]; [by apply Hgt|].
      rewrite Forall_forall in Hfirst. by apply Hfirst.
Qed.

Lemma sortStable_StronglySorted {A} (comparator : A -> A -> Z)
    (R : A -> A -> Prop) (array : list A) :
  (forall a b c, R a b -> R b c -> R a c) ->
  (forall a b, comparator a b <= 0 -> R a b) ->
  (forall a b, 0 < comparator a b -> R b a) ->
  StronglySorted R (sortStable comparator array).
Proof.
  intros Htrans Hle Hgt. unfold sortStable.
  induction array as [|x array IH]; cbn; [constructor|].
  by apply insertBefore_StronglySorted.
Qed.

Lemma StronglySorted_take {A} (R : A -> A -> Prop) (n : nat) (l : list A) :
  StronglySorted R l -> StronglySorted R (take n l).
Proof.
  revert n. induction l as [|x l IH]; intros [|n] Hsorted; cbn; try constructor.
  - apply IH. by apply StronglySorted_inv in Hsorted as [? _].
  - apply StronglySorted_inv in Hsorted as [_ Hfirst].
    apply Forall_forall. intros y Hy. rewrite Forall_forall in Hfirst.
    apply Hfirst. by eapply subseteq_take.
Qed.

Lemma isPrimaryRepo_eqb (config : RepoConfig) :
  isPrimaryRepo config = String.eqb "arch-network" (repo config).
Proof.
  unfold isPrimaryRepo, primaryRepos.
  destruct (String.eqb_spec "arch-network" (repo config)) as [Heq | Hne].
  - apply bool_decide_eq_true_2. rewrite <- Heq. by apply list_elem_of_singleton.
  - apply bool_decide_eq_false_2. intros Hin.
    apply list_elem_of_singleton in Hin. congruence.
Qed.

Lemma compareRepos_cases (a b : RepoConfig) :
  compareRepos a b
  = match isPrimaryRepo a, isPrimaryRepo b with
    | true, true | false, false => 0
    | true, false => -1
    | false, true => 1
    end.
Proof.
  rewrite !isPrimaryRepo_eqb. unfold compareRepos, primaryRepos.
  cbn [indexOfFrom].
  destruct (String.eqb "arch-network" (repo a)),
           (String.eqb "arch-network" (repo b)); reflexivity.
Qed.

Lemma sortStable_compareRepos_sorted (REPOS : list RepoConfig) :
  PrimaryFirst (sortStable compareRepos REPOS).
Proof.
  apply sortStable_StronglySorted.
  - intros a b c Hab Hbc Hc. by apply Hab, Hbc.
  - intros a b. rewrite compareRepos_cases.
    destruct (isPrimaryRepo a), (isPrimaryRepo b); (done || lia).
  - intros a b. rewrite compareRepos_cases.
    destruct (isPrimaryRepo a), (isPrimaryRepo b); (done || lia).
Qed.

(** X25 (generateContributionReport): the repositories a run processes
    are configured ones, none taken more often than it is configured, with
    no other repository before a primary one.  Outside memory-optimized
    mode they are all the configured repositories.  In memory-optimized
    mode they are the first three in priority order when [MAX_REPOS] is
    unset, and none at all when [MAX_REPOS] spells no number. *)
Theorem reposToProcess_are_a_prefix_by_priority (env : Env) (REPOS : list RepoConfig) :
  reposToProcess env REPOS ⊆+ REPOS
  /\ PrimaryFirst (reposToProcess env REPOS)
  /\ (isMemoryOptimized env = false -> reposToProcess env REPOS ≡ₚ REPOS)
  /\ (isMemoryOptimized env = true ->
      env !! "MAX_REPOS" = None ->
      reposToProcess env REPOS = take 3 (sortStable compareRepos REPOS)
      /\ length (reposToProcess env REPOS) = Nat.min 3 (length REPOS))
  /\ (isMemoryOptimized env = true ->
      forall text,
        env !! "MAX_REPOS" = Some text -> text <> "" ->
        parseIntDecimal text = None ->
        reposToProcess env REPOS = []).
Proof.
  pose proof (sortStable_Permutation compareRepos REPOS) as Hperm.
  pose proof (sortStable_compareRepos_sorted REPOS) as Hsorted.
  unfold reposToProcess.
  destruct (isMemoryOptimized env) eqn:Hmode.
  - split; [|split; [|split; [done|split]]].
    + etrans; [|apply Permutation_submseteq, Hperm]. unfold sliceTo.
      destruct (parseIntDecimal _) as [maxRepos|]; [|apply submseteq_nil_l].
      destruct (maxRepos <? 0); apply submseteq_take.
    + unfold sliceTo, PrimaryFirst.
      destruct (parseIntDecimal _) as [maxRepos|]; [|constructor].
      destruct (maxRepos <? 0); by apply StronglySorted_take.
    + intros _ Hunset. rewrite Hunset.
      assert (parseIntDecimal (orElse None "3") = Some 3) as -> by (by vm_compute).
      change (sliceTo (sortStable compareRepos REPOS) (Some 3))
        with (take 3 (sortStable compareRepos REPOS)).
      split; [done|]. rewrite length_take, sortStable_length. lia.
    + intros _ text Htext Hnonempty Hnan. rewrite Htext. unfold orElse, truthyString.
      destruct (String.eqb_spec text "") as [-> | _]; [done|].
      cbn [negb]. by rewrite Hnan.
  - split; [by apply Permutation_submseteq|]. split; [done|]. split; [done|].
    split; done.
Qed.

Lemma lengthZ_topContributors (usersObj : gmap string UserStats.t) :
  (lengthZ (topContributors usersObj) =? 0) = bool_decide (usersObj = ∅).
Proof.
  destruct (decide (usersObj = ∅)) as [Hempty | Hsome].
  - rewrite bool_decide_eq_true_2 by done.
    apply topContributors_nil in Hempty. by rewrite Hempty.
  - rewrite bool_decide_eq_false_2 by done.
    apply Z.eqb_neq. intros Hlen. apply Hsome, topContributors_nil.
    apply length_zero_iff_nil. unfold lengthZ in Hlen. lia.
Qed.

(** X26 (generateContributionReport, generateDetailedAIAnalysis,
    generateAIAnalysis): the narrative stage posts nothing when it is
    skipped, when no user is recorded or when the API key is missing;
    otherwise it posts the detailed prompt once, followed by the basic
    prompt once exactly when the detailed request gave no usable analysis.
    It never posts more than these two requests. *)
Theorem narrative_stage_posts_at_most_two_requests
    (anthropic : PromptKind -> option string)
    (JSON_parse : string -> option json) (toNumber : json -> option Q)
    (env : Env) (c : Contributions) :
  (~ narrativeEnabled env c ->
   narrativeRequests anthropic JSON_parse toNumber env c = [])
  /\ (narrativeEnabled env c ->
      narrativeRequests anthropic JSON_parse toNumber env c
      = if truthyOpt (requestAnalysis anthropic JSON_parse DetailedPrompt)
        then [DetailedPrompt]
        else [DetailedPrompt; BasicPrompt]).
Proof.
  unfold narrativeRequests, narrativeEnabled, narrativeStage,
    generateDetailedAIAnalysis, generateAIAnalysis, analysisWith.
  rewrite lengthZ_topContributors.
  destruct (decide (env !! "SKIP_AI_ANALYSIS" = Some "true")) as [Hskip | Hrun].
  { rewrite bool_decide_eq_true_2 by done. split; [done|]. by intros [? _]. }
  rewrite bool_decide_eq_false_2 by done.
  destruct (decide (users c = ∅)) as [Hempty | Hsome].
  { rewrite bool_decide_eq_true_2 by done. split; [done|]. by intros (_ & ? & _). }
  rewrite bool_decide_eq_false_2 by done.
  destruct (truthyString (default "" (env !! "ANTHROPIC_API_KEY"))) eqn:Hkey.
  - split; [intros Hoff; by destruct Hoff|]. intros _.
    destruct (requestAnalysis anthropic JSON_parse DetailedPrompt) as [analysis|];
      cbn [truthyOpt]; [destruct (truthy analysis)|]; reflexivity.
  - split; [done|]. by intros (_ & _ & ?).
Qed.

Example sanitizeToken_single_quote_char :
  sanitizeToken (Some [doubleQuote]) = Some [doubleQuote].
Proof. reflexivity. Qed.

Lemma trimStart_suffix (s : JsString.t) :
  exists blank, s = blank ++ JsString.trimStart s
    /\ Forall (fun unit => JsString.isWhiteSpace unit = true) blank.
Proof.
  induction s as [|unit s (blank & Hs & Hblank)]; cbn.
  - by exists [].
  - destruct (JsString.isWhiteSpace unit) eqn:Hunit.
    + exists (unit :: blank). split; [cbn; by f_equal | by constructor].
    + by exists [].
Qed.

Lemma trimEnd_prefix (s : JsString.t) :
  exists blank, s = JsString.trimEnd s ++ blank
    /\ Forall (fun unit => JsString.isWhiteSpace unit = true) blank.
Proof.
  unfold JsString.trimEnd.
  destruct (trimStart_suffix (rev s)) as (blank & Hs & Hblank).
  exists (rev blank). split.
  - rewrite <- rev_app_distr, <- Hs. by rewrite rev_involutive.
  - by apply Forall_rev.
Qed.

Lemma trim_sublist (s : JsString.t) : JsString.trim s `sublist_of` s.
Proof.
  unfold JsString.trim.
  destruct (trimStart_suffix s) as (front & Hfront & _).
  destruct (trimEnd_prefix (JsString.trimStart s)) as (back & Hback & _).
  rewrite Hfront at 2. rewrite Hback at 2.
  by apply sublist_inserts_l, sublist_inserts_r.
Qed.

Lemma substring_sublist (s : JsString.t) (start end_ : Z) :
  JsString.substring s start end_ `sublist_of` s.
Proof.
  unfold JsString.substring. cbv zeta.
  etrans; [apply sublist_take | apply sublist_drop].
Qed.

Lemma removeAll_sublist (class : Z -> bool) (s : JsString.t) :
  JsString.removeAll class s `sublist_of` s.
Proof.
  unfold JsString.removeAll. induction s as [|unit s IH]; cbn; [done|].
  destruct (class unit); cbn; by constructor.
Qed.

Lemma removeFirst_sublist (class : Z -> bool) (s : JsString.t) :
  JsString.removeFirst class s `sublist_of` s.
Proof.
  induction s as [|unit s IH]; cbn; [done|].
  destruct (class unit); by constructor.
Qed.

Lemma removeAll_Forall (class : Z -> bool) (s : JsString.t) :
  Forall (fun unit => class unit = false) (JsString.removeAll class s).
Proof.
  unfold JsString.removeAll. induction s as [|unit s IH]; cbn; [done|].
  destruct (class unit) eqn:Hunit; cbn; [done | by constructor].
Qed.

Lemma removeFirst_Forall (P : Z -> Prop) (class : Z -> bool) (s : JsString.t) :
  Forall P s -> Forall P (JsString.removeFirst class s).
Proof.
  induction 1 as [|unit s Hunit Hs IH]; cbn; [done|].
  destruct (class unit); [done | by constructor].
Qed.

Ltac sanitized_sublist :=
  repeat first
    [ apply trim_sublist
    | etrans; [apply removeFirst_sublist|]
    | etrans; [apply removeAll_sublist|]
    | etrans; [apply substring_sublist|] ].

(** X27 (sanitizeToken): a token that comes out of sanitizeToken holds no
    control character (code units 0x00-0x1F and 0x7F), and is made of code
    units of the given token in their order: nothing is added or moved. *)
Theorem sanitizeToken_strips_control_characters
    (token : option JsString.t) (sanitized : JsString.t) :
  sanitizeToken token = Some sanitized ->
  Forall (fun unit => isControl unit = false) sanitized
  /\ sanitized `sublist_of` default [] token.
Proof.
  unfold sanitizeToken. destruct token as [token|]; [|done].
  cbn [default from_option id]. cbv zeta.
  repeat case_match; try done; intros [= <-];
    (split;
     [ try apply removeFirst_Forall; apply removeAll_Forall
     | sanitized_sublist ]).
Qed.

Lemma sanitizeToken_strips_control_characters_witness :
  sanitizeToken (Some [0x20; 0x22; 0x67; 0x1; 0x68; 0x22; 0xA])
    = Some [0x67; 0x68]
  /\ Forall (fun unit => isControl unit = false) [0x67; 0x68]
  /\ [0x67; 0x68] `sublist_of` [0x20; 0x22; 0x67; 0x1; 0x68; 0x22; 0xA].
Proof.
  split; [reflexivity|].
  apply (sanitizeToken_strips_control_characters
           (Some [0x20; 0x22; 0x67; 0x1; 0x68; 0x22; 0xA]) [0x67; 0x68]).
  reflexivity.
Defined.

Lemma isVisibleAscii_not_blank (unit : Z) :
  isVisibleAscii unit -> JsString.isWhiteSpace unit = false.
Proof.
  unfold isVisibleAscii, JsString.isWhiteSpace. intros Hunit.
  apply orb_false_intro; [|lia].
  apply bool_decide_eq_false_2. intros Hin.
  repeat (apply elem_of_cons in Hin as [Hin | Hin]; [lia|]).
  by apply elem_of_nil in Hin.
Qed.

Lemma trimStart_blank (blank rest : JsString.t) :
  Forall (fun unit => JsString.isWhiteSpace unit = true) blank ->
  JsString.trimStart (blank ++ rest) = JsString.trimStart rest.
Proof. induction 1 as [|unit blank Hunit _ IH]; cbn; [done | by rewrite Hunit]. Qed.

Lemma trimStart_stops (unit : Z) (rest : JsString.t) :
  JsString.isWhiteSpace unit = false ->
  JsString.trimStart (unit :: rest) = unit :: rest.
Proof. intros Hunit. cbn. by rewrite Hunit. Qed.

Lemma trimEnd_blank (rest blank : JsString.t) :
  Forall (fun unit => JsString.isWhiteSpace unit = true) blank ->
  JsString.trimEnd (rest ++ blank) = JsString.trimEnd rest.
Proof.
  intros Hblank. unfold JsString.trimEnd.
  rewrite rev_app_distr, trimStart_blank; [done | by apply Forall_rev].
Qed.

Lemma trimEnd_stops (rest : JsString.t) (unit : Z) :
  JsString.isWhiteSpace unit = false ->
  JsString.trimEnd (rest ++ [unit]) = rest ++ [unit].
Proof.
  intros Hunit. unfold JsString.trimEnd.
  rewrite rev_app_distr. cbn [rev app].
  rewrite trimStart_stops by done. cbn [rev]. by rewrite rev_involutive.
Qed.

(** Trimming a string whose first and last code units are not blank
    removes exactly the blanks around it. *)
Lemma trim_around (front : JsString.t) (first : Z) (middle : JsString.t)
    (final : Z) (back : JsString.t) :
  Forall (fun unit => JsString.isWhiteSpace unit = true) front ->
  Forall (fun unit => JsString.isWhiteSpace unit = true) back ->
  JsString.isWhiteSpace first = false ->
  JsString.isWhiteSpace final = false ->
  JsString.trim (front ++ (first :: middle ++ [final]) ++ back)
  = first :: middle ++ [final].
Proof.
  intros Hfront Hback Hfirst Hfinal. unfold JsString.trim.
  rewrite trimStart_blank by done.
  change ((first :: middle ++ [final]) ++ back)
    with (first :: (middle ++ [final]) ++ back).
  rewrite trimStart_stops by done.
  change (first :: (middle ++ [final]) ++ back)
    with ((first :: middle ++ [final]) ++ back).
  rewrite trimEnd_blank by done.
  change (first :: middle ++ [final]) with ((first :: middle) ++ [final]).
  by rewrite trimEnd_stops.
Qed.

Lemma trim_around_one (front : JsString.t) (only : Z) (back : JsString.t) :
  Forall (fun unit => JsString.isWhiteSpace unit = true) front ->
  Forall (fun unit => JsString.isWhiteSpace unit = true) back ->
  JsString.isWhiteSpace only = false ->
  JsString.trim (front ++ [only] ++ back) = [only].
Proof.
  intros Hfront Hback Honly. unfold JsString.trim.
  rewrite trimStart_blank by done.
  change ([only] ++ back) with (only :: back).
  rewrite trimStart_stops by done.
  change (only :: back) with ([only] ++ back).
  rewrite trimEnd_blank by done.
  by apply (trimEnd_stops []).
Qed.

Lemma substring_inner (first : Z) (middle : JsString.t) (final : Z) :
  JsString.substring (first :: middle ++ [final]) 1
    (lengthZ (first :: middle ++ [final]) - 1)
  = middle.
Proof.
  unfold JsString.substring, lengthZ. cbv zeta.
  cbn [length]. rewrite length_app. cbn [length].
  replace (Z.min (Z.max 1 0) _) with 1 by lia.
  replace (Z.min (Z.max (_ - 1) 0) _) with (Z.of_nat (length middle) + 1) by lia.
  replace (Z.to_nat (Z.min 1 _)) with 1%nat by lia.
  replace (Z.to_nat (Z.max 1 _ - Z.min 1 _)) with (length middle) by lia.
  cbn [drop]. by rewrite drop_0, take_app_length.
Qed.

Ltac decide_units :=
  repeat match goal with
         | |- context [Z.eqb ?a ?b] => destruct (Z.eqb_spec a b)
         | |- context [Z.leb ?a ?b] => destruct (Z.leb_spec a b)
         end;
  first [lia | reflexivity].

Lemma removeAll_none (class : Z -> bool) (s : JsString.t) :
  Forall (fun unit => class unit = false) s -> JsString.removeAll class s = s.
Proof.
  unfold JsString.removeAll.
  induction 1 as [|unit s Hunit _ IH]; cbn; [done|]. by rewrite Hunit, IH.
Qed.

Lemma existsb_none (class : Z -> bool) (s : JsString.t) :
  Forall (fun unit => class unit = false) s -> existsb class s = false.
Proof. induction 1 as [|unit s Hunit _ IH]; cbn; [done|]. by rewrite Hunit, IH. Qed.

(** What the later steps of [sanitizeToken] do to visible ASCII. *)
Lemma visible_passes (s : JsString.t) :
  Forall isVisibleAscii s ->
  JsString.includes s 0xA = false
  /\ JsString.includes s 0xD = false
  /\ JsString.removeAll isControl s = s
  /\ JsString.test invalidHeaderChars s = false.
Proof.
  intros Hvisible. unfold JsString.includes, JsString.test.
  repeat split;
    (apply existsb_none || apply removeAll_none);
    (eapply Forall_impl; [exact Hvisible|]);
    unfold isVisibleAscii, isControl, invalidHeaderChars; cbn beta;
    intros unit Hunit; decide_units.
Qed.

Lemma sanitizeToken_visible (token core : JsString.t) :
  token <> [] -> core <> [] -> Forall isVisibleAscii core ->
  (if isQuoted (JsString.trim token)
   then JsString.substring (JsString.trim token) 1
          (lengthZ (JsString.trim token) - 1)
   else JsString.trim token) = core ->
  sanitizeToken (Some token) = Some core.
Proof.
  intros Htoken Hcore Hvisible Hunquoted. unfold sanitizeToken. cbv zeta.
  destruct (Z.eqb_spec (lengthZ token) 0) as [Hlen | _].
  { destruct token; [done | unfold lengthZ in Hlen; cbn in Hlen; lia]. }
  fold (isQuoted (JsString.trim token)). rewrite Hunquoted.
  destruct (visible_passes core Hvisible) as (Hn & Hr & Hcontrol & Hheader).
  rewrite Hn, Hr. cbn [orb]. rewrite Hcontrol, Hheader.
  destruct (Z.eqb_spec (lengthZ core) 0) as [Hlen | _]; [|done].
  destruct core; [done | unfold lengthZ in Hlen; cbn in Hlen; lia].
Qed.

(** X28 (sanitizeToken): from a token of visible ASCII characters that is
    surrounded by blanks and by one pair of double or single quotes,
    sanitizeToken returns what is between the quotes; without the quotes
    it returns the token between the blanks, unchanged. *)
Theorem sanitizeToken_unwraps_clean_token
    (front core back : JsString.t) (quote : Z) :
  Forall (fun unit => JsString.isWhiteSpace unit = true) front ->
  Forall (fun unit => JsString.isWhiteSpace unit = true) back ->
  Forall isVisibleAscii core -> core <> [] ->
  quote = doubleQuote \/ quote = singleQuote ->
  sanitizeToken (Some (front ++ ([quote] ++ core ++ [quote]) ++ back)) = Some core
  /\ (isQuoted core = false ->
      sanitizeToken (Some (front ++ core ++ back)) = Some core).
Proof.
  intros Hfront Hback Hvisible Hcore Hquote.
  assert (JsString.isWhiteSpace quote = false) as Hq.
  { apply isVisibleAscii_not_blank. unfold isVisibleAscii, doubleQuote, singleQuote in *. lia. }
  split.
  - apply sanitizeToken_visible; [by destruct front | done | done |].
    change ([quote] ++ core ++ [quote]) with (quote :: core ++ [quote]).
    rewrite trim_around by done.
    assert (isQuoted (quote :: core ++ [quote]) = true) as ->.
    { unfold isQuoted, JsString.startsWith, JsString.endsWith.
      change (quote :: core ++ [quote]) with ((quote :: core) ++ [quote]).
      rewrite last_snoc.
      destruct Hquote as [-> | ->]; reflexivity. }
    apply substring_inner.
  - intros Hbare.
    apply sanitizeToken_visible; [by destruct front, core | done | done |].
    assert (JsString.trim (front ++ core ++ back) = core) as ->; [|by rewrite Hbare].
    destruct core as [|first core]; [done|].
    apply Forall_cons in Hvisible as [Hfirst Hvisible].
    apply isVisibleAscii_not_blank in Hfirst.
    induction core as [|final middle _] using rev_ind.
    + by apply trim_around_one.
    + apply Forall_app in Hvisible as [_ [Hfinal _]%Forall_cons].
      apply isVisibleAscii_not_blank in Hfinal.
      by apply (trim_around front first middle final back).
Qed.

Lemma sanitizeToken_unwraps_clean_token_witness :
  sanitizeToken (Some ([0x20] ++ ([0x27] ++ [0x67; 0x68; 0x70] ++ [0x27]) ++ [0xA]))
    = Some [0x67; 0x68; 0x70]
  /\ sanitizeToken (Some ([0x20] ++ [0x67; 0x68; 0x70] ++ [0xA]))
     = Some [0x67; 0x68; 0x70].
Proof.
  assert (isVisibleAscii 0x67 /\ isVisibleAscii 0x68 /\ isVisibleAscii 0x70)
    as (Hg & Hh & Hp) by (unfold isVisibleAscii; lia).
  destruct (sanitizeToken_unwraps_clean_token
              [0x20] [0x67; 0x68; 0x70] [0xA] 0x27) as [Hquoted Hbare].
  - repeat constructor.
  - repeat constructor.
  - by repeat constructor.
  - done.
  - right. reflexivity.
  - split; [exact Hquoted | apply Hbare; reflexivity].
Defined.

Lemma trimStart_keeps (front : JsString.t) (unit : Z) (rest : JsString.t) :
  JsString.isWhiteSpace unit = false ->
  exists kept, JsString.trimStart (front ++ unit :: rest) = kept ++ unit :: rest.
Proof.
  intros Hunit. induction front as [|first front [kept IH]].
  - exists []. by apply trimStart_stops.
  - cbn. destruct (JsString.isWhiteSpace first).
    + by exists kept.
    + by exists (first :: front).
Qed.

Lemma trimEnd_keeps (front : JsString.t) (unit : Z) (back : JsString.t) :
  JsString.isWhiteSpace unit = false ->
  exists kept, JsString.trimEnd (front ++ unit :: back) = front ++ unit :: kept.
Proof.
  intros Hunit. unfold JsString.trimEnd.
  rewrite rev_app_distr. cbn [rev]. rewrite <- app_assoc. cbn [app].
  destruct (trimStart_keeps (rev back) unit (rev front) Hunit) as [kept ->].
  exists (rev kept).
  rewrite rev_app_distr. cbn [rev]. rewrite rev_involutive, <- app_assoc.
  reflexivity.
Qed.

Lemma removeAll_app (class : Z -> bool) (s s' : JsString.t) :
  JsString.removeAll class (s ++ s')
  = JsString.removeAll class s ++ JsString.removeAll class s'.
Proof. apply List.filter_app. Qed.

Lemma removeAll_cons_keep (class : Z -> bool) (unit : Z) (s : JsString.t) :
  class unit = false ->
  JsString.removeAll class (unit :: s) = unit :: JsString.removeAll class s.
Proof. intros Hunit. unfold JsString.removeAll. cbn. by rewrite Hunit. Qed.

Lemma removeFirst_keeps_later (class : Z -> bool) (front : JsString.t)
    (unit : Z) (rest : JsString.t) :
  class unit = true ->
  exists kept, JsString.removeFirst class (front ++ unit :: rest) = kept ++ rest.
Proof.
  intros Hunit. induction front as [|first front [kept IH]]; cbn.
  - exists []. by rewrite Hunit.
  - destruct (class first).
    + exists (front ++ [unit]). by rewrite <- app_assoc.
    + exists (first :: kept). cbn. by rewrite IH.
Qed.

Section HoldsInOrder.
Variables u1 u2 : Z.
Hypothesis u1_wide : 0xFF < u1.
Hypothesis u2_wide : 0xFF < u2.
Hypothesis u1_not_blank : JsString.isWhiteSpace u1 = false.
Hypothesis u2_not_blank : JsString.isWhiteSpace u2 = false.

Lemma trim_holds (s : JsString.t) :
  HoldsInOrder u1 u2 s -> HoldsInOrder u1 u2 (JsString.trim s).
Proof.
  intros (a & b & c & ->). unfold JsString.trim.
  destruct (trimStart_keeps a u1 (b ++ u2 :: c) u1_not_blank) as [a' ->].
  change (a' ++ u1 :: b ++ u2 :: c) with (a' ++ (u1 :: b) ++ u2 :: c).
  rewrite app_assoc.
  destruct (trimEnd_keeps (a' ++ u1 :: b) u2 c u2_not_blank) as [c' ->].
  exists a', b, c'. by rewrite <- app_assoc.
Qed.

Lemma unquote_holds (s : JsString.t) :
  isQuoted s = true ->
  HoldsInOrder u1 u2 s ->
  HoldsInOrder u1 u2 (JsString.substring s 1 (lengthZ s - 1)).
Proof.
  intros Hquoted (a & b & c & ->).
  assert (exists quote, (quote = doubleQuote \/ quote = singleQuote)
            /\ JsString.startsWith (a ++ u1 :: b ++ u2 :: c) quote = true
            /\ JsString.endsWith (a ++ u1 :: b ++ u2 :: c) quote = true)
    as (quote & Hquote & Hstart & Hend).
  { unfold isQuoted in Hquoted.
    apply orb_true_iff in Hquoted as [[? ?]%andb_true_iff | [? ?]%andb_true_iff];
      [exists doubleQuote | exists singleQuote]; auto. }
  assert (quote < 0xFF) as Hnarrow
    by (unfold doubleQuote, singleQuote in Hquote; lia).
  destruct a as [|first a].
  { cbn in Hstart. apply Z.eqb_eq in Hstart. lia. }
  induction c as [|final c _] using rev_ind.
  { unfold JsString.endsWith in Hend.
    replace ((first :: a) ++ u1 :: b ++ [u2])
      with (((first :: a) ++ u1 :: b) ++ [u2]) in Hend
      by (by rewrite <- app_assoc).
    rewrite last_snoc in Hend. apply Z.eqb_eq in Hend. lia. }
  replace ((first :: a) ++ u1 :: b ++ u2 :: c ++ [final])
    with (first :: (a ++ u1 :: b ++ u2 :: c) ++ [final]).
  - rewrite substring_inner. by exists a, b, c.
  - cbn [app]. f_equal. rewrite <- app_assoc. cbn [app]. f_equal. f_equal.
    by rewrite <- app_assoc.
Qed.

Lemma removeAll_holds (class : Z -> bool) (s : JsString.t) :
  class u1 = false -> class u2 = false ->
  HoldsInOrder u1 u2 s -> HoldsInOrder u1 u2 (JsString.removeAll class s).
Proof.
  intros Hu1 Hu2 (a & b & c & ->).
  exists (JsString.removeAll class a), (JsString.removeAll class b),
    (JsString.removeAll class c).
  rewrite removeAll_app, removeAll_cons_keep by done.
  by rewrite removeAll_app, removeAll_cons_keep by done.
Qed.

Lemma holds_not_empty (s : JsString.t) :
  HoldsInOrder u1 u2 s -> (lengthZ s =? 0) = false.
Proof.
  intros (a & b & c & ->). apply Z.eqb_neq. unfold lengthZ.
  rewrite length_app. cbn [length]. lia.
Qed.

Lemma holds_still_invalid (s : JsString.t) :
  HoldsInOrder u1 u2 s ->
  JsString.test invalidHeaderChars
    (if JsString.test invalidHeaderChars s
     then JsString.removeFirst invalidHeaderChars s
     else s) = true.
Proof.
  assert (invalidHeaderChars u1 = true) as Hu1
    by (unfold invalidHeaderChars; decide_units).
  assert (invalidHeaderChars u2 = true) as Hu2
    by (unfold invalidHeaderChars; decide_units).
  intros (a & b & c & ->).
  assert (JsString.test invalidHeaderChars (a ++ u1 :: b ++ u2 :: c) = true) as ->.
  { unfold JsString.test. rewrite existsb_app. cbn [existsb].
    rewrite Hu1. by rewrite orb_true_r. }
  destruct (removeFirst_keeps_later invalidHeaderChars a u1 (b ++ u2 :: c) Hu1)
    as [kept ->].
  unfold JsString.test. rewrite !existsb_app. cbn [existsb].
  rewrite Hu2. by rewrite !orb_true_r.
Qed.

Lemma sanitizeToken_holds (token : JsString.t) :
  HoldsInOrder u1 u2 token ->
  exists sanitized,
    sanitizeToken (Some token) = Some sanitized
    /\ JsString.test invalidHeaderChars sanitized = true.
Proof.
  intros Htoken. unfold sanitizeToken. cbv zeta.
  rewrite (holds_not_empty token Htoken).
  fold (isQuoted (JsString.trim token)).
  apply trim_holds in Htoken.
  assert (HoldsInOrder u1 u2
            (if isQuoted (JsString.trim token)
             then JsString.substring (JsString.trim token) 1
                    (lengthZ (JsString.trim token) - 1)
             else JsString.trim token)) as Hunquoted.
  { destruct (isQuoted _) eqn:Hquoted; [by apply unquote_holds | done]. }
  revert Hunquoted. generalize (if isQuoted (JsString.trim token)
             then JsString.substring (JsString.trim token) 1
                    (lengthZ (JsString.trim token) - 1)
             else JsString.trim token) as unquoted.
  intros unquoted Hunquoted.
  assert (HoldsInOrder u1 u2
            (if JsString.includes unquoted 10 || JsString.includes unquoted 13
             then JsString.removeAll isNewline unquoted else unquoted)) as Hjoined.
  { destruct (_ || _); [|done].
    apply removeAll_holds; [| |done]; unfold isNewline; decide_units. }
  revert Hjoined. generalize (if JsString.includes unquoted 10 || JsString.includes unquoted 13
             then JsString.removeAll isNewline unquoted else unquoted) as joined.
  intros joined Hjoined.
  assert (HoldsInOrder u1 u2 (JsString.removeAll isControl joined)) as Hstripped.
  { apply removeAll_holds; [| |done]; unfold isControl; decide_units. }
  rewrite (holds_not_empty _ Hstripped).
  eexists. split; [reflexivity|]. by apply holds_still_invalid.
Qed.
End HoldsInOrder.

(** X29 (sanitizeToken): only the first character that is invalid in an
    HTTP header is removed.  A token with two code units above 0xFF that
    are not white space comes out of sanitizeToken still holding a
    character that fails the function's own header check. *)
Theorem sanitizeToken_removes_one_invalid_character
    (a : JsString.t) (u1 : Z) (b : JsString.t) (u2 : Z) (c : JsString.t) :
  0xFF < u1 -> 0xFF < u2 ->
  JsString.isWhiteSpace u1 = false -> JsString.isWhiteSpace u2 = false ->
  exists sanitized,
    sanitizeToken (Some (a ++ u1 :: b ++ u2 :: c)) = Some sanitized
    /\ JsString.test invalidHeaderChars sanitized = true.
Proof.
  intros Hu1 Hu2 Hblank1 Hblank2.
  apply (sanitizeToken_holds u1 u2 Hu1 Hu2 Hblank1 Hblank2).
  by exists a, b, c.
Qed.

Lemma sanitizeToken_removes_one_invalid_character_witness :
  exists sanitized,
    sanitizeToken (Some ([0x67] ++ 0x2014 :: [0x68] ++ 0x2014 :: [0x70]))
      = Some sanitized
    /\ JsString.test invalidHeaderChars sanitized = true.
Proof.
  apply (sanitizeToken_removes_one_invalid_character
           [0x67] 0x2014 [0x68] 0x2014 [0x70]);
    first [lia | reflexivity].
Defined.

Example sanitizeToken_dashes :
  sanitizeToken (Some [0x67; 0x2014; 0x68; 0x2014; 0x70])
  = Some [0x67; 0x68; 0x2014; 0x70].
Proof. reflexivity. Qed.
